(** * The realtime connection manager of src/hooks/useWebSocket.js

    A shallow embedding of the [useWebSocket] hook.  The hook is a React
    function component body: every render evaluates it afresh, giving a new
    lexical scope whose constants ([isConnected], [pendingEmits], ...) are a
    snapshot of the component state, and [useCallback] hands back either the
    closure created in this render or the one memoised from an older render,
    according to its dependency array.  A closure therefore sees the
    constants of the render that created it.  The embedding keeps the list
    of render scopes; a closure is the index of its scope, and every
    function of the hook takes that index as its first argument.

    Mutable cells ([useRef]) and the pending component state live in the
    [World]; state setters act on the pending state at once and are seen by
    closures only through the scope of a later render.  The transport
    (socket.io-client), timers, the clock and the UUID generator are the
    environment. *)

From Stdlib Require Import ZArith List String Ascii Bool Lia DecimalString.
From stdpp Require Import base option list gmap strings.

Local Open Scope Z_scope.
Local Open Scope string_scope.
Local Open Scope list_scope.

(** ** Values *)

Inductive JsVal :=
| JNull
| JBool (b : bool)
| JNum (z : Z)
| JStr (s : string).

(** A plain JS object used as a record of fields. *)
Abbreviation JsObj := (gmap string JsVal).

(** Function values handed to [on]/[off]: a consumer's handler, or the
    [handlerWithLogging] closure that [on] builds around one.  [===] on
    functions is identity: the tag of a consumer handler, the allocation
    number of a wrapper. *)
Inductive Fn :=
| FUser (h : nat)
| FLogged (id : nat) (event : string) (handler : Fn).

Definition fn_same (f g : Fn) : bool :=
  match f, g with
  | FUser a, FUser b => Nat.eqb a b
  | FLogged i _ _, FLogged j _ _ => Nat.eqb i j
  | _, _ => false
  end.

(** What a completion callback of [emit] receives. *)
Inductive CbArg :=
| ArgObj (o : JsObj)
| ArgResponse (r : JsVal).

(** Entry of the [pendingEmits] array: [{ event, data, callback }]. *)
Record PendingEmit := mkPending {
  pe_event : string;
  pe_data : JsObj;
  pe_callback : option nat
}.

(** ** SOCKET_EVENTS (the lifecycle names used by the hook) *)
Module SOCKET_EVENTS.
Definition CONNECT := "connect".
Definition DISCONNECT := "disconnect".
Definition CONNECT_ERROR := "connect_error".
Definition RECONNECT := "reconnect".
Definition RECONNECT_ATTEMPT := "reconnect_attempt".
Definition RECONNECT_ERROR := "reconnect_error".
Definition RECONNECT_FAILED := "reconnect_failed".
Definition PING := "ping".
Definition PONG := "pong".
End SOCKET_EVENTS.

(** The [config] object passed to [io]: the retry budget is handed to the
    transport and read nowhere else in the hook. *)
Module config.
Definition reconnectionAttempts : Z := 10.
Definition reconnectionDelay : Z := 1000.
Definition reconnectionDelayMax : Z := 10000.
Definition timeout : Z := 30000.
End config.

(** ** Observable actions, in the order they happen *)
Inductive Obs :=
| OLog (msg : string)
| ONotify (level msg : string)
| OTrack (name : string)
| OCallback (cb : nat) (arg : CbArg)
| OHandler (h : nat) (arg : JsVal)
| OSockNew (s : nat)
| OSockOpen (s : nat)
| OSockClose (s : nat)
| OSend (s : nat) (event : string) (data : JsObj) (ack : option nat).

(** ** Transport handles *)

(** Listeners attached to a socket.  The seven lifecycle listeners are
    closures built inside a call of [connect]; they see the scope [c] of the
    [connect] closure that built them. *)
Inductive Listener :=
| LConnect (c : nat)
| LDisconnect (c : nat)
| LConnectError (c : nat)
| LReconnect (c : nat)
| LReconnectAttempt (c : nat)
| LReconnectFailed (c : nat)
| LPong (c : nat)
| LFn (f : Fn).

Record Socket := mkSocket {
  sk_connected : bool;                      (* socket.connected *)
  sk_closed : bool;                         (* socket.disconnect() was called *)
  sk_listeners : list (string * Listener);  (* in registration order *)
  sk_acks : list (option nat)               (* acknowledgment closures of emit, by ack number *)
}.

(** ** Component state *)

(** A [Map] from event name to a [Set] of handlers.  [new Map(prev)] copies
    the entries but shares the [Set] objects, so a set is a reference into
    the heap [sets] of the world.  [m_id] is the identity of the map object
    (what a dependency array compares). *)
Record MapObj := mkMap {
  m_id : nat;
  m_entries : list (string * nat)
}.

Record ArrObj := mkArr {
  a_id : nat;
  a_items : list PendingEmit
}.

Record RState := mkState {
  isConnected : bool;
  isConnecting : bool;
  reconnectAttempts : Z;
  connectionError : option string;
  lastActivity : option Z;
  eventListeners : MapObj;
  pendingEmits : ArrObj
}.

(** What the surrounding hooks return: [useAuth], [useNotification],
    [usePerformance].  [user] is the identity of the user object. *)
Record Props := mkProps {
  user : option nat;
  token : option string;
  refreshToken : option string;
  showNotification : nat;
  trackEvent : nat
}.

(** One render: the constants in scope, and for each memoised callback the
    render whose closure [useCallback] returned. *)
Record Scope := mkScope {
  sc_props : Props;
  sc_state : RState;
  sc_createSocket : nat;
  sc_connect : nat;
  sc_processPendingEmits : nat;
  sc_emit : nat
}.

Inductive Timer :=
| TReconnect (c : nat)   (* setTimeout(() => connect(), 5000) of the disconnect listener *)
| TPing                  (* the interval of startPingInterval *)
| THealth (k : nat).     (* the interval of the connection-health effect of render k *)

(** The environment's answers. *)
Record Env := mkEnv {
  randomUUID : nat -> string;          (* n-th result of crypto.randomUUID() *)
  send_throws : string -> option string (* socket.emit(event, ...) throws this message *)
}.

Record World := mkWorld {
  env : Env;
  now : Z;                           (* Date.now() during the current event *)
  props : Props;
  socketRef : option nat;
  reconnectTimeoutRef : option nat;
  pingIntervalRef : option nat;
  state : RState;                    (* component state with every queued update applied *)
  scopes : list Scope;               (* committed renders, oldest first *)
  sockets : list Socket;             (* every handle ever created; index = identity *)
  sets : list (list Fn);             (* heap of Set objects, insertion ordered *)
  timers : list (option Timer);      (* index = timer id; None once cleared *)
  visListener : option nat;          (* render whose handleVisibilityChange is on the document *)
  healthTimer : option nat;          (* interval owned by the pending cleanup of the health effect *)
  next_id : nat;                     (* next object identity *)
  uuid_calls : nat;
  trace : list Obs
}.

(** ** Field updates *)

Definition set_now (v : Z) (w : World) : World :=
  mkWorld (env w) v (props w) (socketRef w) (reconnectTimeoutRef w) (pingIntervalRef w) (state w) (scopes w) (sockets w) (sets w) (timers w) (visListener w) (healthTimer w) (next_id w) (uuid_calls w) (trace w).

Definition set_props (v : Props) (w : World) : World :=
  mkWorld (env w) (now w) v (socketRef w) (reconnectTimeoutRef w) (pingIntervalRef w) (state w) (scopes w) (sockets w) (sets w) (timers w) (visListener w) (healthTimer w) (next_id w) (uuid_calls w) (trace w).

Definition set_socketRef (v : option nat) (w : World) : World :=
  mkWorld (env w) (now w) (props w) v (reconnectTimeoutRef w) (pingIntervalRef w) (state w) (scopes w) (sockets w) (sets w) (timers w) (visListener w) (healthTimer w) (next_id w) (uuid_calls w) (trace w).

Definition set_reconnectTimeoutRef (v : option nat) (w : World) : World :=
  mkWorld (env w) (now w) (props w) (socketRef w) v (pingIntervalRef w) (state w) (scopes w) (sockets w) (sets w) (timers w) (visListener w) (healthTimer w) (next_id w) (uuid_calls w) (trace w).

Definition set_pingIntervalRef (v : option nat) (w : World) : World :=
  mkWorld (env w) (now w) (props w) (socketRef w) (reconnectTimeoutRef w) v (state w) (scopes w) (sockets w) (sets w) (timers w) (visListener w) (healthTimer w) (next_id w) (uuid_calls w) (trace w).

Definition set_state (v : RState) (w : World) : World :=
  mkWorld (env w) (now w) (props w) (socketRef w) (reconnectTimeoutRef w) (pingIntervalRef w) v (scopes w) (sockets w) (sets w) (timers w) (visListener w) (healthTimer w) (next_id w) (uuid_calls w) (trace w).

Definition set_scopes (v : list Scope) (w : World) : World :=
  mkWorld (env w) (now w) (props w) (socketRef w) (reconnectTimeoutRef w) (pingIntervalRef w) (state w) v (sockets w) (sets w) (timers w) (visListener w) (healthTimer w) (next_id w) (uuid_calls w) (trace w).

Definition set_sockets (v : list Socket) (w : World) : World :=
  mkWorld (env w) (now w) (props w) (socketRef w) (reconnectTimeoutRef w) (pingIntervalRef w) (state w) (scopes w) v (sets w) (timers w) (visListener w) (healthTimer w) (next_id w) (uuid_calls w) (trace w).

Definition set_sets (v : list (list Fn)) (w : World) : World :=
  mkWorld (env w) (now w) (props w) (socketRef w) (reconnectTimeoutRef w) (pingIntervalRef w) (state w) (scopes w) (sockets w) v (timers w) (visListener w) (healthTimer w) (next_id w) (uuid_calls w) (trace w).

Definition set_timers (v : list (option Timer)) (w : World) : World :=
  mkWorld (env w) (now w) (props w) (socketRef w) (reconnectTimeoutRef w) (pingIntervalRef w) (state w) (scopes w) (sockets w) (sets w) v (visListener w) (healthTimer w) (next_id w) (uuid_calls w) (trace w).

Definition set_visListener (v : option nat) (w : World) : World :=
  mkWorld (env w) (now w) (props w) (socketRef w) (reconnectTimeoutRef w) (pingIntervalRef w) (state w) (scopes w) (sockets w) (sets w) (timers w) v (healthTimer w) (next_id w) (uuid_calls w) (trace w).

Definition set_healthTimer (v : option nat) (w : World) : World :=
  mkWorld (env w) (now w) (props w) (socketRef w) (reconnectTimeoutRef w) (pingIntervalRef w) (state w) (scopes w) (sockets w) (sets w) (timers w) (visListener w) v (next_id w) (uuid_calls w) (trace w).

Definition set_next_id (v : nat) (w : World) : World :=
  mkWorld (env w) (now w) (props w) (socketRef w) (reconnectTimeoutRef w) (pingIntervalRef w) (state w) (scopes w) (sockets w) (sets w) (timers w) (visListener w) (healthTimer w) v (uuid_calls w) (trace w).

Definition set_uuid_calls (v : nat) (w : World) : World :=
  mkWorld (env w) (now w) (props w) (socketRef w) (reconnectTimeoutRef w) (pingIntervalRef w) (state w) (scopes w) (sockets w) (sets w) (timers w) (visListener w) (healthTimer w) (next_id w) v (trace w).

Definition set_trace (v : list Obs) (w : World) : World :=
  mkWorld (env w) (now w) (props w) (socketRef w) (reconnectTimeoutRef w) (pingIntervalRef w) (state w) (scopes w) (sockets w) (sets w) (timers w) (visListener w) (healthTimer w) (next_id w) (uuid_calls w) v.

(** The state setters of [useState]: the update is applied to the pending
    state; no scope changes until the next render. *)
Definition setIsConnected (v : bool) (w : World) : World :=
  set_state (mkState v (isConnecting (state w)) (reconnectAttempts (state w)) (connectionError (state w)) (lastActivity (state w)) (eventListeners (state w)) (pendingEmits (state w))) w.

Definition setIsConnecting (v : bool) (w : World) : World :=
  set_state (mkState (isConnected (state w)) v (reconnectAttempts (state w)) (connectionError (state w)) (lastActivity (state w)) (eventListeners (state w)) (pendingEmits (state w))) w.

Definition setReconnectAttempts (v : Z) (w : World) : World :=
  set_state (mkState (isConnected (state w)) (isConnecting (state w)) v (connectionError (state w)) (lastActivity (state w)) (eventListeners (state w)) (pendingEmits (state w))) w.

Definition setConnectionError (v : option string) (w : World) : World :=
  set_state (mkState (isConnected (state w)) (isConnecting (state w)) (reconnectAttempts (state w)) v (lastActivity (state w)) (eventListeners (state w)) (pendingEmits (state w))) w.

Definition setLastActivity (v : option Z) (w : World) : World :=
  set_state (mkState (isConnected (state w)) (isConnecting (state w)) (reconnectAttempts (state w)) (connectionError (state w)) v (eventListeners (state w)) (pendingEmits (state w))) w.

Definition setEventListeners (v : MapObj) (w : World) : World :=
  set_state (mkState (isConnected (state w)) (isConnecting (state w)) (reconnectAttempts (state w)) (connectionError (state w)) (lastActivity (state w)) v (pendingEmits (state w))) w.

Definition setPendingEmits (v : ArrObj) (w : World) : World :=
  set_state (mkState (isConnected (state w)) (isConnecting (state w)) (reconnectAttempts (state w)) (connectionError (state w)) (lastActivity (state w)) (eventListeners (state w)) v) w.

(** ** Small helpers *)

Definition emitObs (o : Obs) (w : World) : World := set_trace (trace w ++ [o]) w.

Definition console_log (msg : string) (w : World) : World := emitObs (OLog msg) w.

Definition notify (level msg : string) (w : World) : World := emitObs (ONotify level msg) w.

Definition track (name : string) (w : World) : World := emitObs (OTrack name) w.

(** Allocation of an object identity. *)
Definition fresh (w : World) : nat * World := (next_id w, set_next_id (S (next_id w)) w).

(** JS truthiness of the values the guards test. *)
Definition truthy_user (u : option nat) : bool := bool_decide (is_Some u).

Definition truthy_string (t : option string) : bool :=
  match t with
  | Some s => negb (String.eqb s "")
  | None => false
  end.

Definition truthy_number (t : option Z) : bool :=
  match t with
  | Some z => negb (Z.eqb z 0)
  | None => false
  end.

Definition dummy_state : RState :=
  mkState false false 0 None None (mkMap 0 []) (mkArr 0 []).

Definition dummy_props : Props := mkProps None None None 0 0.

Definition dummy_scope : Scope := mkScope dummy_props dummy_state 0 0 0 0.

(** The constants in scope for a closure created in render [k]. *)
Definition scope_at (w : World) (k : nat) : Scope := default dummy_scope (scopes w !! k).

Definition dummy_socket : Socket := mkSocket false true [] [].

Definition socket_at (w : World) (s : nat) : Socket := default dummy_socket (sockets w !! s).

Definition update_socket (s : nat) (f : Socket -> Socket) (w : World) : World :=
  set_sockets (alter f s (sockets w)) w.

(** [socketRef.current?.connected] *)
Definition ref_connected (w : World) : bool :=
  match socketRef w with
  | Some s => sk_connected (socket_at w s)
  | None => false
  end.

(** Invoking a handler function with the delivered argument. *)
Fixpoint call_fn (f : Fn) (arg : JsVal) (w : World) : World :=
  match f with
  | FUser h => emitObs (OHandler h arg) w
  | FLogged _ event handler =>
      call_fn handler arg (console_log ("WebSocket event received: " +:+ event) w)
  end.

(** ** Numbers

    A JS number is an IEEE 754 double.  The hook holds only integers in
    one (a counter, timestamps), so a number is the integer it equals, and
    [JNum z] stands for the double nearest to [z].  Magnitudes stay below
    2^1024, where a double ends. *)

(** The double nearest to an integer: exact below 2^53, beyond that the 53
    leading bits, rounded to nearest with ties to even. *)
Definition to_double (z : Z) : Z :=
  let a := Z.abs z in
  if (a <? 2 ^ 53)%Z then z
  else
    let e := Z.log2 a - 52 in
    let q := Z.shiftr a e in
    let r := Z.land a (Z.ones e) in
    let half := Z.shiftl 1 (e - 1) in
    let q' := if (r <? half)%Z then q
              else if (half <? r)%Z then q + 1
              else if Z.even q then q else q + 1 in
    Z.sgn z * Z.shiftl q' e.

(** [a + b] on numbers. *)
Definition js_add (a b : Z) : Z := to_double (a + b).

Definition decimal (z : Z) : string := NilZero.string_of_int (Z.to_int z).

Fixpoint digits_from (fuel : nat) (p a : Z) : Z :=
  match fuel with
  | O => 0
  | S f => if (a <? p)%Z then 0 else 1 + digits_from f (p * 10) a
  end.

(** Number of decimal digits of a positive integer. *)
Definition digit_count (a : Z) : Z := digits_from (Z.to_nat (Z.log2 a) + 1) 1 a.

(** The [k]-digit integer [s] with [s * 10^(d-k)] a decimal of the double
    [a] (of [d] digits), if there is one: the candidate closest to [a], the
    even one on a tie. *)
Definition pick (a d k : Z) : option Z :=
  let p := 10 ^ (d - k) in
  let lo := a / p in
  let hi := lo + 1 in
  let ok_lo := (10 ^ (k - 1) <=? lo)%Z && (to_double (lo * p) =? a)%Z in
  let ok_hi := (hi <? 10 ^ k)%Z && (to_double (hi * p) =? a)%Z in
  match ok_lo, ok_hi with
  | true, false => Some lo
  | false, true => Some hi
  | true, true =>
      let dl := a - lo * p in
      let dh := hi * p - a in
      if (dl <? dh)%Z then Some lo
      else if (dh <? dl)%Z then Some hi
      else if Z.even lo then Some lo else Some hi
  | false, false => None
  end.

(** The fewest digits that still denote [a]. *)
Fixpoint shortest (fuel : nat) (a d k : Z) : Z * Z :=
  match fuel with
  | O => (a, d)
  | S f => if (d <? k)%Z then (a, d)
           else match pick a d k with
                | Some s => (s, k)
                | None => shortest f a d (k + 1)
                end
  end.

Definition zeros (n : Z) : string := string_of_list_ascii (repeat ("0"%char : ascii) (Z.to_nat n)).

(** [Number::toString] of a positive integer-valued double [a]: below
    2^53 its decimal digits; otherwise the shortest digits [s] (there are
    [k] of them) and exponent [n] with [s * 10^(n-k)] denoting [a], written
    out in full up to 21 digits and with an exponent beyond. *)
Definition magnitude_text (a : Z) : string :=
  if (a <? 2 ^ 53)%Z then decimal a
  else
    let d := digit_count a in
    let '(s, k, n) := if (to_double (10 ^ d) =? a)%Z then (1, 1, d + 1)
                      else let '(s, k) := shortest 17 a d 1 in (s, k, d) in
    if (n <=? 21)%Z then decimal s ++ zeros (n - k)
    else
      match decimal s with
      | String c rest =>
          String c (if (k =? 1)%Z then "" else "." ++ rest) ++ "e+" ++ decimal (n - 1)
      | EmptyString => ""
      end.

(** What a template literal puts for a number. *)
Definition number_text (z : Z) : string :=
  if (z <? 0)%Z then "-" ++ magnitude_text (- z) else magnitude_text z.

(** ** Timers *)

Definition set_timer (t : Timer) (w : World) : nat * World :=
  (length (timers w), set_timers (timers w ++ [Some t]) w).

Definition clear_timer (id : nat) (w : World) : World :=
  set_timers (<[id := None]> (timers w)) w.

(** ** The transport (socket.io-client), as the hook uses it

    [io(url, opts)] with [autoConnect: false] yields a closed-over handle
    that is not yet open; [socket.on] appends a listener; [socket.off]
    removes the first listener of that event that is the given function;
    [socket.disconnect()] closes the handle and, when it was connected,
    synchronously fires its "disconnect" listeners with the reason
    "io client disconnect"; [socket.emit] may throw. *)

Inductive Completion :=
| Returned
| Thrown (msg : string).

Definition listeners_of (event : string) (sk : Socket) : list Listener :=
  map snd (filter (fun p => String.eqb (fst p) event = true) (sk_listeners sk)).

Definition sock_new (w : World) : nat * World :=
  let s := length (sockets w) in
  (s, emitObs (OSockNew s) (set_sockets (sockets w ++ [mkSocket false false [] []]) w)).

Definition sock_on (s : nat) (event : string) (l : Listener) (w : World) : World :=
  update_socket s (fun sk =>
    mkSocket (sk_connected sk) (sk_closed sk) (sk_listeners sk ++ [(event, l)]) (sk_acks sk)) w.

Definition is_fn (event : string) (f : Fn) (p : string * Listener) : bool :=
  String.eqb (fst p) event &&
  match snd p with
  | LFn g => fn_same g f
  | _ => false
  end.

Fixpoint remove_first {A} (test : A -> bool) (l : list A) : list A :=
  match l with
  | [] => []
  | x :: r => if test x then r else x :: remove_first test r
  end.

Definition sock_off (s : nat) (event : string) (f : Fn) (w : World) : World :=
  update_socket s (fun sk =>
    mkSocket (sk_connected sk) (sk_closed sk)
             (remove_first (is_fn event f) (sk_listeners sk)) (sk_acks sk)) w.

Definition sock_removeAllListeners (s : nat) (event : string) (w : World) : World :=
  update_socket s (fun sk =>
    mkSocket (sk_connected sk) (sk_closed sk)
             (filter (fun p => String.eqb (fst p) event = false) (sk_listeners sk))
             (sk_acks sk)) w.

Definition sock_connect (s : nat) (w : World) : World := emitObs (OSockOpen s) w.

Definition sock_emit (s : nat) (event : string) (data : JsObj) (ack : option (option nat))
    (w : World) : World * Completion :=
  match send_throws (env w) event with
  | Some msg => (w, Thrown msg)
  | None =>
      match ack with
      | Some callback =>
          let id := length (sk_acks (socket_at w s)) in
          (emitObs (OSend s event data (Some id))
             (update_socket s (fun sk =>
                mkSocket (sk_connected sk) (sk_closed sk) (sk_listeners sk)
                         (sk_acks sk ++ [callback])) w),
           Returned)
      | None => (emitObs (OSend s event data None) w, Returned)
      end
  end.

(** ** The hook's functions *)

(** [reason === text] *)
Definition is_reason (text : string) (reason : JsVal) : bool :=
  match reason with
  | JStr r => String.eqb r text
  | _ => false
  end.

(** The "disconnect" listener built by [connect] (scope [c]). *)
Definition on_disconnect (c : nat) (reason : JsVal) (w : World) : World :=
  let w := console_log "WebSocket disconnected:" w in
  let w := setIsConnected false w in
  let w := setIsConnecting false w in
  let w := setLastActivity None w in
  if is_reason "io server disconnect" reason
  then
    let w := notify "warning" "Disconnected from server" w in
    let '(id, w) := set_timer (TReconnect (sc_connect (scope_at w c))) w in
    set_reconnectTimeoutRef (Some id) w
  else w.

(** What [socket.disconnect()] runs synchronously on a connected handle.
    Only a "disconnect" lifecycle listener or a consumer function is ever
    registered under that name. *)
Definition fire_close (l : Listener) (w : World) : World :=
  match l with
  | LDisconnect c => on_disconnect c (JStr "io client disconnect") w
  | LFn f => call_fn f (JStr "io client disconnect") w
  | _ => w
  end.

Definition sock_disconnect (s : nat) (w : World) : World :=
  let sk := socket_at w s in
  let w := emitObs (OSockClose s) w in
  let w := update_socket s (fun sk =>
             mkSocket false true (sk_listeners sk) (sk_acks sk)) w in
  if sk_connected sk
  then fold_left (fun w l => fire_close l w) (listeners_of SOCKET_EVENTS.DISCONNECT sk) w
  else w.

(** [createSocket], closure of render [cs]. *)
Definition createSocket (cs : nat) (w : World) : option nat * World :=
  let sc := scope_at w cs in
  if negb (truthy_user (user (sc_props sc))) || negb (truthy_string (token (sc_props sc)))
  then (None, w)
  else let '(s, w) := sock_new w in (Some s, w).

Definition startPingInterval (w : World) : World :=
  let w := match pingIntervalRef w with
           | Some t => clear_timer t w
           | None => w
           end in
  let '(id, w) := set_timer TPing w in
  set_pingIntervalRef (Some id) w.

(** [eventListeners.forEach((handlers, event) => handlers.forEach(handler =>
    socket.on(event, handler)))]: the sets are read from the heap as they
    are now. *)
Definition register_listeners (s : nat) (m : MapObj) (w : World) : World :=
  fold_left (fun w entry =>
               fold_left (fun w f => sock_on s (fst entry) (LFn f) w)
                         (default [] (sets w !! snd entry)) w)
            (m_entries m) w.

(** The [catch] block of [connect]. *)
Definition connect_catch (message : string) (w : World) : World :=
  let w := console_log "Failed to connect to WebSocket:" w in
  let w := setIsConnecting false w in
  let w := setConnectionError (Some message) w in
  notify "error" "Failed to establish connection" w.

(** [connect], closure of render [c].  It is an async function without an
    await: the body runs to completion at the call and nothing is thrown
    to the caller. *)
Definition connect (c : nat) (w : World) : World :=
  let sc := scope_at w c in
  if negb (truthy_user (user (sc_props sc))) || negb (truthy_string (token (sc_props sc)))
  then console_log "No user or token, skipping WebSocket connection" w
  else if ref_connected w
  then console_log "Socket already connected" w
  else if isConnecting (sc_state sc)
  then console_log "Already connecting..." w
  else
    let w := setIsConnecting true w in
    let w := setConnectionError None w in
    let w := match socketRef w with
             | Some s => set_socketRef None (sock_disconnect s w)
             | None => w
             end in
    match createSocket (sc_createSocket sc) w with
    | (None, w) => connect_catch "Failed to create socket" w
    | (Some s, w) =>
        let w := set_socketRef (Some s) w in
        let w := sock_on s SOCKET_EVENTS.CONNECT (LConnect c) w in
        let w := sock_on s SOCKET_EVENTS.DISCONNECT (LDisconnect c) w in
        let w := sock_on s SOCKET_EVENTS.CONNECT_ERROR (LConnectError c) w in
        let w := sock_on s SOCKET_EVENTS.RECONNECT (LReconnect c) w in
        let w := sock_on s SOCKET_EVENTS.RECONNECT_ATTEMPT (LReconnectAttempt c) w in
        let w := sock_on s SOCKET_EVENTS.RECONNECT_FAILED (LReconnectFailed c) w in
        let w := sock_on s SOCKET_EVENTS.PONG (LPong c) w in
        let w := register_listeners s (eventListeners (sc_state sc)) w in
        let w := sock_connect s w in
        startPingInterval w
    end.

Definition disconnect (w : World) : World :=
  let w := match socketRef w with
           | Some s => set_socketRef None (sock_disconnect s w)
           | None => w
           end in
  let w := setIsConnected false w in
  let w := setIsConnecting false w in
  let w := setConnectionError None w in
  let w := match pingIntervalRef w with
           | Some t => set_pingIntervalRef None (clear_timer t w)
           | None => w
           end in
  let w := match reconnectTimeoutRef w with
           | Some t => set_reconnectTimeoutRef None (clear_timer t w)
           | None => w
           end in
  console_log "WebSocket disconnected" w.

(** The result object handed to a callback that was queued. *)
Definition queued_result : JsObj :=
  <["queued" := JBool true]> (<["error" := JStr "Socket not connected"]> ∅).

Definition error_result (message : string) : JsObj :=
  <["error" := JStr message]> ∅.

(** [{ ...data, timestamp: Date.now(), requestId: crypto.randomUUID() }] *)
Definition emitData (data : JsObj) (timestamp : Z) (requestId : string) : JsObj :=
  <["requestId" := JStr requestId]> (<["timestamp" := JNum timestamp]> data).

Definition call_callback (callback : option nat) (arg : CbArg) (w : World) : World :=
  match callback with
  | Some cb => emitObs (OCallback cb arg) w
  | None => w
  end.

(** [emit], closure of render [e]. *)
Definition emit (e : nat) (event : string) (data : JsObj) (callback : option nat)
    (w : World) : World * Completion :=
  let sc := scope_at w e in
  match socketRef w with
  | Some s =>
      if isConnected (sc_state sc) then
        (* try *)
        let requestId := randomUUID (env w) (uuid_calls w) in
        let w := set_uuid_calls (S (uuid_calls w)) w in
        match sock_emit s event (emitData data (now w) requestId) (Some callback) w with
        | (w, Returned) => (w, Returned)
        | (w, Thrown message) =>
            (* catch *)
            let w := console_log "Emit error:" w in
            (call_callback callback (ArgObj (error_result message)) w, Returned)
        end
      else
        let '(id, w) := fresh w in
        let w := setPendingEmits
                   (mkArr id (a_items (pendingEmits (state w)) ++ [mkPending event data callback])) w in
        let w := call_callback callback (ArgObj queued_result) w in
        let w := if isConnecting (sc_state sc) then w else connect (sc_connect sc) w in
        (w, Returned)
  | None =>
      let '(id, w) := fresh w in
      let w := setPendingEmits
                 (mkArr id (a_items (pendingEmits (state w)) ++ [mkPending event data callback])) w in
      let w := call_callback callback (ArgObj queued_result) w in
      let w := if isConnecting (sc_state sc) then w else connect (sc_connect sc) w in
      (w, Returned)
  end.

(** The acknowledgment closure [emit] hands to the transport. *)
Definition on_ack (callback : option nat) (response : JsVal) (w : World) : World :=
  let w := setLastActivity (Some (now w)) w in
  call_callback callback (ArgResponse response) w.

(** [forEach] over the captured array: an exception of one call would end
    the loop and propagate. *)
Fixpoint emit_each (e : nat) (items : list PendingEmit) (w : World) : World * Completion :=
  match items with
  | [] => (w, Returned)
  | item :: rest =>
      match emit e (pe_event item) (pe_data item) (pe_callback item) w with
      | (w, Returned) => emit_each e rest w
      | (w, Thrown message) => (w, Thrown message)
      end
  end.

(** [processPendingEmits], closure of render [p]: the array and [emit] are
    the constants of that render. *)
Definition processPendingEmits (p : nat) (w : World) : World * Completion :=
  let sc := scope_at w p in
  if (0 <? length (a_items (pendingEmits (sc_state sc))))%nat && ref_connected w then
    match emit_each (sc_emit sc) (a_items (pendingEmits (sc_state sc))) w with
    | (w, Returned) =>
        let '(id, w) := fresh w in
        (setPendingEmits (mkArr id []) w, Returned)
    | (w, Thrown message) => (w, Thrown message)
    end
  else (w, Returned).

(** *** The subscription registry *)

Definition map_get (event : string) (entries : list (string * nat)) : option nat :=
  snd <$> List.find (fun p => String.eqb (fst p) event) entries.

Definition map_delete (event : string) (entries : list (string * nat)) : list (string * nat) :=
  filter (fun p => String.eqb (fst p) event = false) entries.

Definition set_add (f : Fn) (l : list Fn) : list Fn :=
  if existsb (fn_same f) l then l else l ++ [f].

Definition set_delete (f : Fn) (l : list Fn) : list Fn :=
  filter (fun g => fn_same g f = false) l.

(** [on(event, handler)]: returns the wrapper it registered; the returned
    unsubscribe closure is [() => off(event, handlerWithLogging)]. *)
Definition on (event : string) (handler : Fn) (w : World) : Fn * World :=
  let '(id, w) := fresh w in
  let handlerWithLogging := FLogged id event handler in
  (* setEventListeners(prev => ...) *)
  let prev := eventListeners (state w) in
  let '(mid, w) := fresh w in
  let '(entries, w) :=
    match map_get event (m_entries prev) with
    | Some _ => (m_entries prev, w)
    | None => (m_entries prev ++ [(event, length (sets w))], set_sets (sets w ++ [[]]) w)
    end in
  let w := match map_get event entries with
           | Some r => set_sets (alter (set_add handlerWithLogging) r (sets w)) w
           | None => w
           end in
  let w := setEventListeners (mkMap mid entries) w in
  let w := match socketRef w with
           | Some s => sock_on s event (LFn handlerWithLogging) w
           | None => w
           end in
  (handlerWithLogging, w).

Definition off (event : string) (handler : Fn) (w : World) : World :=
  let prev := eventListeners (state w) in
  let '(mid, w) := fresh w in
  let '(entries, w) :=
    match map_get event (m_entries prev) with
    | Some r =>
        let w := set_sets (alter (set_delete handler) r (sets w)) w in
        if (length (default [] (sets w !! r)) =? 0)%nat
        then (map_delete event (m_entries prev), w)
        else (m_entries prev, w)
    | None => (m_entries prev, w)
    end in
  let w := setEventListeners (mkMap mid entries) w in
  match socketRef w with
  | Some s => sock_off s event handler w
  | None => w
  end.

Definition removeAllListeners (event : string) (w : World) : World :=
  let prev := eventListeners (state w) in
  let '(mid, w) := fresh w in
  let w := setEventListeners (mkMap mid (map_delete event (m_entries prev))) w in
  match socketRef w with
  | Some s => sock_removeAllListeners s event w
  | None => w
  end.

(** *** Listeners built by [connect] (scope [c]) *)

Definition on_connect (c : nat) (w : World) : World :=
  let w := console_log "WebSocket connected successfully" w in
  let w := setIsConnected true w in
  let w := setIsConnecting false w in
  let w := setReconnectAttempts 0 w in
  let w := setConnectionError None w in
  let w := setLastActivity (Some (now w)) w in
  let w := track "websocket_connected" w in
  let w := notify "success" "Connected to Changex Neurix servers" w in
  fst (processPendingEmits (sc_processPendingEmits (scope_at w c)) w).

Definition error_message (error : JsVal) : option string :=
  match error with
  | JStr m => Some m
  | _ => None
  end.

Definition on_connect_error (c : nat) (error : JsVal) (w : World) : World :=
  let w := console_log "WebSocket connection error:" w in
  let w := setConnectionError (error_message error) w in
  let w := setIsConnecting false w in
  let attempt := js_add (reconnectAttempts (sc_state (scope_at w c))) 1 in
  let w := setReconnectAttempts attempt w in
  if (attempt <=? 3)%Z
  then notify "warning"
         ("Connection attempt " ++ number_text attempt ++ " failed. Retrying...") w
  else notify "error" "Connection failed. Please check your network." w.

(** The attempt number the transport passes is a number. *)
Definition attempt_number (arg : JsVal) : Z :=
  match arg with
  | JNum n => to_double n
  | _ => 0
  end.

Definition on_reconnect (c : nat) (attemptNumber : JsVal) (w : World) : World :=
  let w := console_log ("Reconnected after " ++ number_text (attempt_number attemptNumber)
                        ++ " attempts") w in
  let w := setIsConnected true w in
  let w := setReconnectAttempts 0 w in
  let w := setConnectionError None w in
  let w := notify "success" "Reconnected successfully" w in
  track "websocket_reconnected" w.

Definition on_reconnect_attempt (c : nat) (attemptNumber : JsVal) (w : World) : World :=
  let w := console_log ("Reconnection attempt: "
                        ++ number_text (attempt_number attemptNumber)) w in
  setReconnectAttempts (attempt_number attemptNumber) w.

Definition on_reconnect_failed (c : nat) (w : World) : World :=
  let w := console_log "Reconnection failed" w in
  let w := notify "error" "Failed to reconnect. Please refresh the page." w in
  track "websocket_reconnect_failed" w.

Definition on_pong (c : nat) (w : World) : World := setLastActivity (Some (now w)) w.

Definition run_listener (l : Listener) (arg : JsVal) (w : World) : World :=
  match l with
  | LConnect c => on_connect c w
  | LDisconnect c => on_disconnect c arg w
  | LConnectError c => on_connect_error c arg w
  | LReconnect c => on_reconnect c arg w
  | LReconnectAttempt c => on_reconnect_attempt c arg w
  | LReconnectFailed c => on_reconnect_failed c w
  | LPong c => on_pong c w
  | LFn f => call_fn f arg w
  end.

(** *** Closures of the effects *)

(** [handleVisibilityChange] of render [k]; [visible] is
    [document.visibilityState === 'visible']. *)
Definition handleVisibilityChange (k : nat) (visible : bool) (w : World) : World :=
  let sc := scope_at w k in
  if visible && truthy_user (user (sc_props sc))
     && negb (isConnected (sc_state sc)) && negb (isConnecting (sc_state sc))
  then connect (sc_connect sc) (console_log "Reconnecting due to visibility change" w)
  else w.

(** The interval callback of the connection-health effect of render [k].
    [now - lastActivity] with a null [lastActivity] is [now - 0]. *)
Definition health_check (k : nat) (w : World) : World :=
  let sc := scope_at w k in
  let timeSinceLastActivity := now w - default 0 (lastActivity (sc_state sc)) in
  if (60000 <? timeSinceLastActivity)%Z
  then connect (sc_connect sc)
         (disconnect (console_log "No activity for 60 seconds, reconnecting..." w))
  else w.

(** The interval callback of [startPingInterval]; an exception of the
    transport ends the callback. *)
Definition ping_tick (w : World) : World :=
  match socketRef w with
  | Some s =>
      if sk_connected (socket_at w s)
      then fst (sock_emit s SOCKET_EVENTS.PING (<["timestamp" := JNum (now w)]> ∅) None w)
      else w
  | None => w
  end.

(** ** Rendering

    One evaluation of the hook body followed by its effects.  The
    application mounts its tree with [createRoot], so the state updates made
    while one event is handled are batched and one re-render follows the
    event.  A dependency array is compared with the one of the previous
    render; on the first render every callback is created and every effect
    runs.  When effects are re-run, the cleanups of all of them come first,
    then the bodies, in source order. *)

Definition same {A} `{EqDecision A} (a b : A) : bool := bool_decide (a = b).

Definition memo (k : nat) (prev : option Scope) (deps_same : Scope -> bool)
    (get : Scope -> nat) : nat :=
  match prev with
  | Some ps => if deps_same ps then get ps else k
  | None => k
  end.

(** The hook body: the constants and memoised callbacks of render
    [length (scopes w)]. *)
Definition render_scope (w : World) : Scope :=
  let k := length (scopes w) in
  let prev := last (scopes w) in
  let p := props w in
  let st := state w in
  let cs := memo k prev (fun ps =>
              same (user (sc_props ps)) (user p) && same (token (sc_props ps)) (token p)
              && same (refreshToken (sc_props ps)) (refreshToken p)) sc_createSocket in
  let cn := memo k prev (fun ps =>
              same (user (sc_props ps)) (user p) && same (token (sc_props ps)) (token p)
              && same (refreshToken (sc_props ps)) (refreshToken p)
              && same (sc_createSocket ps) cs
              && same (m_id (eventListeners (sc_state ps))) (m_id (eventListeners st))
              && same (reconnectAttempts (sc_state ps)) (reconnectAttempts st)
              && same (showNotification (sc_props ps)) (showNotification p)
              && same (trackEvent (sc_props ps)) (trackEvent p)) sc_connect in
  let pp := memo k prev (fun ps =>
              same (a_id (pendingEmits (sc_state ps))) (a_id (pendingEmits st)))
              sc_processPendingEmits in
  let em := memo k prev (fun ps =>
              same (isConnected (sc_state ps)) (isConnected st)
              && same (isConnecting (sc_state ps)) (isConnecting st)
              && same (sc_connect ps) cn) sc_emit in
  mkScope p st cs cn pp em.

(** Whether the dependency array of an effect differs from the previous
    render's: [user, token, connect, disconnect], then
    [user, isConnected, isConnecting, connect], then
    [isConnected, lastActivity, connect, disconnect]. *)
Definition auto_changed (prev : option Scope) (sc : Scope) : bool :=
  match prev with
  | Some ps => negb (same (user (sc_props ps)) (user (sc_props sc))
                     && same (token (sc_props ps)) (token (sc_props sc))
                     && same (sc_connect ps) (sc_connect sc))
  | None => true
  end.

Definition visibility_changed (prev : option Scope) (sc : Scope) : bool :=
  match prev with
  | Some ps => negb (same (user (sc_props ps)) (user (sc_props sc))
                     && same (isConnected (sc_state ps)) (isConnected (sc_state sc))
                     && same (isConnecting (sc_state ps)) (isConnecting (sc_state sc))
                     && same (sc_connect ps) (sc_connect sc))
  | None => true
  end.

Definition health_changed (prev : option Scope) (sc : Scope) : bool :=
  match prev with
  | Some ps => negb (same (isConnected (sc_state ps)) (isConnected (sc_state sc))
                     && same (lastActivity (sc_state ps)) (lastActivity (sc_state sc))
                     && same (sc_connect ps) (sc_connect sc))
  | None => true
  end.

(** Cleanups of the effects that re-run, in source order. *)
Definition run_cleanups (prev : option Scope) (sc : Scope) (w : World) : World :=
  let w := if auto_changed prev sc && bool_decide (is_Some prev) then disconnect w else w in
  let w := if visibility_changed prev sc then set_visListener None w else w in
  if health_changed prev sc
  then match healthTimer w with
       | Some t => set_healthTimer None (clear_timer t w)
       | None => w
       end
  else w.

(** Bodies of the effects that re-run, for render [k] with scope [sc]. *)
Definition run_effects (prev : option Scope) (k : nat) (sc : Scope) (w : World) : World :=
  let w := if auto_changed prev sc
           then if truthy_user (user (sc_props sc)) && truthy_string (token (sc_props sc))
                then connect (sc_connect sc) w
                else disconnect w
           else w in
  let w := if visibility_changed prev sc then set_visListener (Some k) w else w in
  if health_changed prev sc
  then if negb (isConnected (sc_state sc)) || negb (truthy_number (lastActivity (sc_state sc)))
       then w
       else let '(id, w) := set_timer (THealth k) w in set_healthTimer (Some id) w
  else w.

Definition render (w : World) : World :=
  let k := length (scopes w) in
  let prev := last (scopes w) in
  let sc := render_scope w in
  let w := set_scopes (scopes w ++ [sc]) w in
  run_effects prev k sc (run_cleanups prev sc w).

(** State set by the effects of a render is committed by the render that
    follows; the effects of that one set no state, so two passes settle. *)
Definition settle (w : World) : World := render (render w).

(** ** Events from outside the hook *)

Inductive Event :=
| EvAuth (p : Props)                                    (* the surrounding hooks return new values *)
| EvConnect                                             (* consumer calls connect() *)
| EvDisconnect                                          (* consumer calls disconnect() *)
| EvEmit (event : string) (data : JsObj) (callback : option nat)
| EvOn (event : string) (handler : Fn)
| EvOff (event : string) (handler : Fn)
| EvRemoveAllListeners (event : string)
| EvSocket (s : nat) (event : string) (arg : JsVal)      (* the transport fires an event on handle s *)
| EvAck (s : nat) (ack : nat) (response : JsVal)         (* the server acknowledges an emit *)
| EvTimer (id : nat)                                     (* a timeout or interval elapses *)
| EvVisibility (visible : bool).                         (* visibilitychange on the document *)

(** The render whose [socketMethods] consumers hold. *)
Definition current (w : World) : Scope := default dummy_scope (last (scopes w)).

Definition transport_flag (event : string) (sk : Socket) : Socket :=
  if String.eqb event SOCKET_EVENTS.CONNECT
  then mkSocket true (sk_closed sk) (sk_listeners sk) (sk_acks sk)
  else if String.eqb event SOCKET_EVENTS.DISCONNECT
  then mkSocket false (sk_closed sk) (sk_listeners sk) (sk_acks sk)
  else sk.

Definition fire_timer (id : nat) (w : World) : World :=
  match timers w !! id with
  | Some (Some (TReconnect c)) => connect c (clear_timer id w)
  | Some (Some TPing) => ping_tick w
  | Some (Some (THealth k)) => health_check k w
  | _ => w
  end.

Definition dispatch (ev : Event) (w : World) : World * Completion :=
  match ev with
  | EvAuth p => (set_props p w, Returned)
  | EvConnect => (connect (sc_connect (current w)) w, Returned)
  | EvDisconnect => (disconnect w, Returned)
  | EvEmit event data callback => emit (sc_emit (current w)) event data callback w
  | EvOn event handler => (snd (on event handler w), Returned)
  | EvOff event handler => (off event handler w, Returned)
  | EvRemoveAllListeners event => (removeAllListeners event w, Returned)
  | EvSocket s event arg =>
      let w := update_socket s (transport_flag event) w in
      (fold_left (fun w l => run_listener l arg w) (listeners_of event (socket_at w s)) w,
       Returned)
  | EvAck s ack response =>
      match sk_acks (socket_at w s) !! ack with
      | Some callback => (on_ack callback response w, Returned)
      | None => (w, Returned)
      end
  | EvTimer id => (fire_timer id w, Returned)
  | EvVisibility visible =>
      match visListener w with
      | Some k => (handleVisibilityChange k visible w, Returned)
      | None => (w, Returned)
      end
  end.

(** One event at time [t], then the re-render it causes. *)
Definition step (w : World) (tev : Z * Event) : World :=
  settle (fst (dispatch (snd tev) (set_now (fst tev) w))).

Definition run (w : World) (evs : list (Z * Event)) : World := fold_left step evs w.

(** The component is mounted at time [t].  [mount] is the mount of a
    production build: the first render, its effects, and the re-render for
    the state they set.  (The application renders under [React.StrictMode],
    which a production build ignores; [mount_strict] below is the mount of
    a development build.) *)
Definition initial (e : Env) (p : Props) (t : Z) : World :=
  mkWorld e t p None None None
          (mkState false false 0 None None (mkMap 0 []) (mkArr 1 []))
          [] [] [] [] None None 2 0 [].

Definition mount (e : Env) (p : Props) (t : Z) : World := settle (initial e p t).

(** ** Reachable worlds *)

Definition reachable (w : World) : Prop :=
  exists e p t evs, w = run (mount e p t) evs.

(** The state without the record of what was observed. *)
Definition forget_trace (w : World) : World := set_trace [] w.

(** The timer pending under an id, if any. *)
Definition timer_at (w : World) (id : nat) : option Timer := default None (timers w !! id).

(** A handle is live from its creation until [socket.disconnect()]. *)
Definition live (w : World) (s : nat) : Prop :=
  exists sk, sockets w !! s = Some sk /\ sk_closed sk = false.

(** The transport actions of a trace. *)
Definition is_sock_obs (o : Obs) : bool :=
  match o with
  | OSockNew _ | OSockOpen _ | OSockClose _ => true
  | _ => false
  end.

Definition sock_obs (tr : list Obs) : list Obs := List.filter is_sock_obs tr.

(** What a step added to the trace. *)
Definition added (w w' : World) : list Obs := drop (length (trace w)) (trace w').


(** At most one live handle, and it is the one in [socketRef]. *)
Definition live_inv (w : World) : Prop := forall s, live w s -> socketRef w = Some s.

Definition closed_flags (w : World) : list bool := sk_closed <$> sockets w.

(** The pending state is the committed one. *)
Definition settled (w : World) : Prop :=
  exists sc, last (scopes w) = Some sc /\ sc_state sc = state w /\ sc_props sc = props w.

(** No handle is live. *)
Definition no_live (w : World) : Prop := forall s, ~ live w s.

(** The same handle is current and the same handles are closed. *)
Definition handles (w w' : World) : Prop :=
  socketRef w' = socketRef w /\ closed_flags w' = closed_flags w.

(** Relations between the world before and after a function of the hook,
    from the weakest to the strongest.

    [base]: untouched by everything but a render or the surrounding hooks;
    the trace only grows. *)
Definition base (w w' : World) : Prop :=
  scopes w' = scopes w /\ props w' = props w /\ env w' = env w
  /\ healthTimer w' = healthTimer w /\ visListener w' = visListener w /\ now w' = now w
  /\ exists more, trace w' = trace w ++ more.

(** [light]: [base], and the handles are as they were. *)
Definition light (w w' : World) : Prop := base w w' /\ handles w w'.

(** [kept]: moreover the state that dependency arrays of [connect] and
    [processPendingEmits] look at is the same. *)
Definition kept (w w' : World) : Prop :=
  base w w'
  /\ eventListeners (state w') = eventListeners (state w)
  /\ pendingEmits (state w') = pendingEmits (state w)
  /\ reconnectAttempts (state w') = reconnectAttempts (state w)
  /\ sets w' = sets w.

(** [calm]: moreover no handle was created, closed or replaced. *)
Definition calm (w w' : World) : Prop :=
  kept w w' /\ socketRef w' = socketRef w /\ closed_flags w' = closed_flags w
  /\ sock_obs (trace w') = sock_obs (trace w).

(** [still]: moreover handles and timers are exactly as they were. *)
Definition still (w w' : World) : Prop :=
  calm w w' /\ sockets w' = sockets w /\ timers w' = timers w
  /\ pingIntervalRef w' = pingIntervalRef w
  /\ reconnectTimeoutRef w' = reconnectTimeoutRef w.

(** What the effects of a render leave alone: [outer] when the auto-connect
    effect runs, [idle] when it does not. *)
Definition outer (w w' : World) : Prop :=
  scopes w' = scopes w /\ props w' = props w /\ env w' = env w /\ now w' = now w
  /\ eventListeners (state w') = eventListeners (state w)
  /\ pendingEmits (state w') = pendingEmits (state w)
  /\ reconnectAttempts (state w') = reconnectAttempts (state w)
  /\ exists more, trace w' = trace w ++ more.

Definition idle (w w' : World) : Prop :=
  scopes w' = scopes w /\ props w' = props w /\ env w' = env w /\ now w' = now w
  /\ state w' = state w /\ socketRef w' = socketRef w /\ sockets w' = sockets w
  /\ sets w' = sets w /\ trace w' = trace w
  /\ pingIntervalRef w' = pingIntervalRef w
  /\ reconnectTimeoutRef w' = reconnectTimeoutRef w.

(** The [emit] that consumers hold was created in a render with the flags
    and the [connect] of the current one (its dependency array). *)
Definition memo_ok (w : World) : Prop :=
  forall sc, last (scopes w) = Some sc ->
    (sc_emit sc < length (scopes w))%nat
    /\ isConnected (sc_state (scope_at w (sc_emit sc))) = isConnected (sc_state sc)
    /\ isConnecting (sc_state (scope_at w (sc_emit sc))) = isConnecting (sc_state sc)
    /\ sc_connect (scope_at w (sc_emit sc)) = sc_connect sc.

(** What tearing down the current handle adds to the transport actions, and
    which handles are closed afterwards. *)
Definition closes (w : World) : list Obs :=
  match socketRef w with
  | Some s => [OSockClose s]
  | None => []
  end.

Definition closed_after_teardown (w : World) : list bool :=
  match socketRef w with
  | Some s => alter (fun _ => true) s (closed_flags w)
  | None => closed_flags w
  end.


(** The [handleVisibilityChange] on the document was created in a render
    with the identity, the flags and the [connect] of the current one (the
    dependency array of its effect). *)
Definition vis_ok (w : World) : Prop :=
  forall sc, last (scopes w) = Some sc ->
    exists k, visListener w = Some k /\ (k < length (scopes w))%nat
      /\ user (sc_props (scope_at w k)) = user (sc_props sc)
      /\ isConnected (sc_state (scope_at w k)) = isConnected (sc_state sc)
      /\ isConnecting (sc_state (scope_at w k)) = isConnecting (sc_state sc)
      /\ sc_connect (scope_at w k) = sc_connect sc.

(** What holds of every reachable world. *)
Definition inv (w : World) : Prop := live_inv w /\ settled w /\ memo_ok w /\ vis_ok w.

(** [clearInterval]/[clearTimeout] of the id held in a ref, if any. *)
Definition clear_ref (r : option nat) (l : list (option Timer)) : list (option Timer) :=
  match r with
  | Some t => <[t := None]> l
  | None => l
  end.


(** The two things [emit] does to the world: registering the
    acknowledgment closure with the transport, and queueing. *)
Definition push_ack (callback : option nat) (sk : Socket) : Socket :=
  mkSocket (sk_connected sk) (sk_closed sk) (sk_listeners sk) (sk_acks sk ++ [callback]).

Definition enqueue (event : string) (data : JsObj) (callback : option nat) (w : World) : World :=
  call_callback callback (ArgObj queued_result)
    (setPendingEmits
       (mkArr (next_id w)
              (a_items (pendingEmits (state w)) ++ [mkPending event data callback]))
       (set_next_id (S (next_id w)) w)).

(** The [requestId]s of what was sent, oldest first, and whether a list of
    them is strictly increasing in the order of strings. *)
Definition request_id (o : Obs) : option string :=
  match o with
  | OSend _ _ data _ =>
      match data !! "requestId" with
      | Some (JStr r) => Some r
      | _ => None
      end
  | _ => None
  end.

Definition request_ids (tr : list Obs) : list string := omap request_id tr.

Fixpoint ascending (l : list string) : bool :=
  match l with
  | a :: (b :: _) as rest => String.ltb a b && ascending rest
  | _ => true
  end.

(** ** Concrete worlds used as examples *)

Definition demo_env : Env := mkEnv (fun n => "uuid") (fun _ => None).

Definition alice : Props := mkProps (Some 1%nat) (Some "tok") (Some "ref") 0 0.

(** Mounted with an identity: the auto-connect effect has called
    [connect], the handshake is in flight. *)
Definition mounted : World := mount demo_env alice 1000.

(** The transport then reports the handshake done. *)
Definition connected : World := run mounted [(1200, EvSocket 0 "connect" JNull)].

(** A transport whose [emit] rejects the reserved name "connect". *)
Definition strict_env : Env :=
  mkEnv (fun n => "uuid")
        (fun event => if String.eqb event "connect"
                      then Some "reserved event name" else None).

Definition connected_strict : World :=
  run (mount strict_env alice 1000) [(1200, EvSocket 0 "connect" JNull)].

(** A generator whose second UUID sorts before its first. *)
Definition unordered_env : Env :=
  mkEnv (fun n => match n with
                  | O => "f47ac10b-58cc-4372-a567-0e02b2c3d479"
                  | _ => "0a8f3c2e-1b7d-4e6a-9c05-3d2f1e0b4a67"
                  end)
        (fun _ => None).

Definition two_emits : World :=
  run (mount unordered_env alice 1000)
      [(1200, EvSocket 0 "connect" JNull);
       (1300, EvEmit "iot_message" ∅ None);
       (1400, EvEmit "iot_message" ∅ None)].

(** What was sent on which handle, and what a consumer handler received. *)
Definition sent_events (tr : list Obs) : list (nat * string) :=
  omap (fun o => match o with
                 | OSend s event _ _ => Some (s, event)
                 | _ => None
                 end) tr.

Definition handler_calls (h : nat) (tr : list Obs) : list JsVal :=
  omap (fun o => match o with
                 | OHandler h' arg => if Nat.eqb h h' then Some arg else None
                 | _ => None
                 end) tr.

Definition callback_calls (c : nat) (tr : list Obs) : nat :=
  length (List.filter (fun o => match o with
                                | OCallback c' _ => Nat.eqb c c'
                                | _ => false
                                end) tr).

(** A message emitted while the handshake is in flight, then the
    handshake completes. *)
Definition queued_then_connected : World :=
  run mounted [(1100, EvEmit "iot_message" ∅ (Some 5%nat));
               (1200, EvSocket 0 "connect" JNull)].

(** A consumer then subscribes (which replaces the transport), and the new
    handshake completes. *)
Definition queued_then_reconnected : World :=
  run queued_then_connected
      [(1300, EvOn "notification" (FUser 7));
       (1400, EvSocket 1 "connect" JNull)].

(** [on(cat, h)] then [off(cat, h)] with the same function, then a message
    of that category on the current handle. *)
Definition subscribed : World := run connected [(1300, EvOn "notification" (FUser 7))].

Definition unsubscribed : World :=
  run subscribed [(1400, EvSocket 1 "connect" JNull);
                  (1500, EvOff "notification" (FUser 7))].

Definition delivered_after_off : World :=
  run unsubscribed [(1600, EvSocket 2 "connect" JNull);
                    (1700, EvSocket 2 "notification" (JStr "hello"))].

(** The same, unsubscribing with the wrapper [on] registered (what the
    function returned by [on] does). *)
Definition unsubscribed_by_wrapper : World :=
  run subscribed [(1400, EvSocket 1 "connect" JNull);
                  (1500, EvOff "notification" (FLogged 2 "notification" (FUser 7)))].

Definition delivered_after_unsubscribe : World :=
  run unsubscribed_by_wrapper [(1600, EvSocket 2 "connect" JNull);
                               (1700, EvSocket 2 "notification" (JStr "hello"))].

(** A consumer calls [connect()] while the handshake is in flight. *)
Definition connect_while_connecting : World := run mounted [(1100, EvConnect)].

(** Ten handshakes fail in a row, each on the handle current at the time. *)
Definition handshake_failures (n : nat) : list (Z * Event) :=
  map (fun i => (1000 + Z.of_nat (S i), EvSocket i "connect_error" (JStr "timeout"))) (seq 0 n).

Definition nine_failures : World := run mounted (handshake_failures 9).

Definition ten_failures : World :=
  run nine_failures [(1010, EvSocket 9 "connect_error" (JStr "timeout"))].

Definition given_up : World :=
  run ten_failures [(1011, EvSocket 10 "reconnect_failed" JNull)].

Definition eleven_failures : World :=
  run given_up [(1012, EvSocket 10 "connect_error" (JStr "timeout"))].

(** The connection drops, the transport exhausts its own retries, and the
    page comes back to the foreground. *)
Definition dropped_and_given_up : World :=
  run connected [(2000, EvSocket 0 "disconnect" (JStr "transport close"));
                 (9000, EvSocket 0 "reconnect_failed" JNull)].

Definition back_in_foreground : World :=
  run dropped_and_given_up [(9500, EvVisibility true)].

(** ** Definitions for the further properties *)

(** [createSocket] and [connect] as a render has them in scope were created
    in that render or an older one, and that [createSocket] tests the
    identity the render has in scope (its dependency array). *)
Definition closures_ok (w : World) : Prop :=
  forall k sc, scopes w !! k = Some sc ->
    (sc_createSocket sc <= k)%nat /\ (sc_connect sc <= k)%nat
    /\ user (sc_props (scope_at w (sc_createSocket sc))) = user (sc_props sc)
    /\ token (sc_props (scope_at w (sc_createSocket sc))) = token (sc_props sc).

(** The listeners [connect] (scope [c]) attaches to the handle it creates,
    in the order of the source: the seven lifecycle listeners, then every
    handler of the registry it has in scope, the sets read as they are. *)
Definition lifecycle_listeners (c : nat) : list (string * Listener) :=
  [(SOCKET_EVENTS.CONNECT, LConnect c);
   (SOCKET_EVENTS.DISCONNECT, LDisconnect c);
   (SOCKET_EVENTS.CONNECT_ERROR, LConnectError c);
   (SOCKET_EVENTS.RECONNECT, LReconnect c);
   (SOCKET_EVENTS.RECONNECT_ATTEMPT, LReconnectAttempt c);
   (SOCKET_EVENTS.RECONNECT_FAILED, LReconnectFailed c);
   (SOCKET_EVENTS.PONG, LPong c)].

Definition registry_listeners (m : MapObj) (heap : list (list Fn)) : list (string * Listener) :=
  flat_map (fun entry => map (fun f => (fst entry, LFn f)) (default [] (heap !! snd entry)))
           (m_entries m).

(** Every running interval is owned: a ping interval by [pingIntervalRef],
    a health interval by the cleanup of the effect that started it. *)
Definition intervals_ok (w : World) : Prop :=
  forall t,
    (timers w !! t = Some (Some TPing) -> pingIntervalRef w = Some t)
    /\ (forall k, timers w !! t = Some (Some (THealth k)) -> healthTimer w = Some t).

(** [ticks]: timers and their owners are as they were. *)
Definition ticks (w w' : World) : Prop :=
  timers w' = timers w /\ pingIntervalRef w' = pingIntervalRef w
  /\ healthTimer w' = healthTimer w.

(** *** The registry and the identities of wrappers *)

(** A function value is known to the world when a [Set] of the heap holds
    it or a handle has it as a listener. *)
Definition known (w : World) (f : Fn) : Prop :=
  (exists r l, sets w !! r = Some l /\ In f l)
  \/ (exists s sk ev, sockets w !! s = Some sk /\ In (ev, LFn f) (sk_listeners sk)).

(** Wrappers are numbered by allocation: one that exists was allocated. *)
Definition fn_below (n : nat) (f : Fn) : Prop :=
  match f with
  | FLogged id _ _ => (id < n)%nat
  | FUser _ => True
  end.

(** The registry in the component state: its [Map] was allocated, it has
    one entry per event, every entry refers to a [Set] of its own that is
    in the heap and not empty ([off] prunes an entry whose set becomes
    empty), and every wrapper around was allocated. *)
Definition registry_ok (w : World) : Prop :=
  (m_id (eventListeners (state w)) < next_id w)%nat
  /\ NoDup (fst <$> m_entries (eventListeners (state w)))
  /\ NoDup (snd <$> m_entries (eventListeners (state w)))
  /\ (forall ev r, In (ev, r) (m_entries (eventListeners (state w))) ->
        exists l, sets w !! r = Some l /\ l <> [])
  /\ forall f, known w f -> fn_below (next_id w) f.

(** [regs]: the registry and the heap of sets are as they were, nothing was
    de-allocated and no function value appeared from nowhere. *)
Definition regs (w w' : World) : Prop :=
  sets w' = sets w /\ eventListeners (state w') = eventListeners (state w)
  /\ (next_id w <= next_id w')%nat
  /\ forall f, known w' f -> known w f.

(** Unmounting the component runs the cleanup of each effect, in source
    order: [disconnect()], [removeEventListener], and [clearInterval] of the
    health interval when the last run of that effect started one. *)
Definition unmount (w : World) : World :=
  let w := disconnect w in
  let w := set_visListener None w in
  match healthTimer w with
  | Some t => set_healthTimer None (clear_timer t w)
  | None => w
  end.

(** The mount of a development build.  The application renders its tree
    under [React.StrictMode]: after the effects of the first render React
    runs the cleanup of every effect and then every effect again, with the
    closures of that render and with the refs and the pending state as they
    are, and re-renders after that. *)
Definition mount_strict (e : Env) (p : Props) (t : Z) : World :=
  let w := render (initial e p t) in
  let w := unmount w in
  let w := run_effects None 0 (scope_at w 0) w in
  render w.

(** Timer ids are never reused: the table of timers only grows, and the
    interval a cleanup of the health effect owns is in it. *)
Definition longer (w w' : World) : Prop := (length (timers w) <= length (timers w'))%nat.

Definition health_owner_ok (w : World) : Prop :=
  forall t, healthTimer w = Some t -> (t < length (timers w))%nat.

(** More example worlds. *)

Definition alice_refreshed : Props := mkProps (Some 1%nat) (Some "tok2") (Some "ref") 0 0.

Definition nobody : Props := mkProps None None None 0 0.

Definition failed_once : World :=
  run mounted [(1001, EvSocket 0 "connect_error" (JStr "timeout"))].

(** The server drops the connection (a reconnect timeout of five seconds is
    set), the page comes back to the foreground and a new handshake
    completes, and the server drops that connection as well, one second
    after the first drop: the second timeout takes the place of the first
    in [reconnectTimeoutRef]. *)
Definition dropped_once : World :=
  run connected [(2000, EvSocket 0 "disconnect" (JStr "io server disconnect"))].

Definition dropped_twice : World :=
  run dropped_once
      [(2500, EvVisibility true);
       (2700, EvSocket 1 "connect" JNull);
       (3000, EvSocket 1 "disconnect" (JStr "io server disconnect"))].

(** A consumer then calls [disconnect()]; the first timeout elapses five
    seconds after it was set. *)
Definition disconnected_by_consumer : World := run dropped_twice [(3100, EvDisconnect)].

Definition first_timeout_elapsed : World :=
  run disconnected_by_consumer [(7000, EvTimer 2)].

(** Or, after the second drop: the page comes back to the foreground
    (a handshake starts), a consumer subscribes while it is in flight, the
    first timeout elapses and its handshake completes.  Three pings go
    out and nothing comes back; the health interval fires for the third
    time 90 seconds after the handshake. *)
Definition connected_by_timeout : World :=
  run dropped_twice
      [(3500, EvVisibility true);
       (3600, EvOn "notification" (FUser 7));
       (7000, EvTimer 2);
       (7200, EvSocket 3 "connect" JNull)].

Definition silent : World :=
  run connected_by_timeout
      [(37000, EvTimer 7); (37200, EvTimer 8);
       (67000, EvTimer 7); (67200, EvTimer 8);
       (97000, EvTimer 7)].

Definition breached : World := run silent [(97200, EvTimer 8)].

Definition after_breach : World :=
  run breached [(97300, EvVisibility true); (97400, EvConnect)].
(** ** Proof support *)

Ltac proj :=
  cbn [env now props socketRef reconnectTimeoutRef pingIntervalRef state scopes sockets sets timers visListener healthTimer next_id uuid_calls trace
       isConnected isConnecting reconnectAttempts connectionError lastActivity eventListeners pendingEmits
       set_now set_props set_socketRef set_reconnectTimeoutRef set_pingIntervalRef set_state set_scopes set_sockets set_sets set_timers set_visListener set_healthTimer set_next_id set_uuid_calls set_trace setIsConnected setIsConnecting setReconnectAttempts setConnectionError setLastActivity setEventListeners setPendingEmits emitObs console_log notify track fresh clear_timer set_timer update_socket call_callback fst snd] in *.

Ltac case_inner :=
  match goal with
  | |- context [match ?x with _ => _ end] =>
      lazymatch x with
      | context [match _ with _ => _ end] => fail
      | _ => destruct x eqn:?
      end
  end.

Ltac cases := do 40 (try (case_inner; proj)).

Ltac grow :=
  rewrite <- ?app_assoc;
  first [ eexists; reflexivity | exists []; symmetry; apply app_nil_r ].

Lemma world_eq (a b : World) :
  env a = env b -> now a = now b -> props a = props b -> socketRef a = socketRef b ->
  reconnectTimeoutRef a = reconnectTimeoutRef b -> pingIntervalRef a = pingIntervalRef b ->
  state a = state b -> scopes a = scopes b -> sockets a = sockets b -> sets a = sets b ->
  timers a = timers b -> visListener a = visListener b -> healthTimer a = healthTimer b ->
  next_id a = next_id b -> uuid_calls a = uuid_calls b -> trace a = trace b -> a = b.
Proof. destruct a, b; cbn; intros; subst; reflexivity. Qed.

Lemma state_eq (a b : RState) :
  isConnected a = isConnected b -> isConnecting a = isConnecting b ->
  reconnectAttempts a = reconnectAttempts b -> connectionError a = connectionError b ->
  lastActivity a = lastActivity b -> eventListeners a = eventListeners b ->
  pendingEmits a = pendingEmits b -> a = b.
Proof. destruct a, b; cbn; intros; subst; reflexivity. Qed.

(** *** The relations are preorders, each included in the weaker ones *)

Lemma base_refl w : base w w.
Proof. unfold base. repeat split; trivial. grow. Qed.

Lemma base_trans a b c : base a b -> base b c -> base a c.
Proof.
  unfold base. intros (?&?&?&?&?&?&[m1 ?]) (?&?&?&?&?&?&[m2 ?]).
  repeat split; try congruence.
  exists (m1 ++ m2). rewrite app_assoc. congruence.
Qed.

Lemma kept_refl w : kept w w.
Proof. unfold kept. auto using base_refl. Qed.

Lemma kept_trans a b c : kept a b -> kept b c -> kept a c.
Proof.
  unfold kept. intros (?&?&?&?&?) (?&?&?&?&?).
  split; [eauto using base_trans | repeat split; congruence].
Qed.

Lemma calm_refl w : calm w w.
Proof. unfold calm. auto using kept_refl. Qed.

Lemma calm_trans a b c : calm a b -> calm b c -> calm a c.
Proof.
  unfold calm. intros (?&?&?&?) (?&?&?&?).
  split; [eauto using kept_trans | repeat split; congruence].
Qed.

Lemma still_refl w : still w w.
Proof. unfold still. auto using calm_refl. Qed.

Lemma still_trans a b c : still a b -> still b c -> still a c.
Proof.
  unfold still. intros (?&?&?&?&?) (?&?&?&?&?).
  split; [eauto using calm_trans | repeat split; congruence].
Qed.

Lemma still_calm a b : still a b -> calm a b.
Proof. unfold still. tauto. Qed.

Lemma calm_kept a b : calm a b -> kept a b.
Proof. unfold calm. tauto. Qed.

Lemma kept_base a b : kept a b -> base a b.
Proof. unfold kept. tauto. Qed.

Lemma handles_refl w : handles w w.
Proof. split; reflexivity. Qed.

Lemma handles_trans a b c : handles a b -> handles b c -> handles a c.
Proof. unfold handles. intros [] []. split; congruence. Qed.

Lemma calm_handles a b : calm a b -> handles a b.
Proof. unfold calm, handles. tauto. Qed.

Lemma outer_refl w : outer w w.
Proof. unfold outer. repeat split; trivial. grow. Qed.

Lemma outer_trans a b c : outer a b -> outer b c -> outer a c.
Proof.
  unfold outer. intros (?&?&?&?&?&?&?&[m1 ?]) (?&?&?&?&?&?&?&[m2 ?]).
  repeat split; try congruence.
  exists (m1 ++ m2). rewrite app_assoc. congruence.
Qed.

Lemma kept_outer a b : kept a b -> outer a b.
Proof. unfold kept, base, outer. tauto. Qed.

Lemma idle_refl w : idle w w.
Proof. unfold idle. repeat split; trivial. Qed.

Lemma idle_trans a b c : idle a b -> idle b c -> idle a c.
Proof.
  unfold idle. intros (?&?&?&?&?&?&?&?&?&?&?) (?&?&?&?&?&?&?&?&?&?&?).
  repeat split; congruence.
Qed.

Lemma idle_outer a b : idle a b -> outer a b.
Proof.
  unfold idle, outer. intros (?&?&?&?&E&?&?&?&T&?&?).
  rewrite E, T. repeat split; trivial. grow.
Qed.

Lemma idle_handles a b : idle a b -> handles a b.
Proof.
  unfold idle, handles, closed_flags. intros (?&?&?&?&?&?&E&?). rewrite E. auto.
Qed.

Lemma light_refl w : light w w.
Proof. split; [apply base_refl | apply handles_refl]. Qed.

Lemma light_trans a b c : light a b -> light b c -> light a c.
Proof. intros [] []. split; eauto using base_trans, handles_trans. Qed.

Lemma light_base a b : light a b -> base a b.
Proof. unfold light. tauto. Qed.

Lemma light_handles a b : light a b -> handles a b.
Proof. unfold light. tauto. Qed.

Lemma calm_light a b : calm a b -> light a b.
Proof. intros H. split; [apply kept_base, calm_kept, H | apply calm_handles, H]. Qed.

Lemma fold_left_rel {A} (R : World -> World -> Prop) (f : World -> A -> World) :
  (forall w, R w w) -> (forall a b c, R a b -> R b c -> R a c) ->
  (forall w a, R w (f w a)) ->
  forall l w, R w (fold_left f l w).
Proof.
  intros Hr Ht Hf l. induction l as [|a l IH]; intros w; cbn; [apply Hr|].
  eapply Ht; [apply Hf | apply IH].
Qed.

Lemma sock_obs_app a b : sock_obs (a ++ b) = sock_obs a ++ sock_obs b.
Proof. unfold sock_obs. apply List.filter_app. Qed.

Lemma closed_flags_alter (f : Socket -> Socket) s (l : list Socket) :
  (forall sk, sk_closed (f sk) = sk_closed sk) ->
  sk_closed <$> alter f s l = sk_closed <$> l.
Proof.
  intros Hf. revert s. induction l as [|x l IH]; intros [|s]; cbn; trivial.
  - now rewrite Hf.
  - f_equal. apply IH.
Qed.

(** Closing the goal of a relation once the function is unfolded. *)
Ltac rel :=
  unfold still, calm, kept, light, base, outer, idle, handles, closed_flags; proj; cases;
  repeat match goal with |- _ /\ _ => split end;
  rewrite ?sock_obs_app, ?app_nil_r; cbn [sock_obs List.filter is_sock_obs];
  rewrite ?app_nil_r;
  try reflexivity; try grow;
  try (apply closed_flags_alter; intros; reflexivity).

Create HintDb rel.
#[local] Hint Resolve still_calm calm_kept kept_base calm_handles kept_outer idle_outer
  idle_handles light_base light_handles calm_light : rel.

(** Peel the outermost call off the right-hand world of a relation. *)
Ltac peel_with R_refl R_trans :=
  first [ apply R_refl | eapply R_trans; [ | solve [eauto 6 with rel] ] ].

Ltac peel :=
  repeat match goal with
         | |- _ => assumption
         | |- still _ _ => peel_with still_refl still_trans
         | |- calm _ _ => peel_with calm_refl calm_trans
         | |- kept _ _ => peel_with kept_refl kept_trans
         | |- base _ _ => peel_with base_refl base_trans
         | |- light _ _ => peel_with light_refl light_trans
         | |- handles _ _ => peel_with handles_refl handles_trans
         | |- outer _ _ => peel_with outer_refl outer_trans
         | |- idle _ _ => peel_with idle_refl idle_trans
         end.

(** *** Leaves *)

Lemma setIsConnected_still b w : still w (setIsConnected b w).
Proof. rel. Qed.

Lemma setIsConnecting_still b w : still w (setIsConnecting b w).
Proof. rel. Qed.

Lemma setConnectionError_still e w : still w (setConnectionError e w).
Proof. rel. Qed.

Lemma setLastActivity_still t w : still w (setLastActivity t w).
Proof. rel. Qed.

Lemma console_log_still m w : still w (console_log m w).
Proof. rel. Qed.

Lemma notify_still l m w : still w (notify l m w).
Proof. rel. Qed.

Lemma track_still n w : still w (track n w).
Proof. rel. Qed.

Lemma call_callback_still cb arg w : still w (call_callback cb arg w).
Proof. unfold call_callback. rel. Qed.

Lemma clear_timer_calm t w : calm w (clear_timer t w).
Proof. rel. Qed.

Lemma set_pingIntervalRef_calm v w : calm w (set_pingIntervalRef v w).
Proof. rel. Qed.

Lemma set_reconnectTimeoutRef_calm v w : calm w (set_reconnectTimeoutRef v w).
Proof. rel. Qed.

Lemma set_socketRef_kept v w : kept w (set_socketRef v w).
Proof. rel. Qed.

Lemma set_next_id_still v w : still w (set_next_id v w).
Proof. rel. Qed.

Lemma set_uuid_calls_still v w : still w (set_uuid_calls v w).
Proof. rel. Qed.

Lemma setReconnectAttempts_light v w : light w (setReconnectAttempts v w).
Proof. rel. Qed.

Lemma setEventListeners_light v w : light w (setEventListeners v w).
Proof. rel. Qed.

Lemma setPendingEmits_light v w : light w (setPendingEmits v w).
Proof. rel. Qed.

Lemma set_sets_light v w : light w (set_sets v w).
Proof. rel. Qed.

Lemma set_visListener_idle v w : idle w (set_visListener v w).
Proof. rel. Qed.

Lemma set_healthTimer_idle v w : idle w (set_healthTimer v w).
Proof. rel. Qed.

Lemma set_timers_idle v w : idle w (set_timers v w).
Proof. rel. Qed.

Lemma set_timers_calm v w : calm w (set_timers v w).
Proof. rel. Qed.

Lemma clear_timer_idle t w : idle w (clear_timer t w).
Proof. rel. Qed.

Lemma set_scopes_handles v w : handles w (set_scopes v w).
Proof. rel. Qed.

Lemma set_props_handles v w : handles w (set_props v w).
Proof. rel. Qed.

Lemma set_now_handles v w : handles w (set_now v w).
Proof. rel. Qed.

#[local] Hint Resolve set_next_id_still set_uuid_calls_still setReconnectAttempts_light
  setEventListeners_light setPendingEmits_light set_sets_light set_visListener_idle
  set_healthTimer_idle set_timers_idle set_timers_calm clear_timer_idle
  set_scopes_handles set_props_handles set_now_handles : rel.

#[local] Hint Resolve setIsConnected_still setIsConnecting_still setConnectionError_still
  setLastActivity_still console_log_still notify_still track_still call_callback_still
  clear_timer_calm set_pingIntervalRef_calm set_reconnectTimeoutRef_calm
  set_socketRef_kept : rel.

Lemma call_fn_still f arg w : still w (call_fn f arg w).
Proof.
  revert w. induction f as [h|id ev f IH]; intros w; cbn [call_fn].
  - rel.
  - eapply still_trans; [|apply IH]. apply console_log_still.
Qed.

Lemma on_disconnect_calm c r w : calm w (on_disconnect c r w).
Proof. unfold on_disconnect. rel. Qed.

Lemma on_disconnect_still c w : still w (on_disconnect c (JStr "io client disconnect") w).
Proof. unfold on_disconnect. cbn [is_reason]. change (String.eqb _ _) with false. rel. Qed.

Lemma fire_close_still l w : still w (fire_close l w).
Proof.
  destruct l; cbn [fire_close];
    auto using still_refl, on_disconnect_still, call_fn_still.
Qed.

Lemma fire_close_fold_still ls w : still w (fold_left (fun w l => fire_close l w) ls w).
Proof.
  apply (fold_left_rel still); [apply still_refl | apply still_trans |].
  intros; apply fire_close_still.
Qed.

Lemma sock_on_calm s ev l w : calm w (sock_on s ev l w).
Proof. unfold sock_on. rel. Qed.

Lemma sock_off_calm s ev f w : calm w (sock_off s ev f w).
Proof. unfold sock_off. rel. Qed.

Lemma sock_removeAllListeners_calm s ev w : calm w (sock_removeAllListeners s ev w).
Proof. unfold sock_removeAllListeners. rel. Qed.

Lemma sock_emit_calm s ev d a w : calm w (fst (sock_emit s ev d a w)).
Proof. unfold sock_emit. cases; rel. Qed.

Lemma startPingInterval_calm w : calm w (startPingInterval w).
Proof. unfold startPingInterval. rel. Qed.

Lemma connect_catch_still m w : still w (connect_catch m w).
Proof. unfold connect_catch. rel. Qed.

Lemma on_ack_still cb r w : still w (on_ack cb r w).
Proof. unfold on_ack, call_callback. rel. Qed.

Lemma on_pong_still c w : still w (on_pong c w).
Proof. unfold on_pong. rel. Qed.

Lemma on_reconnect_failed_still c w : still w (on_reconnect_failed c w).
Proof. unfold on_reconnect_failed. rel. Qed.

#[local] Hint Resolve call_fn_still on_disconnect_calm fire_close_still fire_close_fold_still
  sock_on_calm sock_off_calm sock_removeAllListeners_calm sock_emit_calm
  startPingInterval_calm connect_catch_still on_ack_still on_pong_still
  on_reconnect_failed_still : rel.

Lemma register_listeners_calm s m w : calm w (register_listeners s m w).
Proof.
  unfold register_listeners.
  apply (fold_left_rel calm); [apply calm_refl | apply calm_trans |].
  intros w0 entry.
  generalize (default [] (sets w0 !! snd entry)). intros fs.
  apply (fold_left_rel calm); [apply calm_refl | apply calm_trans |].
  intros; apply sock_on_calm.
Qed.

#[local] Hint Resolve register_listeners_calm : rel.

(** *** connect and disconnect keep what renders depend on *)

Lemma sock_disconnect_kept s w : kept w (sock_disconnect s w).
Proof.
  unfold sock_disconnect.
  assert (K : kept w (update_socket s (fun sk => mkSocket false true (sk_listeners sk) (sk_acks sk))
                        (emitObs (OSockClose s) w))) by rel.
  destruct (sk_connected (socket_at w s)); [|exact K].
  eapply kept_trans; [exact K|]. auto with rel.
Qed.

Lemma sock_new_kept w : kept w (snd (sock_new w)).
Proof. unfold sock_new. rel. Qed.

Lemma createSocket_kept cs w : kept w (snd (createSocket cs w)).
Proof. unfold createSocket. cases; cbn [snd]; auto using kept_refl. unfold sock_new in *. 
  match goal with H : _ = (_, _) |- _ => inversion H; subst end. rel. Qed.

#[local] Hint Resolve sock_disconnect_kept createSocket_kept : rel.

Lemma teardown_kept w :
  kept w match socketRef w with
         | Some s => set_socketRef None (sock_disconnect s w)
         | None => w
         end.
Proof. destruct (socketRef w); peel. Qed.

Lemma disconnect_kept w : kept w (disconnect w).
Proof.
  unfold disconnect. cbv zeta.
  pose proof (teardown_kept w) as K. revert K.
  generalize (match socketRef w with
         | Some s => set_socketRef None (sock_disconnect s w)
         | None => w
         end). intros w1 K.
  cases; peel.
Qed.

Lemma sock_connect_kept s w : kept w (sock_connect s w).
Proof. unfold sock_connect. rel. Qed.

#[local] Hint Resolve disconnect_kept sock_connect_kept : rel.

Lemma connect_kept c w : kept w (connect c w).
Proof.
  unfold connect. cbv zeta.
  destruct (_ || _); [peel|].
  destruct (ref_connected w); [peel|].
  destruct (isConnecting _); [peel|].
  set (w1 := setConnectionError None (setIsConnecting true w)).
  assert (K1 : kept w w1) by (subst w1; peel).
  pose proof (teardown_kept w1) as K. revert K.
  generalize (match socketRef w1 with
         | Some s => set_socketRef None (sock_disconnect s w1)
         | None => w1
         end). intros w2 K2.
  pose proof (createSocket_kept (sc_createSocket (scope_at w c)) w2) as K3.
  destruct (createSocket _ w2) as [[s|] w3]; cbn [snd] in K3.
  - peel.
  - peel.
Qed.

#[local] Hint Resolve connect_kept : rel.


(** *** At most one live handle *)

Lemma live_flags w s : live w s <-> closed_flags w !! s = Some false.
Proof.
  unfold live, closed_flags. rewrite list_lookup_fmap. split.
  - intros (sk & -> & H). cbn. now rewrite H.
  - destruct (sockets w !! s) as [sk|]; cbn; [|discriminate].
    intros [= H]. eauto.
Qed.

Lemma handles_live_inv a b : handles a b -> live_inv a -> live_inv b.
Proof.
  unfold handles, live_inv. intros [Hr Hf] H s. rewrite live_flags, Hf, Hr, <- live_flags.
  apply H.
Qed.

Lemma handles_no_live a b : handles a b -> no_live a -> no_live b.
Proof.
  unfold handles, no_live. intros [Hr Hf] H s. rewrite live_flags, Hf, <- live_flags.
  apply H.
Qed.

Lemma no_live_inv w : no_live w -> live_inv w.
Proof. intros H s Hs. destruct (H s Hs). Qed.

Lemma sock_connect_handles s w : handles w (sock_connect s w).
Proof. unfold sock_connect. rel. Qed.

#[local] Hint Resolve sock_connect_handles : rel.

Lemma sock_disconnect_flags s w :
  socketRef (sock_disconnect s w) = socketRef w
  /\ closed_flags (sock_disconnect s w) = alter (fun _ => true) s (closed_flags w).
Proof.
  unfold sock_disconnect.
  set (w1 := update_socket s _ _).
  assert (H1 : socketRef w1 = socketRef w) by (subst w1; proj; reflexivity).
  assert (H2 : closed_flags w1 = alter (fun _ => true) s (closed_flags w)).
  { subst w1. unfold closed_flags. proj. apply list_fmap_alter, Forall_forall; intros; reflexivity. }
  destruct (sk_connected _); [|auto].
  destruct (calm_handles _ _ (still_calm _ _
    (fire_close_fold_still (listeners_of SOCKET_EVENTS.DISCONNECT (socket_at w s)) w1)))
    as [Hr Hf].
  split; congruence.
Qed.

Lemma teardown_no_live w :
  live_inv w ->
  let w' := match socketRef w with
            | Some s => set_socketRef None (sock_disconnect s w)
            | None => w
            end in
  no_live w' /\ socketRef w' = None.
Proof.
  intros H. destruct (socketRef w) as [s|] eqn:E; cbn zeta.
  - split; [|reflexivity]. intros s' Hs. apply live_flags in Hs.
    unfold closed_flags in Hs. proj. fold (closed_flags (sock_disconnect s w)) in Hs.
    destruct (sock_disconnect_flags s w) as [_ Hf]. rewrite Hf in Hs.
    destruct (decide (s = s')) as [->|Hne].
    + rewrite list_lookup_alter_eq in Hs. destruct (closed_flags w !! s'); discriminate.
    + rewrite list_lookup_alter_ne in Hs by trivial.
      apply live_flags, H in Hs. congruence.
  - split; [|trivial]. intros s' Hs. apply H in Hs. congruence.
Qed.

Lemma disconnect_no_live w : live_inv w -> no_live (disconnect w).
Proof.
  intros H. unfold disconnect. cbv zeta.
  destruct (teardown_no_live w H) as [K _]. revert K.
  generalize (match socketRef w with
         | Some s => set_socketRef None (sock_disconnect s w)
         | None => w
         end). intros w1 K.
  eapply handles_no_live; [|exact K].
  cases; peel.
Qed.

Lemma disconnect_live_inv w : live_inv w -> live_inv (disconnect w).
Proof. auto using no_live_inv, disconnect_no_live. Qed.

Lemma connect_live_inv c w : live_inv w -> live_inv (connect c w).
Proof.
  intros H. unfold connect. cbv zeta.
  destruct (_ || _); [eapply handles_live_inv; [|exact H]; peel|].
  destruct (ref_connected w); [eapply handles_live_inv; [|exact H]; peel|].
  destruct (isConnecting _); [eapply handles_live_inv; [|exact H]; peel|].
  set (w1 := setConnectionError None (setIsConnecting true w)).
  assert (H1 : live_inv w1) by (eapply handles_live_inv; [|exact H]; subst w1; peel).
  destruct (teardown_no_live w1 H1) as [K R]. revert K R.
  generalize (match socketRef w1 with
         | Some s => set_socketRef None (sock_disconnect s w1)
         | None => w1
         end). intros w2 K R.
  unfold createSocket. destruct (_ || _).
  - apply no_live_inv. eapply handles_no_live; [|exact K]. peel.
  - unfold sock_new. cbv zeta. proj.
    set (w3 := set_socketRef _ _).
    assert (H3 : live_inv w3).
    { intros s Hs. apply live_flags in Hs. subst w3. unfold closed_flags in Hs. proj.
      rewrite fmap_app in Hs. cbn in Hs.
      destruct (decide (s < length (sockets w2))%nat) as [Hlt|Hge].
      - rewrite lookup_app_l in Hs by (now rewrite length_fmap).
        apply live_flags, K in Hs. destruct Hs.
      - destruct (decide (s = length (sockets w2))) as [->|Hne]; [reflexivity|].
        rewrite lookup_ge_None_2 in Hs; [discriminate|].
        rewrite length_app, length_fmap. cbn. lia. }
    eapply handles_live_inv; [|exact H3]. peel.
Qed.

#[local] Hint Resolve connect_live_inv disconnect_live_inv : rel.

(** *** The remaining functions: untouched renders, one live handle *)

Ltac live_from H := eapply handles_live_inv; [ | exact H ]; peel.

Lemma connect_base c w : base w (connect c w).
Proof. auto with rel. Qed.

Lemma disconnect_base w : base w (disconnect w).
Proof. auto with rel. Qed.

#[local] Hint Resolve connect_base disconnect_base : rel.

Lemma emit_base e ev d cb w : base w (fst (emit e ev d cb w)).
Proof.
  unfold emit. cbv zeta.
  destruct (socketRef w) as [s|]; [destruct (isConnected _)|].
  - match goal with |- context [sock_emit ?a ?b ?c ?d ?x] =>
      pose proof (sock_emit_calm a b c d x) as K; destruct (sock_emit a b c d x) as [w' []]
    end; cbn [fst] in *; peel.
  - proj. destruct (isConnecting _); cbn [fst]; peel.
  - proj. destruct (isConnecting _); cbn [fst]; peel.
Qed.

Lemma emit_live_inv e ev d cb w : live_inv w -> live_inv (fst (emit e ev d cb w)).
Proof.
  intros H. unfold emit. cbv zeta.
  destruct (socketRef w) as [s|]; [destruct (isConnected _)|].
  - match goal with |- context [sock_emit ?a ?b ?c ?d ?x] =>
      pose proof (sock_emit_calm a b c d x) as K; destruct (sock_emit a b c d x) as [w' []]
    end; cbn [fst] in *; live_from H.
  - proj. destruct (isConnecting _); cbn [fst]; [|apply connect_live_inv]; live_from H.
  - proj. destruct (isConnecting _); cbn [fst]; [|apply connect_live_inv]; live_from H.
Qed.

Lemma emit_returns e ev d cb w : snd (emit e ev d cb w) = Returned.
Proof.
  unfold emit. cbv zeta.
  destruct (socketRef w) as [s|]; [destruct (isConnected _)|]; proj; trivial.
  destruct (sock_emit _ _ _ _ _) as [w' []]; reflexivity.
Qed.

#[local] Hint Resolve emit_base emit_live_inv : rel.

Lemma emit_each_returns e items w : snd (emit_each e items w) = Returned.
Proof.
  revert w. induction items as [|i items IH]; intros w; cbn [emit_each]; trivial.
  pose proof (emit_returns e (pe_event i) (pe_data i) (pe_callback i) w) as R.
  destruct (emit _ _ _ _ _) as [w' r]. cbn in R. subst r. apply IH.
Qed.

Lemma emit_each_base e items w : base w (fst (emit_each e items w)).
Proof.
  revert w. induction items as [|i items IH]; intros w; cbn [emit_each]; [apply base_refl|].
  pose proof (emit_base e (pe_event i) (pe_data i) (pe_callback i) w) as B.
  destruct (emit _ _ _ _ _) as [w' []]; cbn [fst] in *; [|exact B].
  eapply base_trans; [exact B | apply IH].
Qed.

Lemma emit_each_live_inv e items w : live_inv w -> live_inv (fst (emit_each e items w)).
Proof.
  revert w. induction items as [|i items IH]; intros w H; cbn [emit_each]; [exact H|].
  pose proof (emit_live_inv e (pe_event i) (pe_data i) (pe_callback i) w H) as B.
  destruct (emit _ _ _ _ _) as [w' []]; cbn [fst] in *; auto.
Qed.

Lemma processPendingEmits_base p w : base w (fst (processPendingEmits p w)).
Proof.
  unfold processPendingEmits. cbv zeta. destruct (_ && _); [|apply base_refl].
  pose proof (emit_each_base (sc_emit (scope_at w p))
                (a_items (pendingEmits (sc_state (scope_at w p)))) w) as B.
  destruct (emit_each _ _ _) as [w' []]; cbn [fst] in *; proj; peel.
Qed.

Lemma processPendingEmits_live_inv p w :
  live_inv w -> live_inv (fst (processPendingEmits p w)).
Proof.
  intros H. unfold processPendingEmits. cbv zeta. destruct (_ && _); [|exact H].
  pose proof (emit_each_live_inv (sc_emit (scope_at w p))
                (a_items (pendingEmits (sc_state (scope_at w p)))) w H) as B.
  destruct (emit_each _ _ _) as [w' []]; cbn [fst] in *; proj; [|exact B].
  live_from B.
Qed.

#[local] Hint Resolve processPendingEmits_base processPendingEmits_live_inv : rel.

Lemma on_connect_base c w : base w (on_connect c w).
Proof. unfold on_connect. cbv zeta. peel. Qed.

Lemma on_connect_live_inv c w : live_inv w -> live_inv (on_connect c w).
Proof.
  intros H. unfold on_connect. cbv zeta. apply processPendingEmits_live_inv. live_from H.
Qed.

Lemma run_listener_base l arg w : base w (run_listener l arg w).
Proof.
  destruct l; cbn [run_listener]; auto using on_connect_base with rel;
    unfold on_connect_error, on_reconnect, on_reconnect_attempt; cbv zeta; cases; peel.
Qed.

Lemma run_listener_live_inv l arg w : live_inv w -> live_inv (run_listener l arg w).
Proof.
  intros H. destruct l; cbn [run_listener]; auto using on_connect_live_inv;
    unfold on_connect_error, on_reconnect, on_reconnect_attempt; cbv zeta; cases;
    live_from H.
Qed.

Lemma on_base ev h w : base w (snd (on ev h w)).
Proof. unfold on. cbv zeta. proj. cases; cbn [snd]; peel. Qed.

Lemma on_live_inv ev h w : live_inv w -> live_inv (snd (on ev h w)).
Proof. intros H. unfold on. cbv zeta. proj. cases; cbn [snd]; live_from H. Qed.

Lemma off_base ev h w : base w (off ev h w).
Proof. unfold off. cbv zeta. proj. cases; peel. Qed.

Lemma off_live_inv ev h w : live_inv w -> live_inv (off ev h w).
Proof. intros H. unfold off. cbv zeta. proj. cases; live_from H. Qed.

Lemma removeAllListeners_base ev w : base w (removeAllListeners ev w).
Proof. unfold removeAllListeners. cbv zeta. proj. cases; peel. Qed.

Lemma removeAllListeners_live_inv ev w : live_inv w -> live_inv (removeAllListeners ev w).
Proof. intros H. unfold removeAllListeners. cbv zeta. proj. cases; live_from H. Qed.

Lemma handleVisibilityChange_base k v w : base w (handleVisibilityChange k v w).
Proof. unfold handleVisibilityChange. cbv zeta. cases; peel. Qed.

Lemma handleVisibilityChange_live_inv k v w :
  live_inv w -> live_inv (handleVisibilityChange k v w).
Proof.
  intros H. unfold handleVisibilityChange. cbv zeta. cases; [|exact H].
  apply connect_live_inv. live_from H.
Qed.

Lemma health_check_base k w : base w (health_check k w).
Proof. unfold health_check. cbv zeta. cases; peel. Qed.

Lemma health_check_live_inv k w : live_inv w -> live_inv (health_check k w).
Proof.
  intros H. unfold health_check. cbv zeta. cases; [|exact H].
  apply connect_live_inv, disconnect_live_inv. live_from H.
Qed.

Lemma ping_tick_calm w : calm w (ping_tick w).
Proof. unfold ping_tick. cases; peel. Qed.

#[local] Hint Resolve ping_tick_calm health_check_base handleVisibilityChange_base
  run_listener_base : rel.

Lemma fire_timer_base id w : base w (fire_timer id w).
Proof. unfold fire_timer. cases; peel. Qed.

Lemma fire_timer_live_inv id w : live_inv w -> live_inv (fire_timer id w).
Proof.
  intros H. unfold fire_timer. cases; try exact H.
  - apply connect_live_inv. live_from H.
  - live_from H.
  - now apply health_check_live_inv.
Qed.

(** *** Events *)

Lemma fold_left_inv {A} (P : World -> Prop) (f : World -> A -> World) :
  (forall w a, P w -> P (f w a)) -> forall l w, P w -> P (fold_left f l w).
Proof. intros Hf l. induction l; cbn; auto. Qed.

Lemma transport_flag_closed ev sk : sk_closed (transport_flag ev sk) = sk_closed sk.
Proof. unfold transport_flag. cases; reflexivity. Qed.

Lemma transport_flag_light s ev w : light w (update_socket s (transport_flag ev) w).
Proof.
  unfold light, base, handles, closed_flags. proj. repeat split; try grow.
  apply closed_flags_alter, transport_flag_closed.
Qed.

Lemma dispatch_live_inv ev w : live_inv w -> live_inv (fst (dispatch ev w)).
Proof.
  intros H. destruct ev; cbn [dispatch fst].
  - live_from H.
  - now apply connect_live_inv.
  - now apply disconnect_live_inv.
  - now apply emit_live_inv.
  - now apply on_live_inv.
  - now apply off_live_inv.
  - now apply removeAllListeners_live_inv.
  - cbv zeta. cbn [fst]. apply fold_left_inv.
    + intros; now apply run_listener_live_inv.
    + eapply handles_live_inv; [apply light_handles, transport_flag_light | exact H].
  - cases; cbn [fst]; trivial. live_from H.
  - now apply fire_timer_live_inv.
  - cases; cbn [fst]; trivial. now apply handleVisibilityChange_live_inv.
Qed.

Lemma dispatch_scopes ev w :
  scopes (fst (dispatch ev w)) = scopes w /\ env (fst (dispatch ev w)) = env w
  /\ visListener (fst (dispatch ev w)) = visListener w.
Proof.
  assert (B : forall w', base w w' ->
                scopes w' = scopes w /\ env w' = env w /\ visListener w' = visListener w)
    by (unfold base; tauto).
  destruct ev; cbn [dispatch fst]; try (apply B; auto with rel; fail).
  - proj. auto.
  - apply B, on_base.
  - apply B, off_base.
  - apply B, removeAllListeners_base.
  - cbv zeta. cbn [fst]. apply B.
    eapply base_trans;
      [|apply (fold_left_rel base);
        [apply base_refl | apply base_trans | intros; apply run_listener_base]].
    apply light_base, transport_flag_light.
  - cases; cbn [fst]; apply B; peel.
  - apply B, fire_timer_base.
  - cases; cbn [fst]; apply B; peel.
Qed.

(** *** Rendering *)

Lemma run_cleanups_outer prev sc w : outer w (run_cleanups prev sc w).
Proof. unfold run_cleanups. cbv zeta. cases; peel. Qed.

Lemma run_cleanups_live_inv prev sc w : live_inv w -> live_inv (run_cleanups prev sc w).
Proof.
  intros H. unfold run_cleanups. cbv zeta.
  assert (H1 : live_inv (if auto_changed prev sc && bool_decide (is_Some prev)
                         then disconnect w else w))
    by (destruct (_ && _); auto using disconnect_live_inv).
  revert H1. generalize (if auto_changed prev sc && bool_decide (is_Some prev)
                         then disconnect w else w). intros w1 H1.
  cases; live_from H1.
Qed.

Lemma run_cleanups_idle prev sc w :
  auto_changed prev sc = false -> idle w (run_cleanups prev sc w).
Proof. intros E. unfold run_cleanups. rewrite E. cbv zeta. cbn [andb]. cases; peel. Qed.

Lemma run_effects_outer prev k sc w : outer w (run_effects prev k sc w).
Proof. unfold run_effects. cbv zeta. cases; peel. Qed.

Lemma run_effects_live_inv prev k sc w : live_inv w -> live_inv (run_effects prev k sc w).
Proof.
  intros H. unfold run_effects. cbv zeta.
  set (w1 := if auto_changed prev sc then _ else w).
  assert (H1 : live_inv w1)
    by (subst w1; cases; auto using connect_live_inv, disconnect_live_inv).
  clearbody w1. cases; live_from H1.
Qed.

Lemma run_effects_idle prev k sc w :
  auto_changed prev sc = false -> idle w (run_effects prev k sc w).
Proof. intros E. unfold run_effects. rewrite E. cbv zeta. cases; peel. Qed.

Lemma render_outer w :
  scopes (render w) = scopes w ++ [render_scope w] /\ props (render w) = props w
  /\ env (render w) = env w
  /\ eventListeners (state (render w)) = eventListeners (state w)
  /\ pendingEmits (state (render w)) = pendingEmits (state w)
  /\ reconnectAttempts (state (render w)) = reconnectAttempts (state w).
Proof.
  unfold render. cbv zeta.
  set (w0 := set_scopes _ w).
  assert (O : outer w0 (run_effects (last (scopes w)) (length (scopes w)) (render_scope w)
                          (run_cleanups (last (scopes w)) (render_scope w) w0))).
  { eapply outer_trans; [apply run_cleanups_outer | apply run_effects_outer]. }
  destruct O as (-> & -> & -> & _ & -> & -> & -> & _). subst w0. proj. auto 10.
Qed.

Lemma render_live_inv w : live_inv w -> live_inv (render w).
Proof.
  intros H. unfold render. cbv zeta.
  apply run_effects_live_inv, run_cleanups_live_inv. live_from H.
Qed.

Lemma render_idle w :
  auto_changed (last (scopes w)) (render_scope w) = false ->
  state (render w) = state w /\ socketRef (render w) = socketRef w
  /\ sockets (render w) = sockets w /\ trace (render w) = trace w.
Proof.
  intros E. unfold render. cbv zeta.
  set (w0 := set_scopes _ w).
  assert (O : idle w0 (run_effects (last (scopes w)) (length (scopes w)) (render_scope w)
                          (run_cleanups (last (scopes w)) (render_scope w) w0))).
  { eapply idle_trans; [apply run_cleanups_idle | apply run_effects_idle]; exact E. }
  destruct O as (_ & _ & _ & _ & -> & -> & -> & _ & -> & _). subst w0. proj. auto.
Qed.

Lemma same_refl {A} `{EqDecision A} (a : A) : same a a = true.
Proof. unfold same. now apply bool_decide_eq_true. Qed.

Lemma same_eq {A} `{EqDecision A} (a b : A) : same a b = true -> a = b.
Proof. unfold same. now intros ?%bool_decide_eq_true. Qed.

(** A render right after a render finds every dependency of [connect]
    unchanged. *)
Lemma render_scope_stable w ps :
  last (scopes w) = Some ps -> sc_props ps = props w ->
  eventListeners (sc_state ps) = eventListeners (state w) ->
  reconnectAttempts (sc_state ps) = reconnectAttempts (state w) ->
  sc_connect (render_scope w) = sc_connect ps
  /\ auto_changed (Some ps) (render_scope w) = false.
Proof.
  intros L P E R.
  assert (C : sc_connect (render_scope w) = sc_connect ps).
  { unfold render_scope. cbv zeta. cbn [sc_connect]. rewrite L. cbn [memo].
    rewrite P, E, R, !same_refl. reflexivity. }
  split; [exact C|].
  unfold auto_changed. rewrite C.
  unfold render_scope. cbv zeta. cbn [sc_props]. rewrite P, !same_refl. reflexivity.
Qed.

Lemma settle_settled w : settled (settle w).
Proof.
  unfold settle.
  destruct (render_outer w) as (S1 & P1 & _ & E1 & _ & R1).
  set (w1 := render w) in *.
  assert (L : last (scopes w1) = Some (render_scope w)) by (rewrite S1; apply last_snoc).
  destruct (render_scope_stable w1 (render_scope w) L) as [_ A].
  { unfold render_scope. cbv zeta. cbn [sc_props]. congruence. }
  { unfold render_scope. cbv zeta. cbn [sc_state]. congruence. }
  { unfold render_scope. cbv zeta. cbn [sc_state]. congruence. }
  rewrite <- L in A.
  destruct (render_idle w1 A) as (St & _).
  destruct (render_outer w1) as (S2 & P2 & _).
  exists (render_scope w1). rewrite S2, last_snoc, St, P2.
  unfold render_scope. cbv zeta. cbn [sc_state sc_props]. auto.
Qed.

Lemma scope_at_app w sc k (w' : World) :
  scopes w' = scopes w ++ [sc] -> (k < length (scopes w))%nat ->
  scope_at w' k = scope_at w k.
Proof. intros E H. unfold scope_at. rewrite E, lookup_app_l by trivial. reflexivity. Qed.

Lemma scope_at_new w sc (w' : World) :
  scopes w' = scopes w ++ [sc] -> scope_at w' (length (scopes w)) = sc.
Proof.
  intros E. unfold scope_at. rewrite E, lookup_app_r by lia.
  now rewrite Nat.sub_diag.
Qed.

Lemma render_scope_emit w :
  sc_emit (render_scope w) =
  memo (length (scopes w)) (last (scopes w))
       (fun ps => same (isConnected (sc_state ps)) (isConnected (state w))
                  && same (isConnecting (sc_state ps)) (isConnecting (state w))
                  && same (sc_connect ps) (sc_connect (render_scope w))) sc_emit.
Proof. reflexivity. Qed.

Lemma render_scope_state w :
  sc_state (render_scope w) = state w /\ sc_props (render_scope w) = props w.
Proof. split; reflexivity. Qed.

Lemma render_memo_ok w : memo_ok w -> memo_ok (render w).
Proof.
  intros M sc L.
  destruct (render_outer w) as (S1 & _).
  rewrite S1, last_snoc in L. injection L as <-.
  rewrite S1, length_app. cbn [length].
  destruct (render_scope_state w) as [St _].
  rewrite render_scope_emit, St.
  destruct (last (scopes w)) as [ps|] eqn:Lw; cbn [memo].
  - destruct (M ps Lw) as (Hlt & Hc & Hg & Hn).
    match goal with |- context [if ?b then _ else _] => destruct b eqn:D end.
    + apply andb_true_iff in D as [D D3]. apply andb_true_iff in D as [D1 D2].
      apply same_eq in D1, D2, D3.
      rewrite (scope_at_app w _ _ _ S1 Hlt).
      repeat split; try congruence. lia.
    + rewrite (scope_at_new w _ _ S1), St.
      repeat split; trivial. lia.
  - rewrite (scope_at_new w _ _ S1), St.
    repeat split; trivial. lia.
Qed.

Lemma kept_scopes_memo_ok w w' : scopes w' = scopes w -> memo_ok w -> memo_ok w'.
Proof. unfold memo_ok, scope_at. intros ->. trivial. Qed.

(** *** What connect and disconnect do to the handles *)

Lemma still_sock_obs a b : still a b -> sock_obs (trace b) = sock_obs (trace a).
Proof. unfold still, calm. tauto. Qed.

Lemma calm_sock_obs a b : calm a b -> sock_obs (trace b) = sock_obs (trace a).
Proof. unfold calm. tauto. Qed.

Lemma sock_disconnect_obs s w :
  sock_obs (trace (sock_disconnect s w)) = sock_obs (trace w) ++ [OSockClose s].
Proof.
  unfold sock_disconnect.
  set (w1 := update_socket s _ _).
  assert (H1 : sock_obs (trace w1) = sock_obs (trace w) ++ [OSockClose s])
    by (subst w1; proj; now rewrite sock_obs_app).
  destruct (sk_connected _); [|exact H1].
  now rewrite (still_sock_obs _ _ (fire_close_fold_still _ w1)).
Qed.

Lemma teardown_spec w :
  let w' := match socketRef w with
            | Some s => set_socketRef None (sock_disconnect s w)
            | None => w
            end in
  socketRef w' = None
  /\ closed_flags w' = closed_after_teardown w
  /\ sock_obs (trace w') = sock_obs (trace w) ++ closes w.
Proof.
  unfold closes, closed_after_teardown. destruct (socketRef w) as [s|] eqn:E; cbv zeta.
  - destruct (sock_disconnect_flags s w) as [_ F].
    unfold closed_flags in *. proj. rewrite F, sock_disconnect_obs. auto.
  - rewrite app_nil_r. auto.
Qed.

Lemma closed_after_teardown_length w :
  length (closed_after_teardown w) = length (sockets w).
Proof.
  unfold closed_after_teardown, closed_flags.
  destruct (socketRef w); now rewrite ?length_alter, length_fmap.
Qed.

Lemma closed_after_teardown_all w s :
  live_inv w -> closed_after_teardown w !! s <> Some false.
Proof.
  intros H Hs. unfold closed_after_teardown in Hs.
  destruct (socketRef w) as [r|] eqn:E.
  - destruct (decide (r = s)) as [->|Hne].
    + rewrite list_lookup_alter_eq in Hs. destruct (closed_flags w !! s); discriminate.
    + rewrite list_lookup_alter_ne in Hs by trivial.
      apply live_flags, H in Hs. congruence.
  - apply live_flags, H in Hs. congruence.
Qed.

Lemma disconnect_spec w :
  closed_flags (disconnect w) = closed_after_teardown w
  /\ sock_obs (trace (disconnect w)) = sock_obs (trace w) ++ closes w.
Proof.
  unfold disconnect. cbv zeta.
  destruct (teardown_spec w) as (_ & F & O). revert F O.
  generalize (match socketRef w with
         | Some s => set_socketRef None (sock_disconnect s w)
         | None => w
         end). intros w1 F O.
  rewrite <- F, <- O.
  match goal with |- closed_flags ?x = _ /\ _ => assert (C : calm w1 x) by (cases; peel) end.
  destruct C as (_ & _ & -> & ->). auto.
Qed.

(** [connect] either leaves the number of handles alone, or closes the
    current handle, then creates and opens a new one. *)
Lemma connect_cases c w :
  (length (sockets (connect c w)) = length (sockets w)
   /\ (sock_obs (trace (connect c w)) = sock_obs (trace w)
       \/ sock_obs (trace (connect c w)) = sock_obs (trace w) ++ closes w))
  \/ (socketRef (connect c w) = Some (length (sockets w))
      /\ closed_flags (connect c w) = closed_after_teardown w ++ [false]
      /\ sock_obs (trace (connect c w)) =
         sock_obs (trace w) ++ closes w
           ++ [OSockNew (length (sockets w)); OSockOpen (length (sockets w))]).
Proof.
  assert (Len : forall a b, closed_flags a = closed_flags b ->
                            length (sockets a) = length (sockets b)).
  { unfold closed_flags. intros a b E. apply (f_equal length) in E.
    now rewrite !length_fmap in E. }
  assert (HL : forall a b, handles a b -> length (sockets b) = length (sockets a)).
  { intros a b [_ E]. now apply Len. }
  unfold connect. cbv zeta.
  destruct (_ || _);
    [left; split; [apply HL; peel | left; apply calm_sock_obs; peel]|].
  destruct (ref_connected w);
    [left; split; [apply HL; peel | left; apply calm_sock_obs; peel]|].
  destruct (isConnecting _);
    [left; split; [apply HL; peel | left; apply calm_sock_obs; peel]|].
  set (w1 := setConnectionError None (setIsConnecting true w)).
  assert (S1 : still w w1) by (subst w1; peel).
  assert (R1 : socketRef w1 = socketRef w) by (subst w1; reflexivity).
  assert (F1 : closed_flags w1 = closed_flags w) by (subst w1; reflexivity).
  assert (T1 : trace w1 = trace w) by (subst w1; reflexivity).
  destruct (teardown_spec w1) as (R & F & O).
  set (w2 := match socketRef w1 with
             | Some s => set_socketRef None (sock_disconnect s w1)
             | None => w1
             end) in *.
  unfold closes, closed_after_teardown in F, O. rewrite R1, F1 in F. rewrite R1, T1 in O.
  fold (closes w) in O. fold (closed_after_teardown w) in F.
  clearbody w2. clear w1 S1 R1 F1 T1.
  assert (L2 : length (sockets w2) = length (sockets w)).
  { rewrite <- (closed_after_teardown_length w), <- F. unfold closed_flags.
    now rewrite length_fmap. }
  unfold createSocket. destruct (_ || _).
  - left. split; [rewrite <- L2; apply HL; peel|].
    right. rewrite <- O. apply calm_sock_obs. peel.
  - right. unfold sock_new. cbv zeta. proj.
    set (w3 := set_socketRef _ _).
    match goal with |- socketRef ?x = _ /\ _ => assert (C : handles w3 x) by peel;
      assert (T : sock_obs (trace x) = sock_obs (trace w3) ++ [OSockOpen (length (sockets w2))])
    end.
    { unfold startPingInterval, sock_connect.
      match goal with |- context [register_listeners ?a ?b ?x] =>
        pose proof (calm_sock_obs _ _ (register_listeners_calm a b x)) as Q;
        assert (Q0 : calm w3 x) by peel; apply calm_sock_obs in Q0;
        revert Q Q0; generalize (register_listeners a b x); intros w4 Q Q0 end.
      cases; proj; rewrite !sock_obs_app; cbn [sock_obs List.filter is_sock_obs];
        rewrite ?app_nil_r; congruence. }
    destruct C as [-> ->]. rewrite T. subst w3. unfold closed_flags in *. proj.
    rewrite L2, fmap_app, F, sock_obs_app, O, <- !app_assoc. auto.
Qed.

(** *** disconnect, once more *)

Lemma disconnect_refs w :
  socketRef (disconnect w) = None /\ pingIntervalRef (disconnect w) = None
  /\ reconnectTimeoutRef (disconnect w) = None
  /\ isConnected (state (disconnect w)) = false
  /\ isConnecting (state (disconnect w)) = false
  /\ connectionError (state (disconnect w)) = None.
Proof. unfold disconnect. proj. cases; auto 10. Qed.

Lemma setIsConnected_same w : setIsConnected (isConnected (state w)) w = w.
Proof. destruct w as [? ? ? ? ? ? [] ? ? ? ? ? ? ? ? ?]. reflexivity. Qed.

Lemma setIsConnecting_same w : setIsConnecting (isConnecting (state w)) w = w.
Proof. destruct w as [? ? ? ? ? ? [] ? ? ? ? ? ? ? ? ?]. reflexivity. Qed.

Lemma setConnectionError_same w : setConnectionError (connectionError (state w)) w = w.
Proof. destruct w as [? ? ? ? ? ? [] ? ? ? ? ? ? ? ? ?]. reflexivity. Qed.

Lemma forget_console_log m w : forget_trace (console_log m w) = forget_trace w.
Proof. reflexivity. Qed.

Lemma disconnect_at_rest w :
  socketRef w = None -> pingIntervalRef w = None -> reconnectTimeoutRef w = None ->
  isConnected (state w) = false -> isConnecting (state w) = false ->
  connectionError (state w) = None ->
  disconnect w = console_log "WebSocket disconnected" w.
Proof.
  intros H1 H2 H3 H4 H5 H6. unfold disconnect. rewrite H1. cbv zeta.
  replace (setIsConnected false w) with w
    by (rewrite <- H4 at 1; symmetry; apply setIsConnected_same).
  replace (setIsConnecting false w) with w
    by (rewrite <- H5 at 1; symmetry; apply setIsConnecting_same).
  replace (setConnectionError None w) with w
    by (rewrite <- H6 at 1; symmetry; apply setConnectionError_same).
  rewrite H2, H3. reflexivity.
Qed.

Lemma disconnect_twice w :
  forget_trace (disconnect (disconnect w)) = forget_trace (disconnect w).
Proof.
  destruct (disconnect_refs w) as (H1 & H2 & H3 & H4 & H5 & H6).
  now rewrite (disconnect_at_rest (disconnect w)), forget_console_log.
Qed.

Lemma teardown_timers w :
  let w' := match socketRef w with
            | Some s => set_socketRef None (sock_disconnect s w)
            | None => w
            end in
  timers w' = timers w /\ pingIntervalRef w' = pingIntervalRef w
  /\ reconnectTimeoutRef w' = reconnectTimeoutRef w.
Proof.
  destruct (socketRef w) as [s|]; cbv zeta; [|auto]. proj.
  unfold sock_disconnect.
  set (w1 := update_socket s _ _).
  assert (S1 : still w1 (if sk_connected (socket_at w s)
                         then fold_left (fun w l => fire_close l w)
                                (listeners_of SOCKET_EVENTS.DISCONNECT (socket_at w s)) w1
                         else w1))
    by (destruct (sk_connected _); auto using still_refl, fire_close_fold_still).
  destruct S1 as (_ & _ & -> & -> & ->). subst w1. proj. auto.
Qed.

Lemma disconnect_timers w :
  timers (disconnect w) =
  clear_ref (reconnectTimeoutRef w) (clear_ref (pingIntervalRef w) (timers w)).
Proof.
  unfold disconnect. cbv zeta.
  destruct (teardown_timers w) as (T & P & R). revert T P R.
  generalize (match socketRef w with
         | Some s => set_socketRef None (sock_disconnect s w)
         | None => w
         end). intros w1 T P R.
  proj. rewrite P. destruct (pingIntervalRef w); proj; rewrite R;
    destruct (reconnectTimeoutRef w); proj; rewrite T; reflexivity.
Qed.

Lemma clear_ref_cleared r l t : r = Some t -> default None (clear_ref r l !! t) = None.
Proof.
  intros ->. cbn. destruct (decide (t < length l)%nat).
  - now rewrite list_lookup_insert_eq.
  - now rewrite lookup_ge_None_2 by (rewrite length_insert; lia).
Qed.

Lemma clear_ref_keeps_cleared r l t :
  default None (l !! t) = None -> default None (clear_ref r l !! t) = None.
Proof.
  intros H. destruct r as [t'|]; cbn; [|exact H].
  destruct (decide (t' = t)) as [->|Hne].
  - now apply (clear_ref_cleared (Some t) l t).
  - now rewrite list_lookup_insert_ne.
Qed.

(** *** emit, branch by branch *)

Lemma emit_connected e ev data cb w s :
  socketRef w = Some s -> isConnected (sc_state (scope_at w e)) = true ->
  emit e ev data cb w =
  match send_throws (env w) ev with
  | Some message =>
      (call_callback cb (ArgObj (error_result message))
         (console_log "Emit error:" (set_uuid_calls (S (uuid_calls w)) w)), Returned)
  | None =>
      (emitObs (OSend s ev (emitData data (now w) (randomUUID (env w) (uuid_calls w)))
                      (Some (length (sk_acks (socket_at w s)))))
         (update_socket s (push_ack cb) (set_uuid_calls (S (uuid_calls w)) w)), Returned)
  end.
Proof.
  intros Hs Hc. unfold emit. rewrite Hs. cbv zeta. rewrite Hc.
  unfold sock_emit. proj. destruct (send_throws (env w) ev); reflexivity.
Qed.

Lemma emit_queued e ev data cb w :
  socketRef w = None \/ isConnected (sc_state (scope_at w e)) = false ->
  emit e ev data cb w =
  (if isConnecting (sc_state (scope_at w e))
   then enqueue ev data cb w
   else connect (sc_connect (scope_at w e)) (enqueue ev data cb w), Returned).
Proof.
  intros H. unfold emit, enqueue. cbv zeta.
  destruct (socketRef w) as [s|]; [destruct H as [H|H]; [discriminate|rewrite H]|];
    proj; destruct (isConnecting _); reflexivity.
Qed.

Lemma enqueue_facts ev data cb w :
  a_items (pendingEmits (state (enqueue ev data cb w))) =
     a_items (pendingEmits (state w)) ++ [mkPending ev data cb]
  /\ trace (enqueue ev data cb w) =
     trace w ++ match cb with
                | Some c => [OCallback c (ArgObj queued_result)]
                | None => []
                end
  /\ light w (enqueue ev data cb w)
  /\ sockets (enqueue ev data cb w) = sockets w.
Proof.
  unfold enqueue. split; [|split; [|split]].
  - destruct cb; reflexivity.
  - destruct cb; proj; [reflexivity|now rewrite app_nil_r].
  - peel.
  - destruct cb; reflexivity.
Qed.

Lemma added_app w w' more : trace w' = trace w ++ more -> added w w' = more.
Proof. intros E. unfold added. now rewrite E, drop_app_length. Qed.

Lemma reachable_mounted : reachable mounted.
Proof. exists demo_env, alice, 1000, []. unfold mounted, run. cbn [fold_left]. reflexivity. Defined.

Lemma reachable_run e p t evs : reachable (run (mount e p t) evs).
Proof. exists e, p, t, evs. reflexivity. Defined.

(** *** A fresh connect and its flags *)

Lemma register_listeners_state s m w : state (register_listeners s m w) = state w.
Proof.
  unfold register_listeners.
  apply (fold_left_rel (fun a b => state b = state a)); [reflexivity|congruence|].
  intros w0 entry. generalize (default [] (sets w0 !! snd entry)). intros fs.
  apply (fold_left_rel (fun a b => state b = state a)); [reflexivity|congruence|].
  reflexivity.
Qed.

Lemma connect_fresh c w :
  socketRef w = None ->
  truthy_user (user (sc_props (scope_at w c))) = true ->
  truthy_string (token (sc_props (scope_at w c))) = true ->
  truthy_user (user (sc_props (scope_at w (sc_createSocket (scope_at w c))))) = true ->
  truthy_string (token (sc_props (scope_at w (sc_createSocket (scope_at w c))))) = true ->
  isConnecting (sc_state (scope_at w c)) = false ->
  socketRef (connect c w) = Some (length (sockets w))
  /\ sock_obs (trace (connect c w)) =
     sock_obs (trace w) ++ [OSockNew (length (sockets w)); OSockOpen (length (sockets w))]
  /\ isConnecting (state (connect c w)) = true
  /\ isConnected (state (connect c w)) = isConnected (state w)
  /\ lastActivity (state (connect c w)) = lastActivity (state w).
Proof.
  intros R U T U' T' G.
  assert (St : state (connect c w) = state (setConnectionError None (setIsConnecting true w))).
  { unfold connect. cbv zeta. rewrite U, T, G. unfold ref_connected. rewrite R.
    cbn [negb orb]. proj. rewrite R. unfold createSocket. proj.
    unfold scope_at in U', T' |- *. proj. rewrite U', T'. cbn [negb orb].
    unfold sock_new. cbv zeta. unfold startPingInterval, sock_connect.
    match goal with |- context [register_listeners ?a ?b ?x] =>
      pose proof (register_listeners_state a b x) as Q;
      revert Q; generalize (register_listeners a b x); intros w4 Q end.
    cases; proj; rewrite Q; reflexivity. }
  destruct (connect_cases c w) as [[E _]|(Hr & _ & Ho)].
  - exfalso. revert E. unfold connect. cbv zeta. rewrite U, T, G. unfold ref_connected.
    rewrite R. cbn [negb orb]. proj. rewrite R. unfold createSocket. proj.
    unfold scope_at in U', T' |- *. proj. rewrite U', T'. cbn [negb orb].
    unfold sock_new. cbv zeta.
    match goal with |- context [set_socketRef ?r ?y] => set (w3 := set_socketRef r y) end.
    match goal with |- length (sockets ?x) = _ -> _ =>
      assert (C : handles w3 x) by peel
    end.
    destruct C as [_ C]. unfold closed_flags in C. apply (f_equal length) in C.
    rewrite !length_fmap in C. rewrite C. subst w3. proj. rewrite length_app. cbn. lia.
  - unfold closes in Ho. rewrite R in Ho. cbn [app] in Ho.
    rewrite St. proj. auto.
Qed.

(** *** What a render does to the listeners and timers of its effects *)

Lemma base_visListener a b : base a b -> visListener b = visListener a.
Proof. unfold base. tauto. Qed.

Lemma base_healthTimer a b : base a b -> healthTimer b = healthTimer a.
Proof. unfold base. tauto. Qed.

Lemma run_cleanups_visListener prev sc w :
  visListener (run_cleanups prev sc w) =
  if visibility_changed prev sc then None else visListener w.
Proof.
  unfold run_cleanups. cbv zeta.
  set (w1 := if auto_changed prev sc && bool_decide (is_Some prev) then disconnect w else w).
  assert (V1 : visListener w1 = visListener w).
  { subst w1. destruct (_ && _); [rewrite (base_visListener _ _ (disconnect_base w))|];
      reflexivity. }
  clearbody w1. cases; proj; trivial.
Qed.

Lemma run_effects_visListener prev k sc w :
  visListener (run_effects prev k sc w) =
  if visibility_changed prev sc then Some k else visListener w.
Proof.
  unfold run_effects. cbv zeta.
  set (w1 := if auto_changed prev sc then _ else w).
  assert (V1 : visListener w1 = visListener w).
  { subst w1. cases; rewrite ?(base_visListener _ _ (connect_base _ w)),
                        ?(base_visListener _ _ (disconnect_base w)); reflexivity. }
  clearbody w1. cases; proj; trivial.
Qed.

Lemma render_visListener w :
  visListener (render w) =
  if visibility_changed (last (scopes w)) (render_scope w)
  then Some (length (scopes w)) else visListener w.
Proof.
  unfold render. cbv zeta.
  rewrite run_effects_visListener, run_cleanups_visListener.
  destruct (visibility_changed _ _); reflexivity.
Qed.

Lemma render_health w :
  auto_changed (last (scopes w)) (render_scope w) = false ->
  healthTimer (render w) =
    (if health_changed (last (scopes w)) (render_scope w)
     then if negb (isConnected (state w)) || negb (truthy_number (lastActivity (state w)))
          then None
          else Some (length (timers w))
     else healthTimer w)
  /\ (forall t, healthTimer w = Some t -> (t < length (timers w))%nat ->
      health_changed (last (scopes w)) (render_scope w) = true ->
      timer_at (render w) t = None)
  /\ (health_changed (last (scopes w)) (render_scope w) = false ->
      timers (render w) = timers w).
Proof.
  intros A. unfold render, run_effects, run_cleanups. rewrite A. cbv zeta. cbn [andb].
  set (prev := last (scopes w)). set (sc := render_scope w).
  change (sc_state sc) with (state w).
  split.
  - destruct (health_changed prev sc), (visibility_changed prev sc); proj;
      destruct (healthTimer w) eqn:E; proj; cases; proj;
      rewrite ?length_insert, ?E; reflexivity.
  - split.
    + intros t Ht Hlt Hc. rewrite Hc. unfold timer_at.
      destruct (visibility_changed prev sc); proj; rewrite Ht; proj; cases; proj;
        rewrite ?lookup_app_l by (now rewrite length_insert);
        apply (clear_ref_cleared (Some t) (timers w) t eq_refl).
    + intros Hc. rewrite Hc. destruct (visibility_changed prev sc); reflexivity.
Qed.

Lemma render_health_off w :
  auto_changed (last (scopes w)) (render_scope w) = false ->
  health_changed (last (scopes w)) (render_scope w) = true ->
  isConnected (state w) = false ->
  healthTimer (render w) = None
  /\ forall t, healthTimer w = Some t -> timer_at (render w) t = None.
Proof.
  intros A H C. unfold render, run_effects, run_cleanups. rewrite A, H. cbv zeta. cbn [andb].
  set (prev := last (scopes w)). set (sc := render_scope w).
  change (sc_state sc) with (state w). rewrite C. cbn [negb orb].
  split.
  - destruct (visibility_changed prev sc); proj;
      destruct (healthTimer w) eqn:E; proj; cases; proj; rewrite ?E; reflexivity.
  - intros t Ht. unfold timer_at.
    destruct (visibility_changed prev sc); proj; rewrite Ht; proj; cases; proj;
      apply (clear_ref_cleared (Some t) (timers w) t eq_refl).
Qed.

Lemma render_health_same w :
  auto_changed (last (scopes w)) (render_scope w) = false ->
  health_changed (last (scopes w)) (render_scope w) = false ->
  healthTimer (render w) = healthTimer w /\ timers (render w) = timers w.
Proof.
  intros A H. destruct (render_health w A) as (E & _ & T). rewrite H in E. auto.
Qed.

(** The interval callback of the health effect, on a breach. *)
Lemma health_check_breach k w la :
  lastActivity (sc_state (scope_at w k)) = Some la -> 60000 < now w - la ->
  health_check k w =
  connect (sc_connect (scope_at w k))
          (disconnect (console_log "No activity for 60 seconds, reconnecting..." w)).
Proof.
  intros L B. unfold health_check. cbv zeta. rewrite L.
  change (default 0 (Some la)) with la.
  apply Z.ltb_lt in B. rewrite B. reflexivity.
Qed.

(** *** Invariants of reachable worlds *)

Lemma render_vis_ok w : vis_ok w -> vis_ok (render w).
Proof.
  intros V sc L.
  destruct (render_outer w) as (S1 & _).
  rewrite S1, last_snoc in L. injection L as <-.
  rewrite render_visListener, S1, length_app. cbn [length].
  destruct (visibility_changed _ _) eqn:D.
  - exists (length (scopes w)). rewrite (scope_at_new w _ _ S1).
    repeat split; trivial. lia.
  - unfold visibility_changed in D.
    destruct (last (scopes w)) as [ps|] eqn:Lw; [|discriminate].
    apply negb_false_iff in D.
    apply andb_true_iff in D as [D D4]. apply andb_true_iff in D as [D D3].
    apply andb_true_iff in D as [D1 D2]. apply same_eq in D1, D2, D3, D4.
    destruct (V ps Lw) as (k & Hk & Hlt & H1 & H2 & H3 & H4).
    exists k. rewrite (scope_at_app w _ _ _ S1 Hlt).
    repeat split; try congruence. lia.
Qed.

Lemma kept_scopes_vis_ok w w' :
  scopes w' = scopes w -> visListener w' = visListener w -> vis_ok w -> vis_ok w'.
Proof. unfold vis_ok, scope_at. intros -> ->. trivial. Qed.

Lemma settle_inv w : live_inv w -> memo_ok w -> vis_ok w -> inv (settle w).
Proof.
  intros L M V. split; [|split; [|split]].
  - unfold settle. auto using render_live_inv.
  - apply settle_settled.
  - unfold settle. auto using render_memo_ok.
  - unfold settle. auto using render_vis_ok.
Qed.

Lemma step_inv w tev : inv w -> inv (step w tev).
Proof.
  intros (L & _ & M & V). unfold step.
  destruct (dispatch_scopes (snd tev) (set_now (fst tev) w)) as (S & _ & Vs).
  apply settle_inv.
  - apply dispatch_live_inv. eapply handles_live_inv; [apply set_now_handles | exact L].
  - eapply kept_scopes_memo_ok; [|exact M]. now rewrite S.
  - eapply kept_scopes_vis_ok; [| |exact V]; [now rewrite S|now rewrite Vs].
Qed.

Lemma run_inv evs w : inv w -> inv (run w evs).
Proof.
  revert w. induction evs as [|ev evs IH]; intros w H; cbn; [exact H|].
  apply IH, step_inv, H.
Qed.

Lemma mount_inv e p t : inv (mount e p t).
Proof.
  apply settle_inv.
  - intros s (sk & Hs & _). discriminate.
  - intros sc Hsc. discriminate.
  - intros sc Hsc. discriminate.
Qed.

Lemma reachable_inv w : reachable w -> inv w.
Proof. intros (e & p & t & evs & ->). apply run_inv, mount_inv. Qed.

Lemma reachable_step w tev : reachable w -> reachable (step w tev).
Proof.
  intros (e & p & t & evs & ->). exists e, p, t, (evs ++ [tev]).
  unfold run. now rewrite fold_left_app.
Qed.



Lemma reachable_more w evs : reachable w -> reachable (run w evs).
Proof.
  intros (e & p & t & evs0 & ->). exists e, p, t, (evs0 ++ evs).
  unfold run. now rewrite fold_left_app.
Defined.

Lemma connect_isConnected c w :
  socketRef w = None -> isConnected (state (connect c w)) = isConnected (state w).
Proof.
  intros R. unfold connect. cbv zeta.
  destruct (_ || _); [reflexivity|].
  destruct (ref_connected w); [reflexivity|].
  destruct (isConnecting _); [reflexivity|].
  proj. rewrite R. unfold createSocket. cbv zeta.
  destruct (_ || _); [reflexivity|].
  unfold sock_new. cbv zeta. unfold startPingInterval, sock_connect.
  match goal with |- context [register_listeners ?a ?b ?x] =>
    pose proof (register_listeners_state a b x) as Q;
    revert Q; generalize (register_listeners a b x); intros w4 Q end.
  cases; proj; rewrite Q; reflexivity.
Qed.

(** *** The listener of "connect" and the registry, in general *)

Lemma on_connect_empty_capture c w :
  a_items (pendingEmits (sc_state (scope_at w (sc_processPendingEmits (scope_at w c))))) = [] ->
  pendingEmits (state (on_connect c w)) = pendingEmits (state w)
  /\ sent_events (added w (on_connect c w)) = [].
Proof.
  intros E. unfold on_connect. cbv zeta. unfold processPendingEmits. cbv zeta.
  unfold scope_at in *. proj. rewrite E. cbn [length Nat.ltb Nat.leb andb fst].
  split; [reflexivity|].
  rewrite (added_app _ _ [OLog "WebSocket connected successfully";
                          OTrack "websocket_connected";
                          ONotify "success" "Connected to Changex Neurix servers"]).
  - reflexivity.
  - proj. now rewrite <- !app_assoc.
Qed.

Lemma remove_first_keeps {A} (test : A -> bool) (x : A) (l : list A) :
  In x l -> test x = false -> In x (remove_first test l).
Proof.
  intros Hin Hx. induction l as [|y l IH]; cbn; [destruct Hin|].
  destruct Hin as [->|Hin].
  - rewrite Hx. now left.
  - destruct (test y); [exact Hin|]. right. now apply IH.
Qed.

(** What [on] then [off] with the same function leave on the current
    handle. *)
Lemma on_off_keeps_wrapper ev h w s sk :
  socketRef w = Some s -> sockets w !! s = Some sk ->
  In (ev, LFn (FLogged (next_id w) ev (FUser h)))
     (sk_listeners (socket_at (off ev (FUser h) (snd (on ev (FUser h) w))) s)).
Proof.
  intros Hs Hk.
  assert (On : socketRef (snd (on ev (FUser h) w)) = Some s
               /\ sockets (snd (on ev (FUser h) w))
                  = alter (fun sk => mkSocket (sk_connected sk) (sk_closed sk)
                             (sk_listeners sk ++ [(ev, LFn (FLogged (next_id w) ev (FUser h)))])
                             (sk_acks sk)) s (sockets w)).
  { unfold on. cbv zeta. proj.
    destruct (map_get ev (m_entries (eventListeners (state w)))) as [r|] eqn:G; proj.
    - rewrite G. proj. rewrite Hs. unfold sock_on. proj. auto.
    - destruct (map_get ev (m_entries (eventListeners (state w)) ++ _)); proj;
        rewrite Hs; unfold sock_on; proj; auto. }
  destruct On as [R S]. revert R S. generalize (snd (on ev (FUser h) w)). intros w1 R S.
  assert (Off : sockets (off ev (FUser h) w1)
                = alter (fun sk => mkSocket (sk_connected sk) (sk_closed sk)
                           (remove_first (is_fn ev (FUser h)) (sk_listeners sk))
                           (sk_acks sk)) s (sockets w1)).
  { unfold off. cbv zeta. proj.
    destruct (map_get ev (m_entries (eventListeners (state w1)))) as [r|]; proj;
      [destruct (_ =? _)%nat; proj|]; rewrite R; unfold sock_off; proj; reflexivity. }
  unfold socket_at. rewrite Off, S, !list_lookup_alter_eq, Hk. cbn.
  apply remove_first_keeps.
  - apply in_or_app. right. now left.
  - unfold is_fn. cbn. apply andb_false_r.
Qed.

(** ** Support for the further properties *)

(** *** Induction over the reachable worlds *)

Lemma reachable_ind (Q : World -> Prop) :
  (forall e p t, Q (initial e p t)) ->
  (forall w, Q w -> Q (render w)) ->
  (forall w t ev, Q w -> Q (fst (dispatch ev (set_now t w)))) ->
  forall w, reachable w -> Q w.
Proof.
  intros Hi Hr Hd w (e & p & t & evs & ->).
  assert (Hs : forall w tev, Q w -> Q (step w tev)).
  { intros w tev H. unfold step, settle. auto. }
  assert (Hm : Q (mount e p t)) by (unfold mount, settle; auto).
  revert Hm. generalize (mount e p t).
  induction evs as [|ev evs IH]; intros w H; cbn; [exact H|]. apply IH, Hs, H.
Qed.

Lemma last_lookup_Some {A} (l : list A) x :
  last l = Some x -> l !! (length l - 1)%nat = Some x /\ (0 < length l)%nat.
Proof.
  rewrite last_lookup. intros H. destruct l; [discriminate|].
  cbn [length] in *. replace (S (length l) - 1)%nat with (Nat.pred (S (length l))) by lia.
  split; [exact H | lia].
Qed.

Lemma render_scope_createSocket w :
  sc_createSocket (render_scope w) =
  memo (length (scopes w)) (last (scopes w))
       (fun ps => same (user (sc_props ps)) (user (props w))
                  && same (token (sc_props ps)) (token (props w))
                  && same (refreshToken (sc_props ps)) (refreshToken (props w)))
       sc_createSocket.
Proof. reflexivity. Qed.

Lemma render_scope_connect_le w ps :
  last (scopes w) = Some ps ->
  sc_connect (render_scope w) = sc_connect ps
  \/ sc_connect (render_scope w) = length (scopes w).
Proof.
  intros L. unfold render_scope. cbv zeta. cbn [sc_connect]. rewrite L. unfold memo.
  repeat match goal with |- context [if ?b then _ else _] => destruct b end; auto.
Qed.

Lemma render_closures_ok w : closures_ok w -> closures_ok (render w).
Proof.
  intros C k sc Hk.
  destruct (render_outer w) as (S1 & _).
  rewrite S1 in Hk.
  destruct (decide (k < length (scopes w))%nat) as [Hlt|Hge].
  - rewrite lookup_app_l in Hk by trivial.
    destruct (C k sc Hk) as (H1 & H2 & H3 & H4).
    rewrite (scope_at_app w _ _ _ S1) by lia.
    auto.
  - rewrite lookup_app_r in Hk by lia.
    assert (k = length (scopes w)) as ->.
    { apply lookup_lt_Some in Hk. cbn in Hk. lia. }
    rewrite Nat.sub_diag in Hk. injection Hk as <-.
    assert (Hcs : (sc_createSocket (render_scope w) <= length (scopes w))%nat
                  /\ user (sc_props (scope_at (render w) (sc_createSocket (render_scope w))))
                     = user (props w)
                  /\ token (sc_props (scope_at (render w) (sc_createSocket (render_scope w))))
                     = token (props w)).
    { rewrite render_scope_createSocket. unfold memo.
      destruct (last (scopes w)) as [ps|] eqn:L.
      - apply last_lookup_Some in L as (L & Hpos).
        destruct (C _ _ L) as (H1 & H2 & H3 & H4).
        match goal with |- context [if ?b then _ else _] => destruct b eqn:D end.
        + apply andb_true_iff in D as [D D3]. apply andb_true_iff in D as [D1 D2].
          apply same_eq in D1, D2.
          rewrite (scope_at_app w _ _ _ S1) by lia.
          repeat split; [lia|congruence|congruence].
        + rewrite (scope_at_new w _ _ S1). repeat split; trivial.
      - rewrite (scope_at_new w _ _ S1). repeat split; trivial. }
    destruct Hcs as (H1 & H3 & H4).
    repeat split; trivial.
    destruct (last (scopes w)) as [ps|] eqn:L.
    + destruct (render_scope_connect_le w ps L) as [-> | ->]; [|lia].
      apply last_lookup_Some in L as (L & Hpos).
      destruct (C _ _ L) as (_ & H2 & _). lia.
    + unfold render_scope. rewrite L. cbn. lia.
Qed.

Lemma scopes_closures_ok (w w' : World) : scopes w' = scopes w -> closures_ok w -> closures_ok w'.
Proof. unfold closures_ok, scope_at. intros ->. trivial. Qed.

Lemma reachable_closures_ok w : reachable w -> closures_ok w.
Proof.
  apply reachable_ind.
  - intros e p t k sc H. discriminate.
  - apply render_closures_ok.
  - intros w0 t ev H. eapply scopes_closures_ok; [|exact H].
    now destruct (dispatch_scopes ev (set_now t w0)) as (-> & _).
Qed.

(** *** The handle [connect] creates *)

Lemma socket_at_update_eq s f w :
  (s < length (sockets w))%nat ->
  socket_at (update_socket s f w) s = f (socket_at w s).
Proof.
  intros H. unfold socket_at, update_socket. proj.
  rewrite list_lookup_alter_eq.
  destruct (lookup_lt_is_Some_2 (sockets w) s H) as [sk ->]. reflexivity.
Qed.

Lemma socket_at_update_ne s s' f w :
  s <> s' -> socket_at (update_socket s f w) s' = socket_at w s'.
Proof.
  intros H. unfold socket_at, update_socket. proj.
  now rewrite list_lookup_alter_ne.
Qed.

Lemma update_socket_length s f w :
  length (sockets (update_socket s f w)) = length (sockets w).
Proof. unfold update_socket. proj. apply length_alter. Qed.

Lemma sock_on_spec s ev l w :
  (s < length (sockets w))%nat ->
  sk_listeners (socket_at (sock_on s ev l w) s) = sk_listeners (socket_at w s) ++ [(ev, l)]
  /\ sets (sock_on s ev l w) = sets w
  /\ length (sockets (sock_on s ev l w)) = length (sockets w).
Proof.
  intros H. unfold sock_on. rewrite socket_at_update_eq by trivial.
  rewrite update_socket_length. repeat split.
Qed.

Lemma register_listeners_spec s m w :
  (s < length (sockets w))%nat ->
  sk_listeners (socket_at (register_listeners s m w) s) =
    sk_listeners (socket_at w s) ++ registry_listeners m (sets w)
  /\ sets (register_listeners s m w) = sets w
  /\ length (sockets (register_listeners s m w)) = length (sockets w).
Proof.
  unfold register_listeners, registry_listeners.
  generalize (m_entries m). intros entries. revert w.
  induction entries as [|entry entries IH]; intros w H; cbn [fold_left flat_map].
  - now rewrite app_nil_r.
  - assert (In1 : forall fs w0, (s < length (sockets w0))%nat ->
             let w1 := fold_left (fun w f => sock_on s (fst entry) (LFn f) w) fs w0 in
             sk_listeners (socket_at w1 s) =
               sk_listeners (socket_at w0 s) ++ map (fun f => (fst entry, LFn f)) fs
             /\ sets w1 = sets w0 /\ length (sockets w1) = length (sockets w0)).
    { induction fs as [|f fs IHf]; intros w0 H0; cbn [fold_left map].
      - now rewrite app_nil_r.
      - destruct (sock_on_spec s (fst entry) (LFn f) w0 H0) as (A & B & C).
        destruct (IHf (sock_on s (fst entry) (LFn f) w0)) as (A' & B' & C'); [lia|].
        cbv zeta in *. rewrite A', A, B', B, C', C, <- app_assoc. auto. }
    destruct (In1 (default [] (sets w !! snd entry)) w H) as (A & B & C).
    cbv zeta in A, B, C.
    destruct (IH _ ltac:(rewrite C; exact H)) as (A' & B' & C').
    rewrite A', A, B', B, C', C, <- app_assoc. auto.
Qed.

Lemma teardown_unconnected w :
  ref_connected w = false ->
  let w' := match socketRef w with
            | Some s => set_socketRef None (sock_disconnect s w)
            | None => w
            end in
  state w' = state w /\ sets w' = sets w /\ scopes w' = scopes w
  /\ length (sockets w') = length (sockets w)
  /\ timers w' = timers w /\ pingIntervalRef w' = pingIntervalRef w
  /\ reconnectTimeoutRef w' = reconnectTimeoutRef w /\ next_id w' = next_id w.
Proof.
  unfold ref_connected. destruct (socketRef w) as [s|]; cbv zeta; [|auto 10].
  intros C. unfold sock_disconnect. cbv zeta. rewrite C. proj.
  rewrite length_alter. auto 10.
Qed.

Lemma startPingInterval_spec w :
  sockets (startPingInterval w) = sockets w /\ state (startPingInterval w) = state w
  /\ socketRef (startPingInterval w) = socketRef w /\ sets (startPingInterval w) = sets w
  /\ trace (startPingInterval w) = trace w
  /\ next_id (startPingInterval w) = next_id w
  /\ exists t, pingIntervalRef (startPingInterval w) = Some t
               /\ timer_at (startPingInterval w) t = Some TPing.
Proof.
  unfold startPingInterval, timer_at. cbv zeta. destruct (pingIntervalRef w); proj;
    (repeat split; [eexists; split; [reflexivity|]]).
  - rewrite lookup_app_r by (rewrite length_insert; lia).
    now rewrite length_insert, Nat.sub_diag.
  - rewrite lookup_app_r by lia. now rewrite Nat.sub_diag.
Qed.

Lemma sock_on_other s ev l w :
  state (sock_on s ev l w) = state w /\ socketRef (sock_on s ev l w) = socketRef w
  /\ trace (sock_on s ev l w) = trace w /\ next_id (sock_on s ev l w) = next_id w
  /\ sk_closed (socket_at (sock_on s ev l w) s) = sk_closed (socket_at w s)
  /\ sk_connected (socket_at (sock_on s ev l w) s) = sk_connected (socket_at w s).
Proof.
  unfold sock_on. repeat split.
  - unfold socket_at, update_socket. proj. rewrite list_lookup_alter_eq.
    now destruct (sockets w !! s).
  - unfold socket_at, update_socket. proj. rewrite list_lookup_alter_eq.
    now destruct (sockets w !! s).
Qed.

Lemma register_listeners_other s m w :
  socketRef (register_listeners s m w) = socketRef w
  /\ trace (register_listeners s m w) = trace w
  /\ next_id (register_listeners s m w) = next_id w
  /\ sk_closed (socket_at (register_listeners s m w) s) = sk_closed (socket_at w s)
  /\ sk_connected (socket_at (register_listeners s m w) s) = sk_connected (socket_at w s).
Proof.
  unfold register_listeners.
  set (R := fun a b : World =>
    socketRef b = socketRef a /\ trace b = trace a /\ next_id b = next_id a
    /\ sk_closed (socket_at b s) = sk_closed (socket_at a s)
    /\ sk_connected (socket_at b s) = sk_connected (socket_at a s)).
  assert (Rr : forall a, R a a) by (subst R; cbv beta; auto).
  assert (Rt : forall a b c, R a b -> R b c -> R a c).
  { subst R. cbv beta. intros a b c (?&?&?&?&?) (?&?&?&?&?). repeat split; congruence. }
  change (R w (fold_left (fun w entry =>
       fold_left (fun w f => sock_on s (fst entry) (LFn f) w)
                 (default [] (sets w !! snd entry)) w) (m_entries m) w)).
  apply (fold_left_rel R); trivial.
  intros w0 entry. generalize (default [] (sets w0 !! snd entry)). intros fs.
  apply (fold_left_rel R); trivial.
  intros w1 f. subst R. cbv beta.
  destruct (sock_on_other s (fst entry) (LFn f) w1) as (_ & ? & ? & ? & ? & ?). auto.
Qed.

Lemma connect_opens c w :
  truthy_user (user (sc_props (scope_at w c))) = true ->
  truthy_string (token (sc_props (scope_at w c))) = true ->
  ref_connected w = false ->
  isConnecting (sc_state (scope_at w c)) = false ->
  truthy_user (user (sc_props (scope_at w (sc_createSocket (scope_at w c))))) = true ->
  truthy_string (token (sc_props (scope_at w (sc_createSocket (scope_at w c))))) = true ->
  let n := length (sockets w) in
  socketRef (connect c w) = Some n
  /\ sk_listeners (socket_at (connect c w) n) =
     lifecycle_listeners c
       ++ registry_listeners (eventListeners (sc_state (scope_at w c))) (sets w)
  /\ sk_closed (socket_at (connect c w) n) = false
  /\ sk_connected (socket_at (connect c w) n) = false
  /\ state (connect c w) = state (setConnectionError None (setIsConnecting true w))
  /\ sets (connect c w) = sets w
  /\ next_id (connect c w) = next_id w
  /\ sock_obs (trace (connect c w)) =
     sock_obs (trace w) ++ closes w ++ [OSockNew n; OSockOpen n]
  /\ exists t, pingIntervalRef (connect c w) = Some t /\ timer_at (connect c w) t = Some TPing.
Proof.
  intros U T RC G U' T' n.
  pose proof (teardown_spec (setConnectionError None (setIsConnecting true w))) as TS.
  pose proof (teardown_unconnected (setConnectionError None (setIsConnecting true w)) RC) as TU.
  unfold connect. cbv zeta. rewrite U, T, G, RC. cbn [negb orb].
  revert TS TU.
  generalize (match socketRef (setConnectionError None (setIsConnecting true w)) with
              | Some s => set_socketRef None
                            (sock_disconnect s (setConnectionError None (setIsConnecting true w)))
              | None => setConnectionError None (setIsConnecting true w)
              end).
  cbv zeta. intros w2 (R2 & _ & O2) (St2 & Se2 & Sc2 & L2 & _ & _ & _ & N2).
  unfold createSocket. cbv zeta.
  replace (scope_at w2 (sc_createSocket (scope_at w c)))
    with (scope_at w (sc_createSocket (scope_at w c)))
    by (unfold scope_at; now rewrite Sc2).
  rewrite U', T'. cbn [negb orb]. unfold sock_new. cbv zeta.
  change (length (sockets (setConnectionError None (setIsConnecting true w))))
    with n in L2.
  rewrite L2.
  set (w4 := set_socketRef (Some n) _).
  assert (A4 : sk_listeners (socket_at w4 n) = [] /\ sk_closed (socket_at w4 n) = false
               /\ sk_connected (socket_at w4 n) = false /\ sets w4 = sets w
               /\ length (sockets w4) = S n /\ state w4 = state w2
               /\ socketRef w4 = Some n /\ next_id w4 = next_id w
               /\ trace w4 = trace w2 ++ [OSockNew n]).
  { subst w4. unfold socket_at. proj. rewrite lookup_app_r by lia.
    rewrite L2, Nat.sub_diag, length_app. cbn. repeat split; trivial. lia. }
  clearbody w4. destruct A4 as (A & B & C & D & E & F & H & I & J).
  repeat match goal with
  | |- context [sock_on n ?ev ?l w4] =>
      let P := fresh in let Q := fresh in
      pose proof (sock_on_spec n ev l w4 ltac:(lia)) as P;
      pose proof (sock_on_other n ev l w4) as Q;
      destruct P as (P1 & P2 & P3); destruct Q as (Q1 & Q2 & Q3 & Q4 & Q5 & Q6);
      rewrite A in P1; rewrite B in Q5; rewrite C in Q6; rewrite D in P2; rewrite E in P3;
      rewrite F in Q1; rewrite H in Q2; rewrite I in Q4; rewrite J in Q3;
      clear A B C D E F H I J;
      revert P1 P2 P3 Q1 Q2 Q3 Q4 Q5 Q6; generalize (sock_on n ev l w4);
      clear w4; intros w4 A D E F H J I B C
  end.
  pose proof (register_listeners_spec n (eventListeners (sc_state (scope_at w c))) w4
                ltac:(lia)) as (P1 & P2 & P3).
  pose proof (register_listeners_other n (eventListeners (sc_state (scope_at w c))) w4)
    as (Q2 & Q3 & Q4 & Q5 & Q6).
  pose proof (register_listeners_state n (eventListeners (sc_state (scope_at w c))) w4) as Q1.
  revert P1 P2 P3 Q1 Q2 Q3 Q4 Q5 Q6.
  generalize (register_listeners n (eventListeners (sc_state (scope_at w c))) w4).
  intros w5 P1 P2 P3 Q1 Q2 Q3 Q4 Q5 Q6.
  destruct (startPingInterval_spec (sock_connect n w5)) as (S1 & S2 & S3 & S4 & S5 & S6 & S7).
  unfold socket_at in *. rewrite S1, S2, S3, S4, S5, S6.
  unfold sock_connect. proj.
  rewrite P1, A, D, P2, D, Q1, F, St2, Q2, H, Q3, J, Q4, I, Q5, B, Q6, C.
  repeat split; trivial.
  rewrite !sock_obs_app, O2. cbn [sock_obs List.filter is_sock_obs app].
  now rewrite <- !app_assoc.
Qed.

(** *** Intervals *)

Lemma ticks_refl w : ticks w w.
Proof. unfold ticks. auto. Qed.

Lemma ticks_trans a b c : ticks a b -> ticks b c -> ticks a c.
Proof. unfold ticks. intros (?&?&?) (?&?&?). repeat split; congruence. Qed.

Lemma still_ticks a b : still a b -> ticks a b.
Proof.
  intros (C & _ & T & P & _). apply calm_kept, kept_base in C.
  destruct C as (_ & _ & _ & H & _). unfold ticks. auto.
Qed.

#[local] Hint Resolve still_ticks : rel.

Ltac tk := unfold ticks; proj; cases; auto.

Ltac tpeel := repeat first [ assumption | peel_with ticks_refl ticks_trans ].

Lemma set_reconnectTimeoutRef_ticks v w : ticks w (set_reconnectTimeoutRef v w).
Proof. tk. Qed.

Lemma set_socketRef_ticks v w : ticks w (set_socketRef v w).
Proof. tk. Qed.

Lemma setReconnectAttempts_ticks v w : ticks w (setReconnectAttempts v w).
Proof. tk. Qed.

Lemma setEventListeners_ticks v w : ticks w (setEventListeners v w).
Proof. tk. Qed.

Lemma setPendingEmits_ticks v w : ticks w (setPendingEmits v w).
Proof. tk. Qed.

Lemma set_sets_ticks v w : ticks w (set_sets v w).
Proof. tk. Qed.

Lemma set_visListener_ticks v w : ticks w (set_visListener v w).
Proof. tk. Qed.

Lemma set_scopes_ticks v w : ticks w (set_scopes v w).
Proof. tk. Qed.

Lemma set_props_ticks v w : ticks w (set_props v w).
Proof. tk. Qed.

Lemma set_now_ticks v w : ticks w (set_now v w).
Proof. tk. Qed.

Lemma update_socket_ticks s f w : ticks w (update_socket s f w).
Proof. tk. Qed.

Lemma emitObs_ticks o w : ticks w (emitObs o w).
Proof. tk. Qed.

Lemma sock_on_ticks s ev l w : ticks w (sock_on s ev l w).
Proof. unfold sock_on. tk. Qed.

Lemma sock_off_ticks s ev f w : ticks w (sock_off s ev f w).
Proof. unfold sock_off. tk. Qed.

Lemma sock_removeAllListeners_ticks s ev w : ticks w (sock_removeAllListeners s ev w).
Proof. unfold sock_removeAllListeners. tk. Qed.

Lemma sock_emit_ticks s ev d a w : ticks w (fst (sock_emit s ev d a w)).
Proof. unfold sock_emit. cases; tk. Qed.

Lemma sock_connect_ticks s w : ticks w (sock_connect s w).
Proof. unfold sock_connect. tk. Qed.

Lemma sock_new_ticks w : ticks w (snd (sock_new w)).
Proof. unfold sock_new. tk. Qed.

#[local] Hint Resolve set_reconnectTimeoutRef_ticks set_socketRef_ticks
  setReconnectAttempts_ticks setEventListeners_ticks setPendingEmits_ticks set_sets_ticks
  set_visListener_ticks set_scopes_ticks set_props_ticks set_now_ticks update_socket_ticks
  sock_on_ticks sock_off_ticks sock_removeAllListeners_ticks sock_emit_ticks
  sock_connect_ticks sock_new_ticks emitObs_ticks : rel.

Lemma register_listeners_ticks s m w : ticks w (register_listeners s m w).
Proof.
  unfold register_listeners.
  apply (fold_left_rel ticks); [apply ticks_refl | apply ticks_trans |].
  intros w0 entry.
  generalize (default [] (sets w0 !! snd entry)). intros fs.
  apply (fold_left_rel ticks); [apply ticks_refl | apply ticks_trans |].
  intros; apply sock_on_ticks.
Qed.

Lemma sock_disconnect_ticks s w : ticks w (sock_disconnect s w).
Proof.
  unfold sock_disconnect. cbv zeta.
  destruct (sk_connected (socket_at w s)); [|tpeel].
  eapply ticks_trans; [|apply still_ticks, fire_close_fold_still]. tpeel.
Qed.

Lemma createSocket_ticks cs w : ticks w (snd (createSocket cs w)).
Proof.
  unfold createSocket. cbv zeta. destruct (_ || _); [apply ticks_refl|].
  apply sock_new_ticks.
Qed.

#[local] Hint Resolve register_listeners_ticks sock_disconnect_ticks createSocket_ticks : rel.

Lemma ticks_intervals_ok a b : ticks a b -> intervals_ok a -> intervals_ok b.
Proof. unfold intervals_ok. intros (-> & -> & ->). trivial. Qed.

Ltac ticks_from H := eapply ticks_intervals_ok; [ | exact H ]; tpeel.

Lemma clear_timer_intervals_ok t w : intervals_ok w -> intervals_ok (clear_timer t w).
Proof.
  unfold intervals_ok. proj. intros H t'.
  destruct (decide (t = t')) as [->|Hne].
  - split; [intros E|intros k E]; apply list_lookup_insert_Some in E;
      destruct E as [(_ & E & _)|(E & _)]; congruence.
  - rewrite list_lookup_insert_ne by trivial. apply H.
Qed.

Lemma append_timer_intervals_ok c w :
  intervals_ok w -> intervals_ok (snd (set_timer (TReconnect c) w)).
Proof.
  unfold intervals_ok, set_timer. proj. intros H t.
  destruct (decide (t < length (timers w))%nat).
  - rewrite lookup_app_l by trivial. apply H.
  - rewrite lookup_app_r by lia.
    split; [intros E|intros k E]; apply list_lookup_singleton_Some in E as [_ E]; discriminate.
Qed.

Lemma startPingInterval_intervals_ok w : intervals_ok w -> intervals_ok (startPingInterval w).
Proof.
  intros H. unfold startPingInterval. cbv zeta.
  assert (Q : forall w0, intervals_ok w0 ->
            (forall t, timers w0 !! t = Some (Some TPing) -> False) ->
            intervals_ok (set_pingIntervalRef (Some (length (timers w0)))
                            (set_timers (timers w0 ++ [Some TPing]) w0))).
  { intros w0 H0 N t. unfold intervals_ok in *. proj.
    destruct (decide (t < length (timers w0))%nat).
    - rewrite lookup_app_l by trivial. split; [intros E; destruct (N t E)|apply H0].
    - rewrite lookup_app_r by lia. split.
      + intros E. apply lookup_lt_Some in E. cbn in E. f_equal. lia.
      + intros k E. apply list_lookup_singleton_Some in E as [_ E]. discriminate. }
  destruct (pingIntervalRef w) as [t0|] eqn:P; cbn [set_timer]; proj.
  - apply (Q (clear_timer t0 w)); [now apply clear_timer_intervals_ok|].
    proj. intros t E. apply list_lookup_insert_Some in E.
    destruct E as [(_ & E & _)|(Hne & E)]; [discriminate|].
    apply H in E. congruence.
  - apply Q; trivial. intros t E. apply H in E. congruence.
Qed.

Lemma on_disconnect_intervals_ok c r w : intervals_ok w -> intervals_ok (on_disconnect c r w).
Proof.
  intros H. unfold on_disconnect. cbv zeta.
  destruct (is_reason _ r); [|ticks_from H].
  match goal with |- context [set_timer ?t ?x] =>
    assert (Q : intervals_ok x) by ticks_from H;
    apply (append_timer_intervals_ok (sc_connect (scope_at x c))) in Q;
    change t with (TReconnect (sc_connect (scope_at x c)));
    destruct (set_timer (TReconnect (sc_connect (scope_at x c))) x) as [id w'] end.
  cbn [snd] in Q. ticks_from Q.
Qed.

Lemma teardown_ticks w :
  ticks w match socketRef w with
          | Some s => set_socketRef None (sock_disconnect s w)
          | None => w
          end.
Proof. destruct (socketRef w); tpeel. Qed.

Lemma connect_intervals_ok c w : intervals_ok w -> intervals_ok (connect c w).
Proof.
  intros H. unfold connect. cbv zeta.
  destruct (_ || _); [ticks_from H|].
  destruct (ref_connected w); [ticks_from H|].
  destruct (isConnecting _); [ticks_from H|].
  set (w1 := setConnectionError None (setIsConnecting true w)).
  assert (K1 : ticks w w1) by (subst w1; tpeel).
  pose proof (teardown_ticks w1) as K. revert K.
  generalize (match socketRef w1 with
         | Some s => set_socketRef None (sock_disconnect s w1)
         | None => w1
         end). intros w2 K2.
  pose proof (createSocket_ticks (sc_createSocket (scope_at w c)) w2) as K3.
  destruct (createSocket _ w2) as [[s|] w3]; cbn [snd] in K3.
  - apply startPingInterval_intervals_ok. ticks_from H.
  - ticks_from H.
Qed.

Lemma clear_owned_ping w t :
  intervals_ok w -> pingIntervalRef w = Some t ->
  intervals_ok (set_pingIntervalRef None (clear_timer t w)).
Proof.
  unfold intervals_ok. proj. intros H P t'. split.
  - intros E. apply list_lookup_insert_Some in E.
    destruct E as [(_ & E & _)|(Hne & E)]; [discriminate|].
    apply H in E. congruence.
  - intros k E. apply list_lookup_insert_Some in E.
    destruct E as [(_ & E & _)|(Hne & E)]; [discriminate|].
    now apply H in E.
Qed.

Lemma disconnect_intervals_ok w : intervals_ok w -> intervals_ok (disconnect w).
Proof.
  intros H. unfold disconnect. cbv zeta.
  pose proof (teardown_ticks w) as K. revert K.
  generalize (match socketRef w with
         | Some s => set_socketRef None (sock_disconnect s w)
         | None => w
         end). intros w1 K1.
  set (w2 := setConnectionError None (setIsConnecting false (setIsConnected false w1))).
  assert (H2 : intervals_ok w2) by (subst w2; ticks_from H).
  clearbody w2.
  assert (H3 : intervals_ok match pingIntervalRef w2 with
                            | Some t => set_pingIntervalRef None (clear_timer t w2)
                            | None => w2
                            end).
  { destruct (pingIntervalRef w2) eqn:P; [now apply clear_owned_ping|exact H2]. }
  revert H3. generalize (match pingIntervalRef w2 with
                            | Some t => set_pingIntervalRef None (clear_timer t w2)
                            | None => w2
                            end). intros w3 H3.
  destruct (reconnectTimeoutRef w3) as [t|].
  - apply (clear_timer_intervals_ok t) in H3. ticks_from H3.
  - ticks_from H3.
Qed.

Lemma emit_intervals_ok e ev d cb w : intervals_ok w -> intervals_ok (fst (emit e ev d cb w)).
Proof.
  intros H. unfold emit. cbv zeta.
  destruct (socketRef w) as [s|]; [destruct (isConnected _)|].
  - match goal with |- context [sock_emit ?a ?b ?c ?d ?x] =>
      pose proof (sock_emit_ticks a b c d x) as K; destruct (sock_emit a b c d x) as [w' []]
    end; cbn [fst] in *; ticks_from H.
  - proj. destruct (isConnecting _); cbn [fst]; [|apply connect_intervals_ok]; ticks_from H.
  - proj. destruct (isConnecting _); cbn [fst]; [|apply connect_intervals_ok]; ticks_from H.
Qed.

Lemma emit_each_intervals_ok e items w :
  intervals_ok w -> intervals_ok (fst (emit_each e items w)).
Proof.
  revert w. induction items as [|i items IH]; intros w H; cbn [emit_each]; [exact H|].
  pose proof (emit_intervals_ok e (pe_event i) (pe_data i) (pe_callback i) w H) as B.
  destruct (emit _ _ _ _ _) as [w' []]; cbn [fst] in *; auto.
Qed.

Lemma processPendingEmits_intervals_ok p w :
  intervals_ok w -> intervals_ok (fst (processPendingEmits p w)).
Proof.
  intros H. unfold processPendingEmits. cbv zeta. destruct (_ && _); [|exact H].
  pose proof (emit_each_intervals_ok (sc_emit (scope_at w p))
                (a_items (pendingEmits (sc_state (scope_at w p)))) w H) as B.
  destruct (emit_each _ _ _) as [w' []]; cbn [fst] in *; proj; [|exact B].
  ticks_from B.
Qed.

Lemma on_connect_intervals_ok c w : intervals_ok w -> intervals_ok (on_connect c w).
Proof.
  intros H. unfold on_connect. cbv zeta. apply processPendingEmits_intervals_ok.
  ticks_from H.
Qed.

Lemma run_listener_intervals_ok l arg w :
  intervals_ok w -> intervals_ok (run_listener l arg w).
Proof.
  intros H. destruct l; cbn [run_listener];
    auto using on_connect_intervals_ok, on_disconnect_intervals_ok;
    unfold on_connect_error, on_reconnect, on_reconnect_attempt; cbv zeta; cases;
    ticks_from H.
Qed.

Lemma on_ticks ev h w : ticks w (snd (on ev h w)).
Proof. unfold on. cbv zeta. proj. cases; cbn [snd]; tpeel. Qed.

Lemma off_ticks ev h w : ticks w (off ev h w).
Proof. unfold off. cbv zeta. proj. cases; tpeel. Qed.

Lemma removeAllListeners_ticks ev w : ticks w (removeAllListeners ev w).
Proof. unfold removeAllListeners. cbv zeta. proj. cases; tpeel. Qed.

Lemma ping_tick_ticks w : ticks w (ping_tick w).
Proof. unfold ping_tick. cases; auto using ticks_refl, sock_emit_ticks. Qed.

Lemma handleVisibilityChange_intervals_ok k v w :
  intervals_ok w -> intervals_ok (handleVisibilityChange k v w).
Proof.
  intros H. unfold handleVisibilityChange. cbv zeta. destruct (_ && _); [|exact H].
  apply connect_intervals_ok. ticks_from H.
Qed.

Lemma health_check_intervals_ok k w : intervals_ok w -> intervals_ok (health_check k w).
Proof.
  intros H. unfold health_check. cbv zeta. destruct (_ <? _)%Z; [|exact H].
  apply connect_intervals_ok, disconnect_intervals_ok. ticks_from H.
Qed.

Lemma fire_timer_intervals_ok id w : intervals_ok w -> intervals_ok (fire_timer id w).
Proof.
  intros H. unfold fire_timer.
  destruct (timers w !! id) as [[[c| |k]|]|]; trivial.
  - apply connect_intervals_ok, clear_timer_intervals_ok, H.
  - eapply ticks_intervals_ok; [apply ping_tick_ticks|exact H].
  - now apply health_check_intervals_ok.
Qed.

Lemma dispatch_intervals_ok ev w : intervals_ok w -> intervals_ok (fst (dispatch ev w)).
Proof.
  intros H. destruct ev; cbn [dispatch fst].
  - ticks_from H.
  - now apply connect_intervals_ok.
  - now apply disconnect_intervals_ok.
  - now apply emit_intervals_ok.
  - eapply ticks_intervals_ok; [apply on_ticks|exact H].
  - eapply ticks_intervals_ok; [apply off_ticks|exact H].
  - eapply ticks_intervals_ok; [apply removeAllListeners_ticks|exact H].
  - apply fold_left_inv; [intros; now apply run_listener_intervals_ok|].
    ticks_from H.
  - destruct (_ !! _); cbn [fst]; [|exact H]. ticks_from H.
  - now apply fire_timer_intervals_ok.
  - destruct (visListener w); cbn [fst]; [|exact H].
    now apply handleVisibilityChange_intervals_ok.
Qed.

Lemma clear_owned_health w t :
  intervals_ok w -> healthTimer w = Some t ->
  intervals_ok (set_healthTimer None (clear_timer t w)).
Proof.
  unfold intervals_ok. proj. intros H P t'. split.
  - intros E. apply list_lookup_insert_Some in E.
    destruct E as [(_ & E & _)|(Hne & E)]; [discriminate|].
    now apply H in E.
  - intros k E. apply list_lookup_insert_Some in E.
    destruct E as [(_ & E & _)|(Hne & E)]; [discriminate|].
    apply H in E. congruence.
Qed.

Lemma run_cleanups_intervals_ok prev sc w :
  intervals_ok w ->
  intervals_ok (run_cleanups prev sc w)
  /\ (health_changed prev sc = true -> healthTimer (run_cleanups prev sc w) = None).
Proof.
  intros H. unfold run_cleanups. cbv zeta.
  set (w1 := if auto_changed prev sc && bool_decide (is_Some prev) then disconnect w else w).
  assert (H1 : intervals_ok w1).
  { subst w1. destruct (_ && _); [now apply disconnect_intervals_ok|exact H]. }
  clearbody w1.
  set (w2 := if visibility_changed prev sc then set_visListener None w1 else w1).
  assert (H2 : intervals_ok w2) by (subst w2; destruct (visibility_changed _ _); ticks_from H1).
  clearbody w2.
  destruct (health_changed prev sc); [|split; [exact H2|discriminate]].
  destruct (healthTimer w2) as [t|] eqn:E; [|auto].
  split; [|reflexivity]. now apply clear_owned_health.
Qed.

Lemma run_effects_intervals_ok prev k sc w :
  intervals_ok w -> (health_changed prev sc = true -> healthTimer w = None) ->
  intervals_ok (run_effects prev k sc w).
Proof.
  intros H N. unfold run_effects. cbv zeta.
  set (w1 := if auto_changed prev sc then _ else w).
  assert (H1 : intervals_ok w1 /\ healthTimer w1 = healthTimer w).
  { subst w1. destruct (auto_changed prev sc); [|auto].
    destruct (_ && _).
    - split; [now apply connect_intervals_ok|].
      apply base_healthTimer, connect_base.
    - split; [now apply disconnect_intervals_ok|].
      apply base_healthTimer, disconnect_base. }
  clearbody w1. destruct H1 as [H1 E1].
  set (w2 := if visibility_changed prev sc then set_visListener (Some k) w1 else w1).
  assert (H2 : intervals_ok w2 /\ healthTimer w2 = healthTimer w).
  { subst w2. destruct (visibility_changed _ _); [|auto]. split; [ticks_from H1|exact E1]. }
  clearbody w2. destruct H2 as [H2 E2].
  destruct (health_changed prev sc); [|exact H2].
  destruct (_ || _); [exact H2|].
  rewrite N in E2 by reflexivity.
  unfold set_timer. revert H2. unfold intervals_ok. proj. intros H2 t.
  destruct (decide (t < length (timers w2))%nat).
  - rewrite lookup_app_l by trivial. split; [apply H2|].
    intros k' Hk. apply H2 in Hk. congruence.
  - rewrite lookup_app_r by lia. split.
    + intros E. apply list_lookup_singleton_Some in E as [_ E]. discriminate.
    + intros k' E. apply lookup_lt_Some in E. cbn in E. f_equal. lia.
Qed.

Lemma render_intervals_ok w : intervals_ok w -> intervals_ok (render w).
Proof.
  intros H. unfold render. cbv zeta.
  assert (H1 : intervals_ok (set_scopes (scopes w ++ [render_scope w]) w)) by ticks_from H.
  destruct (run_cleanups_intervals_ok (last (scopes w)) (render_scope w) _ H1) as [H2 N].
  now apply run_effects_intervals_ok.
Qed.

Lemma reachable_intervals_ok w : reachable w -> intervals_ok w.
Proof.
  apply reachable_ind.
  - intros e p t i. split; [|intros k]; discriminate.
  - apply render_intervals_ok.
  - intros w0 t ev H. apply dispatch_intervals_ok. ticks_from H.
Qed.

Lemma unmount_intervals_ok w :
  intervals_ok w ->
  intervals_ok (unmount w) /\ healthTimer (unmount w) = None
  /\ pingIntervalRef (unmount w) = None.
Proof.
  intros H. unfold unmount. cbv zeta.
  pose proof (disconnect_intervals_ok w H) as I.
  pose proof (disconnect_refs w) as (_ & P & _).
  revert I P. generalize (disconnect w). intros wd I P.
  assert (I1 : intervals_ok (set_visListener None wd)) by ticks_from I.
  assert (P1 : pingIntervalRef (set_visListener None wd) = None) by exact P.
  revert I1 P1. generalize (set_visListener None wd). intros w1 I1 P1.
  destruct (healthTimer w1) as [t|] eqn:E; [|auto].
  split; [now apply clear_owned_health|]. split; [reflexivity|exact P1].
Qed.

Lemma unmount_idle w : idle (disconnect w) (unmount w) /\ visListener (unmount w) = None.
Proof.
  unfold unmount. cbv zeta. generalize (disconnect w). intros wd.
  split; [cases; peel|]. proj. destruct (healthTimer wd); reflexivity.
Qed.

(** *** The registry *)

Lemma regs_refl w : regs w w.
Proof. unfold regs. auto. Qed.

Lemma regs_trans a b c : regs a b -> regs b c -> regs a c.
Proof.
  unfold regs. intros (?&?&?&?) (?&?&?&?). repeat split; try congruence; [lia|auto].
Qed.

Create HintDb rg.

Ltac rg := unfold regs, known; proj; cases; repeat split; auto.

Ltac rpeel :=
  repeat first [ assumption | apply regs_refl
               | eapply regs_trans; [ | solve [eauto 6 with rg] ] ].

Lemma setIsConnected_regs b w : regs w (setIsConnected b w).
Proof. rg. Qed.

Lemma setIsConnecting_regs b w : regs w (setIsConnecting b w).
Proof. rg. Qed.

Lemma setConnectionError_regs e w : regs w (setConnectionError e w).
Proof. rg. Qed.

Lemma setLastActivity_regs t w : regs w (setLastActivity t w).
Proof. rg. Qed.

Lemma setReconnectAttempts_regs v w : regs w (setReconnectAttempts v w).
Proof. rg. Qed.

Lemma setPendingEmits_regs v w : regs w (setPendingEmits v w).
Proof. rg. Qed.

Lemma emitObs_regs o w : regs w (emitObs o w).
Proof. rg. Qed.

Lemma console_log_regs m w : regs w (console_log m w).
Proof. rg. Qed.

Lemma notify_regs l m w : regs w (notify l m w).
Proof. rg. Qed.

Lemma track_regs n w : regs w (track n w).
Proof. rg. Qed.

Lemma call_callback_regs cb arg w : regs w (call_callback cb arg w).
Proof. unfold call_callback. rg. Qed.

Lemma clear_timer_regs t w : regs w (clear_timer t w).
Proof. rg. Qed.

Lemma set_timers_regs v w : regs w (set_timers v w).
Proof. rg. Qed.

Lemma set_pingIntervalRef_regs v w : regs w (set_pingIntervalRef v w).
Proof. rg. Qed.

Lemma set_reconnectTimeoutRef_regs v w : regs w (set_reconnectTimeoutRef v w).
Proof. rg. Qed.

Lemma set_socketRef_regs v w : regs w (set_socketRef v w).
Proof. rg. Qed.

Lemma set_uuid_calls_regs v w : regs w (set_uuid_calls v w).
Proof. rg. Qed.

Lemma set_visListener_regs v w : regs w (set_visListener v w).
Proof. rg. Qed.

Lemma set_healthTimer_regs v w : regs w (set_healthTimer v w).
Proof. rg. Qed.

Lemma set_scopes_regs v w : regs w (set_scopes v w).
Proof. rg. Qed.

Lemma set_props_regs v w : regs w (set_props v w).
Proof. rg. Qed.

Lemma set_now_regs v w : regs w (set_now v w).
Proof. rg. Qed.

Lemma fresh_regs w : regs w (set_next_id (S (next_id w)) w).
Proof. rg. Qed.

Lemma update_socket_regs s g w :
  (forall sk ev f, In (ev, LFn f) (sk_listeners (g sk)) -> In (ev, LFn f) (sk_listeners sk)) ->
  regs w (update_socket s g w).
Proof.
  intros G. unfold regs, known, update_socket. proj. repeat split; trivial.
  intros f [H|(s' & sk & ev & L & I)]; [now left|right].
  destruct (decide (s = s')) as [<-|Hne].
  - rewrite list_lookup_alter_eq in L.
    destruct (sockets w !! s) as [sk0|] eqn:E; [|discriminate].
    injection L as <-. exists s, sk0, ev. eauto.
  - rewrite list_lookup_alter_ne in L by trivial. eauto.
Qed.

Lemma sock_on_regs s ev l w :
  match l with
  | LFn f => exists r fs, sets w !! r = Some fs /\ In f fs
  | _ => True
  end ->
  regs w (sock_on s ev l w).
Proof.
  intros Hl. unfold sock_on, regs, known, update_socket. proj. repeat split; trivial.
  intros f [H|(s' & sk & ev' & L & I)]; [now left|].
  destruct (decide (s = s')) as [<-|Hne].
  - rewrite list_lookup_alter_eq in L.
    destruct (sockets w !! s) as [sk0|] eqn:E; [|discriminate].
    injection L as <-. cbn [sk_listeners] in I. apply in_app_or in I as [I|[I|[]]].
    + right. exists s, sk0, ev'. auto.
    + injection I as E1 E2. subst l. left. exact Hl.
  - rewrite list_lookup_alter_ne in L by trivial. right. eauto.
Qed.

Lemma remove_first_subset {A} (test : A -> bool) (x : A) (l : list A) :
  In x (remove_first test l) -> In x l.
Proof.
  induction l as [|y l IH]; cbn [remove_first]; [trivial|].
  destruct (test y); cbn [In]; tauto.
Qed.

Lemma sock_off_regs s ev f w : regs w (sock_off s ev f w).
Proof.
  apply update_socket_regs. intros sk ev' f'. cbn [sk_listeners]. apply remove_first_subset.
Qed.

Lemma sock_removeAllListeners_regs s ev w : regs w (sock_removeAllListeners s ev w).
Proof.
  apply update_socket_regs. intros sk ev' f'. cbn [sk_listeners].
  rewrite <- !list_elem_of_In, list_elem_of_filter. tauto.
Qed.

Lemma sock_emit_regs s ev d a w : regs w (fst (sock_emit s ev d a w)).
Proof.
  unfold sock_emit. destruct (send_throws _ _); [apply regs_refl|].
  destruct a; cbn [fst]; [|apply emitObs_regs].
  eapply regs_trans; [|apply emitObs_regs]. apply update_socket_regs. trivial.
Qed.

Lemma sock_connect_regs s w : regs w (sock_connect s w).
Proof. apply emitObs_regs. Qed.

Lemma sock_new_regs w : regs w (snd (sock_new w)).
Proof.
  unfold sock_new. cbv zeta. cbn [snd]. eapply regs_trans; [|apply emitObs_regs].
  unfold regs, known. proj. repeat split; trivial.
  intros f [H|(s' & sk & ev' & L & I)]; [now left|right].
  apply lookup_app_Some in L as [L|[_ L]]; [eauto|].
  apply list_lookup_singleton_Some in L as [_ <-]. destruct I.
Qed.

Lemma transport_flag_regs s ev w : regs w (update_socket s (transport_flag ev) w).
Proof.
  apply update_socket_regs. intros sk ev' f. unfold transport_flag.
  repeat destruct (String.eqb _ _); trivial.
Qed.

#[local] Hint Resolve setIsConnected_regs setIsConnecting_regs setConnectionError_regs
  setLastActivity_regs setReconnectAttempts_regs setPendingEmits_regs emitObs_regs
  console_log_regs notify_regs track_regs call_callback_regs clear_timer_regs set_timers_regs
  set_pingIntervalRef_regs set_reconnectTimeoutRef_regs set_socketRef_regs set_uuid_calls_regs
  set_visListener_regs set_healthTimer_regs set_scopes_regs set_props_regs set_now_regs
  fresh_regs sock_off_regs sock_removeAllListeners_regs sock_emit_regs sock_connect_regs
  sock_new_regs transport_flag_regs : rg.

Lemma call_fn_regs f arg w : regs w (call_fn f arg w).
Proof.
  revert w. induction f as [h|id ev f IH]; intros w; cbn [call_fn].
  - apply emitObs_regs.
  - eapply regs_trans; [apply console_log_regs|apply IH].
Qed.

Lemma sock_on_lifecycle_regs s ev l w :
  match l with LFn _ => False | _ => True end -> regs w (sock_on s ev l w).
Proof. intros H. apply sock_on_regs. destruct l; trivial; contradiction. Qed.

Lemma startPingInterval_regs w : regs w (startPingInterval w).
Proof. unfold startPingInterval. cbv zeta. destruct (pingIntervalRef w); proj; rpeel. Qed.

Lemma on_disconnect_regs c r w : regs w (on_disconnect c r w).
Proof. unfold on_disconnect. cbv zeta. destruct (is_reason _ _); proj; rpeel. Qed.

#[local] Hint Resolve call_fn_regs startPingInterval_regs on_disconnect_regs : rg.

Lemma fire_close_regs l w : regs w (fire_close l w).
Proof. destruct l; cbn [fire_close]; auto using regs_refl with rg. Qed.

Lemma sock_disconnect_regs s w : regs w (sock_disconnect s w).
Proof.
  unfold sock_disconnect. cbv zeta.
  assert (K : regs w (update_socket s (fun sk => mkSocket false true (sk_listeners sk) (sk_acks sk))
                        (emitObs (OSockClose s) w))).
  { eapply regs_trans; [apply emitObs_regs|]. apply update_socket_regs. trivial. }
  destruct (sk_connected (socket_at w s)); [|exact K].
  eapply regs_trans; [exact K|].
  apply (fold_left_rel regs); [apply regs_refl | apply regs_trans |].
  intros; apply fire_close_regs.
Qed.

Lemma createSocket_regs cs w : regs w (snd (createSocket cs w)).
Proof.
  unfold createSocket. cbv zeta. destruct (_ || _); [apply regs_refl|apply sock_new_regs].
Qed.

Lemma connect_catch_regs m w : regs w (connect_catch m w).
Proof. unfold connect_catch. cbv zeta. rpeel. Qed.

Lemma on_ack_regs cb r w : regs w (on_ack cb r w).
Proof. unfold on_ack. cbv zeta. rpeel. Qed.

#[local] Hint Resolve sock_disconnect_regs createSocket_regs connect_catch_regs on_ack_regs : rg.

Lemma teardown_regs w :
  regs w match socketRef w with
         | Some s => set_socketRef None (sock_disconnect s w)
         | None => w
         end.
Proof. destruct (socketRef w); rpeel. Qed.

Lemma register_listeners_regs s m w : regs w (register_listeners s m w).
Proof.
  unfold register_listeners. generalize (m_entries m). intros entries. revert w.
  induction entries as [|entry entries IH]; intros w; cbn [fold_left]; [apply regs_refl|].
  eapply regs_trans; [|apply IH].
  assert (Q : forall fs w1, sets w1 = sets w ->
             (forall f, In f fs -> exists r l, sets w !! r = Some l /\ In f l) ->
             regs w1 (fold_left (fun w f => sock_on s (fst entry) (LFn f) w) fs w1)).
  { induction fs as [|f fs IHf]; intros w1 E Hfs; cbn [fold_left]; [apply regs_refl|].
    eapply regs_trans; [apply sock_on_regs|apply IHf].
    - rewrite E. apply Hfs. now left.
    - unfold sock_on, update_socket. proj. exact E.
    - intros f' I. apply Hfs. now right. }
  apply Q; [reflexivity|].
  intros f I. destruct (sets w !! snd entry) as [l|] eqn:E; [|destruct I].
  exists (snd entry), l. auto.
Qed.

#[local] Hint Resolve register_listeners_regs teardown_regs : rg.

Lemma connect_regs c w : regs w (connect c w).
Proof.
  unfold connect. cbv zeta.
  destruct (_ || _); [rpeel|].
  destruct (ref_connected w); [rpeel|].
  destruct (isConnecting _); [rpeel|].
  set (w1 := setConnectionError None (setIsConnecting true w)).
  assert (K1 : regs w w1) by (subst w1; rpeel).
  pose proof (teardown_regs w1) as K. revert K.
  generalize (match socketRef w1 with
         | Some s => set_socketRef None (sock_disconnect s w1)
         | None => w1
         end). intros w2 K2.
  pose proof (createSocket_regs (sc_createSocket (scope_at w c)) w2) as K3.
  destruct (createSocket _ w2) as [[s|] w3]; cbn [snd] in K3.
  - assert (K4 : regs w (set_socketRef (Some s) w3)) by rpeel.
    revert K4. generalize (set_socketRef (Some s) w3). intros w4 K4.
    repeat match goal with
    | |- context [sock_on s ?ev ?l w4] =>
        let P := fresh in
        assert (P : regs w (sock_on s ev l w4))
          by (eapply regs_trans; [exact K4|apply sock_on_lifecycle_regs; exact I]);
        clear K4; revert P; generalize (sock_on s ev l w4); clear w4; intros w4 K4
    end.
    rpeel.
  - rpeel.
Qed.

Lemma disconnect_regs w : regs w (disconnect w).
Proof.
  unfold disconnect. cbv zeta.
  pose proof (teardown_regs w) as K. revert K.
  generalize (match socketRef w with
         | Some s => set_socketRef None (sock_disconnect s w)
         | None => w
         end). intros w1 K1.
  set (w2 := setConnectionError None (setIsConnecting false (setIsConnected false w1))).
  assert (K2 : regs w w2) by (subst w2; rpeel).
  clearbody w2.
  assert (K3 : regs w match pingIntervalRef w2 with
                      | Some t => set_pingIntervalRef None (clear_timer t w2)
                      | None => w2
                      end) by (destruct (pingIntervalRef w2); rpeel).
  revert K3. generalize (match pingIntervalRef w2 with
                      | Some t => set_pingIntervalRef None (clear_timer t w2)
                      | None => w2
                      end). intros w3 K3.
  destruct (reconnectTimeoutRef w3); rpeel.
Qed.

#[local] Hint Resolve connect_regs disconnect_regs : rg.

Lemma emit_regs e ev d cb w : regs w (fst (emit e ev d cb w)).
Proof.
  unfold emit. cbv zeta.
  destruct (socketRef w) as [s|]; [destruct (isConnected _)|].
  - match goal with |- context [sock_emit ?a ?b ?c ?d ?x] =>
      pose proof (sock_emit_regs a b c d x) as K; destruct (sock_emit a b c d x) as [w' []]
    end; cbn [fst] in *; rpeel.
  - proj. destruct (isConnecting _); cbn [fst]; rpeel.
  - proj. destruct (isConnecting _); cbn [fst]; rpeel.
Qed.

Lemma emit_each_regs e items w : regs w (fst (emit_each e items w)).
Proof.
  revert w. induction items as [|i items IH]; intros w; cbn [emit_each]; [apply regs_refl|].
  pose proof (emit_regs e (pe_event i) (pe_data i) (pe_callback i) w) as B.
  destruct (emit _ _ _ _ _) as [w' []]; cbn [fst] in *; [|exact B].
  eapply regs_trans; [exact B | apply IH].
Qed.

Lemma processPendingEmits_regs p w : regs w (fst (processPendingEmits p w)).
Proof.
  unfold processPendingEmits. cbv zeta. destruct (_ && _); [|apply regs_refl].
  pose proof (emit_each_regs (sc_emit (scope_at w p))
                (a_items (pendingEmits (sc_state (scope_at w p)))) w) as B.
  destruct (emit_each _ _ _) as [w' []]; cbn [fst] in *; proj; rpeel.
Qed.

#[local] Hint Resolve emit_regs processPendingEmits_regs : rg.

Lemma on_connect_regs c w : regs w (on_connect c w).
Proof. unfold on_connect. cbv zeta. rpeel. Qed.

Lemma run_listener_regs l arg w : regs w (run_listener l arg w).
Proof.
  destruct l; cbn [run_listener]; auto using on_connect_regs with rg;
    unfold on_connect_error, on_reconnect, on_reconnect_attempt, on_reconnect_failed, on_pong;
    cbv zeta; cases; rpeel.
Qed.

Lemma handleVisibilityChange_regs k v w : regs w (handleVisibilityChange k v w).
Proof. unfold handleVisibilityChange. cbv zeta. destruct (_ && _); rpeel. Qed.

Lemma health_check_regs k w : regs w (health_check k w).
Proof. unfold health_check. cbv zeta. destruct (_ <? _)%Z; rpeel. Qed.

Lemma ping_tick_regs w : regs w (ping_tick w).
Proof. unfold ping_tick. cases; auto using regs_refl, sock_emit_regs. Qed.

Lemma fire_timer_regs id w : regs w (fire_timer id w).
Proof.
  unfold fire_timer.
  destruct (timers w !! id) as [[[c| |k]|]|];
    auto using regs_refl, ping_tick_regs, health_check_regs.
  rpeel.
Qed.

Lemma run_cleanups_regs prev sc w : regs w (run_cleanups prev sc w).
Proof. unfold run_cleanups. cbv zeta. cases; rpeel. Qed.

Lemma run_effects_regs prev k sc w : regs w (run_effects prev k sc w).
Proof. unfold run_effects. cbv zeta. cases; rpeel. Qed.

Lemma render_regs w : regs w (render w).
Proof.
  unfold render. cbv zeta.
  eapply regs_trans; [|apply run_effects_regs].
  eapply regs_trans; [|apply run_cleanups_regs].
  apply set_scopes_regs.
Qed.

Lemma fn_below_le n m f : (n <= m)%nat -> fn_below n f -> fn_below m f.
Proof. destruct f; cbn; [trivial|lia]. Qed.

Lemma regs_registry_ok a b : regs a b -> registry_ok a -> registry_ok b.
Proof.
  unfold regs, registry_ok. intros (S & E & N & K) (H1 & H0 & H2 & H3 & H4).
  rewrite E, S. repeat split; [lia|trivial|trivial|trivial|].
  intros f Hf. eapply fn_below_le; [exact N|auto].
Qed.

(** *** on, off and removeAllListeners, field by field *)

Lemma map_get_Some ev entries r :
  map_get ev entries = Some r -> In (ev, r) entries.
Proof.
  unfold map_get. destruct (List.find _ entries) as [[e r']|] eqn:F; [|discriminate].
  cbn. intros [= <-]. apply find_some in F as [I E]. cbn in E.
  apply String.eqb_eq in E. now subst e.
Qed.

Lemma map_get_None ev entries :
  map_get ev entries = None -> forall e r, In (e, r) entries -> e <> ev.
Proof.
  unfold map_get. destruct (List.find _ entries) eqn:F; [discriminate|].
  intros _ e r I ->. apply (find_none _ _ F) in I. cbn in I.
  now rewrite String.eqb_refl in I.
Qed.

Lemma map_get_app_new ev entries r :
  map_get ev entries = None -> map_get ev (entries ++ [(ev, r)]) = Some r.
Proof.
  unfold map_get. induction entries as [|[e r'] entries IH]; cbn.
  - now rewrite String.eqb_refl.
  - destruct (String.eqb e ev); [discriminate|exact IH].
Qed.

Lemma map_delete_absent ev entries :
  map_get ev entries = None -> map_delete ev entries = entries.
Proof.
  intros H. unfold map_delete.
  induction entries as [|[e r] entries IH]; [reflexivity|].
  assert (Hne : e <> ev) by (apply (map_get_None _ _ H e r); now left).
  rewrite filter_cons_True by (cbn; now apply String.eqb_neq).
  f_equal. apply IH. unfold map_get in *. cbn in H.
  apply String.eqb_neq in Hne. now rewrite Hne in H.
Qed.

Lemma map_delete_app_new ev entries r :
  map_get ev entries = None -> map_delete ev (entries ++ [(ev, r)]) = entries.
Proof.
  intros H. unfold map_delete. rewrite filter_app.
  fold (map_delete ev entries). rewrite (map_delete_absent _ _ H).
  rewrite filter_cons_False, filter_nil, app_nil_r; [reflexivity|].
  cbn. rewrite String.eqb_refl. discriminate.
Qed.

Lemma map_delete_In ev entries e r :
  In (e, r) (map_delete ev entries) <-> In (e, r) entries /\ e <> ev.
Proof.
  unfold map_delete. rewrite <- !list_elem_of_In, list_elem_of_filter. cbn.
  rewrite String.eqb_neq. tauto.
Qed.

Lemma on_spec ev h w :
  let f := FLogged (next_id w) ev h in
  let entries := m_entries (eventListeners (state w)) in
  let w' := snd (on ev h w) in
  fst (on ev h w) = f
  /\ next_id w' = S (S (next_id w))
  /\ m_id (eventListeners (state w')) = S (next_id w)
  /\ m_entries (eventListeners (state w')) =
     match map_get ev entries with
     | Some _ => entries
     | None => entries ++ [(ev, length (sets w))]
     end
  /\ sets w' =
     match map_get ev entries with
     | Some r => alter (set_add f) r (sets w)
     | None => sets w ++ [[f]]
     end
  /\ sockets w' =
     match socketRef w with
     | Some s => alter (fun sk => mkSocket (sk_connected sk) (sk_closed sk)
                                    (sk_listeners sk ++ [(ev, LFn f)]) (sk_acks sk))
                       s (sockets w)
     | None => sockets w
     end
  /\ socketRef w' = socketRef w.
Proof.
  cbv zeta. unfold on. cbv zeta. proj.
  destruct (map_get ev (m_entries (eventListeners (state w)))) as [r|] eqn:G; proj.
  - rewrite G. proj.
    destruct (socketRef w) eqn:R; unfold sock_on, update_socket; proj; cbn [fst snd]; proj;
      repeat split; auto.
  - rewrite (map_get_app_new _ _ _ G). proj.
    assert (A : alter (set_add (FLogged (next_id w) ev h)) (length (sets w)) (sets w ++ [[]])
                = sets w ++ [[FLogged (next_id w) ev h]]).
    { rewrite alter_app_r_alt by lia. now rewrite Nat.sub_diag. }
    destruct (socketRef w) eqn:R; unfold sock_on, update_socket; proj; cbn [fst snd]; proj;
      rewrite A; repeat split; auto.
Qed.

Lemma off_spec ev f w :
  let entries := m_entries (eventListeners (state w)) in
  let w' := off ev f w in
  next_id w' = S (next_id w)
  /\ m_id (eventListeners (state w')) = next_id w
  /\ sets w' =
     match map_get ev entries with
     | Some r => alter (set_delete f) r (sets w)
     | None => sets w
     end
  /\ m_entries (eventListeners (state w')) =
     match map_get ev entries with
     | Some r =>
         if (length (default [] (sets w' !! r)) =? 0)%nat
         then map_delete ev entries else entries
     | None => entries
     end
  /\ sockets w' =
     match socketRef w with
     | Some s => alter (fun sk => mkSocket (sk_connected sk) (sk_closed sk)
                                    (remove_first (is_fn ev f) (sk_listeners sk)) (sk_acks sk))
                       s (sockets w)
     | None => sockets w
     end
  /\ socketRef w' = socketRef w.
Proof.
  cbv zeta. unfold off. cbv zeta. proj.
  destruct (map_get ev (m_entries (eventListeners (state w)))) as [r|] eqn:G; proj.
  - destruct (_ =? _)%nat eqn:Z; proj;
      destruct (socketRef w) eqn:R; unfold sock_off, update_socket; proj;
      rewrite ?Z; repeat split; auto.
  - destruct (socketRef w) eqn:R; unfold sock_off, update_socket; proj; repeat split; auto.
Qed.

Lemma removeAllListeners_spec ev w :
  let w' := removeAllListeners ev w in
  next_id w' = S (next_id w)
  /\ m_id (eventListeners (state w')) = next_id w
  /\ sets w' = sets w
  /\ m_entries (eventListeners (state w')) =
     map_delete ev (m_entries (eventListeners (state w)))
  /\ sockets w' =
     match socketRef w with
     | Some s => alter (fun sk => mkSocket (sk_connected sk) (sk_closed sk)
                          (filter (fun p => String.eqb (fst p) ev = false) (sk_listeners sk))
                          (sk_acks sk))
                       s (sockets w)
     | None => sockets w
     end
  /\ socketRef w' = socketRef w.
Proof.
  cbv zeta. unfold removeAllListeners. cbv zeta. proj.
  destruct (socketRef w) eqn:R; unfold sock_removeAllListeners, update_socket; proj;
    repeat split; auto.
Qed.

(** *** The registry invariant *)

Lemma set_add_In f g l : In g (set_add f l) -> g = f \/ In g l.
Proof.
  unfold set_add. destruct (existsb _ l); [auto|].
  intros I. apply in_app_or in I as [I|[I|[]]]; auto.
Qed.

Lemma set_add_not_nil f l : set_add f l <> [].
Proof.
  unfold set_add. destruct (existsb _ l) eqn:E.
  - destruct l; [discriminate|discriminate].
  - destruct l; discriminate.
Qed.

Lemma set_delete_In f g l : In g (set_delete f l) -> In g l.
Proof.
  unfold set_delete. rewrite <- !list_elem_of_In, list_elem_of_filter. tauto.
Qed.

Lemma NoDup_snd_eq {A B} (l : list (A * B)) a b r :
  NoDup (snd <$> l) -> In (a, r) l -> In (b, r) l -> a = b.
Proof.
  induction l as [|[x y] l IH]; cbn; [tauto|].
  intros N [E1|I1] [E2|I2]; apply NoDup_cons in N as [Hn N].
  - congruence.
  - injection E1 as -> ->. exfalso. apply Hn.
    apply list_elem_of_fmap. exists (b, r). split; [reflexivity|now apply list_elem_of_In].
  - injection E2 as -> ->. exfalso. apply Hn.
    apply list_elem_of_fmap. exists (a, r). split; [reflexivity|now apply list_elem_of_In].
  - auto.
Qed.

Lemma map_delete_NoDup {B} (g : string * nat -> B) ev (entries : list (string * nat)) :
  NoDup (g <$> entries) -> NoDup (g <$> map_delete ev entries).
Proof.
  intros N. eapply sublist_NoDup; [exact N|].
  apply fmap_sublist. unfold map_delete. apply sublist_filter.
Qed.

Lemma known_alter_sockets (w w' : World) s g :
  sets w' = sets w -> sockets w' = alter g s (sockets w) ->
  (forall sk ev f, In (ev, LFn f) (sk_listeners (g sk)) -> In (ev, LFn f) (sk_listeners sk)) ->
  forall f, known w' f -> known w f.
Proof.
  intros S K G f [H|(s' & sk & ev & L & I)]; [left; now rewrite <- S|right].
  rewrite K in L. destruct (decide (s = s')) as [<-|Hne].
  - rewrite list_lookup_alter_eq in L.
    destruct (sockets w !! s) as [sk0|] eqn:E; [|discriminate].
    injection L as <-. exists s, sk0, ev. eauto.
  - rewrite list_lookup_alter_ne in L by trivial. eauto.
Qed.

Lemma on_registry_ok ev h w : registry_ok w -> registry_ok (snd (on ev h w)).
Proof.
  intros (H1 & H0 & H2 & H3 & H4).
  destruct (on_spec ev h w) as (_ & N & M & E & S & K & _). cbv zeta in *.
  revert N M E S K. generalize (snd (on ev h w)). intros w' N M E S K.
  assert (B : forall f, known w f -> fn_below (next_id w') f).
  { intros f Hf. apply (fn_below_le (next_id w)); [lia|auto]. }
  assert (Bf : fn_below (next_id w') (FLogged (next_id w) ev h)) by (cbn; lia).
  unfold registry_ok. rewrite N, M, E, S. repeat split; [lia| | | |].
  - destruct (map_get ev _) eqn:G; [exact H0|].
    rewrite fmap_app. apply NoDup_app. repeat split; [exact H0| |apply NoDup_singleton].
    intros e He He'. apply list_elem_of_singleton in He'. subst e.
    apply list_elem_of_fmap in He as ([e r] & Er & He). cbn in Er. subst e.
    apply list_elem_of_In in He. now apply (map_get_None _ _ G) in He.
  - destruct (map_get ev _) eqn:G; [exact H2|].
    rewrite fmap_app. apply NoDup_app. repeat split; [exact H2| |apply NoDup_singleton].
    intros r Hr Hr'. apply list_elem_of_singleton in Hr'. subst r.
    apply list_elem_of_fmap in Hr as ([e r] & Er & Hr). cbn in Er.
    apply list_elem_of_In, H3 in Hr as (l & Hl & _).
    apply lookup_lt_Some in Hl. lia.
  - intros e r I. destruct (map_get ev _) as [r0|] eqn:G.
    + destruct (H3 e r I) as (l & Hl & Hn).
      destruct (decide (r0 = r)) as [->|Hne].
      * exists (set_add (FLogged (next_id w) ev h) l).
        rewrite list_lookup_alter_eq, Hl. split; [reflexivity|apply set_add_not_nil].
      * exists l. now rewrite list_lookup_alter_ne.
    + apply in_app_or in I as [I|[I|[]]].
      * destruct (H3 e r I) as (l & Hl & Hn). exists l.
        rewrite lookup_app_l by (now apply lookup_lt_Some in Hl). auto.
      * injection I as <- <-. eexists. rewrite lookup_app_r by lia.
        rewrite Nat.sub_diag. split; [reflexivity|discriminate].
  - rewrite <- N. intros f [(r & l & L & I)|(s & sk & e & L & I)].
    + rewrite S in L. destruct (map_get ev _) as [r0|] eqn:G.
      * destruct (decide (r0 = r)) as [->|Hne].
        -- rewrite list_lookup_alter_eq in L.
           destruct (sets w !! r) as [l0|] eqn:L0; [|discriminate]. injection L as <-.
           apply set_add_In in I as [->|I]; [exact Bf|].
           apply B. left. eauto.
        -- rewrite list_lookup_alter_ne in L by trivial. apply B. left. eauto.
      * apply lookup_app_Some in L as [L|[_ L]]; [apply B; left; eauto|].
        apply list_lookup_singleton_Some in L as [_ <-].
        destruct I as [<-|[]]. exact Bf.
    + rewrite K in L. destruct (socketRef w) as [s0|]; [|apply B; right; eauto].
      destruct (decide (s0 = s)) as [->|Hne].
      * rewrite list_lookup_alter_eq in L.
        destruct (sockets w !! s) as [sk0|] eqn:L0; [|discriminate]. injection L as <-.
        cbn [sk_listeners] in I. apply in_app_or in I as [I|[I|[]]].
        -- apply B. right. eauto.
        -- injection I as _ <-. exact Bf.
      * rewrite list_lookup_alter_ne in L by trivial. apply B. right. eauto.
Qed.

Lemma off_registry_ok ev f w : registry_ok w -> registry_ok (off ev f w).
Proof.
  intros (H1 & H0 & H2 & H3 & H4).
  destruct (off_spec ev f w) as (N & M & S & E & K & _). cbv zeta in *.
  revert N M E S K. generalize (off ev f w). intros w' N M E S K.
  assert (B : forall g, known w g -> fn_below (next_id w') g).
  { intros g Hg. apply (fn_below_le (next_id w)); [lia|auto]. }
  unfold registry_ok. rewrite N, M. repeat split; [lia| | | |].
  - rewrite E. destruct (map_get ev _); [|exact H0].
    destruct (_ =? _)%nat; [now apply map_delete_NoDup|exact H0].
  - rewrite E. destruct (map_get ev _); [|exact H2].
    destruct (_ =? _)%nat; [now apply map_delete_NoDup|exact H2].
  - intros e r I. rewrite E in I. rewrite S.
    destruct (map_get ev _) as [r0|] eqn:G; [|now apply (H3 e r)].
    pose proof (map_get_Some _ _ _ G) as I0.
    destruct (H3 ev r0 I0) as (l0 & L0 & _).
    rewrite S in I. rewrite list_lookup_alter_eq, L0 in I.
    change (default [] (set_delete f <$> Some l0)) with (set_delete f l0) in I.
    destruct (length (set_delete f l0) =? 0)%nat eqn:Z.
    + apply map_delete_In in I as [I Hne].
      destruct (H3 e r I) as (l & L & Hn). exists l.
      rewrite list_lookup_alter_ne; [auto|].
      intros ->. apply Hne. symmetry. eapply NoDup_snd_eq; eauto.
    + destruct (H3 e r I) as (l & L & Hn).
      destruct (decide (r0 = r)) as [->|Hne].
      * exists (set_delete f l0). rewrite list_lookup_alter_eq, L0.
        split; [reflexivity|]. intros Q. rewrite Q in Z. discriminate.
      * exists l. now rewrite list_lookup_alter_ne.
  - rewrite <- N. intros g [(r & l & L & I)|(s & sk & e & L & I)].
    + rewrite S in L. destruct (map_get ev _) as [r0|]; [|apply B; left; eauto].
      destruct (decide (r0 = r)) as [->|Hne].
      * rewrite list_lookup_alter_eq in L.
        destruct (sets w !! r) as [l0|] eqn:L0; [|discriminate]. injection L as <-.
        apply set_delete_In in I. apply B. left. eauto.
      * rewrite list_lookup_alter_ne in L by trivial. apply B. left. eauto.
    + rewrite K in L. destruct (socketRef w) as [s0|]; [|apply B; right; eauto].
      destruct (decide (s0 = s)) as [->|Hne].
      * rewrite list_lookup_alter_eq in L.
        destruct (sockets w !! s) as [sk0|] eqn:L0; [|discriminate]. injection L as <-.
        cbn [sk_listeners] in I. apply remove_first_subset in I. apply B. right. eauto.
      * rewrite list_lookup_alter_ne in L by trivial. apply B. right. eauto.
Qed.

Lemma removeAllListeners_registry_ok ev w :
  registry_ok w -> registry_ok (removeAllListeners ev w).
Proof.
  intros (H1 & H0 & H2 & H3 & H4).
  destruct (removeAllListeners_spec ev w) as (N & M & S & E & K & _). cbv zeta in *.
  revert N M E S K. generalize (removeAllListeners ev w). intros w' N M E S K.
  assert (B : forall g, known w g -> fn_below (next_id w') g).
  { intros g Hg. apply (fn_below_le (next_id w)); [lia|auto]. }
  unfold registry_ok. rewrite N, M, E, S. repeat split; [lia| | | |].
  - now apply map_delete_NoDup.
  - now apply map_delete_NoDup.
  - intros e r I. apply map_delete_In in I as [I _]. now apply (H3 e r).
  - rewrite <- N. intros g [(r & l & L & I)|(s & sk & e & L & I)].
    + rewrite S in L. apply B. left. eauto.
    + rewrite K in L. destruct (socketRef w) as [s0|]; [|apply B; right; eauto].
      destruct (decide (s0 = s)) as [->|Hne].
      * rewrite list_lookup_alter_eq in L.
        destruct (sockets w !! s) as [sk0|] eqn:L0; [|discriminate]. injection L as <-.
        cbn [sk_listeners] in I.
        apply list_elem_of_In, list_elem_of_filter in I as [_ I]. apply list_elem_of_In in I.
        apply B. right. eauto.
      * rewrite list_lookup_alter_ne in L by trivial. apply B. right. eauto.
Qed.

Lemma dispatch_registry_ok ev w : registry_ok w -> registry_ok (fst (dispatch ev w)).
Proof.
  intros H. destruct ev; cbn [dispatch fst].
  - eapply regs_registry_ok; [apply set_props_regs|exact H].
  - eapply regs_registry_ok; [apply connect_regs|exact H].
  - eapply regs_registry_ok; [apply disconnect_regs|exact H].
  - eapply regs_registry_ok; [apply emit_regs|exact H].
  - now apply on_registry_ok.
  - now apply off_registry_ok.
  - now apply removeAllListeners_registry_ok.
  - eapply regs_registry_ok; [|exact H].
    eapply regs_trans; [apply transport_flag_regs|].
    apply (fold_left_rel regs); [apply regs_refl | apply regs_trans |].
    intros; apply run_listener_regs.
  - destruct (_ !! _); cbn [fst]; [|exact H].
    eapply regs_registry_ok; [apply on_ack_regs|exact H].
  - eapply regs_registry_ok; [apply fire_timer_regs|exact H].
  - destruct (visListener w); cbn [fst]; [|exact H].
    eapply regs_registry_ok; [apply handleVisibilityChange_regs|exact H].
Qed.

Lemma reachable_registry_ok w : reachable w -> registry_ok w.
Proof.
  apply reachable_ind.
  - intros e p t. unfold registry_ok, initial, known. proj. cbn.
    repeat split; [lia|constructor|constructor|intros ? ? []|].
    intros f [(r & l & L & _)|(s & sk & ev & L & _)]; discriminate.
  - intros w0 H. eapply regs_registry_ok; [apply render_regs|exact H].
  - intros w0 t ev H. apply dispatch_registry_ok.
    eapply regs_registry_ok; [apply set_now_regs|exact H].
Qed.

(** *** A render that re-runs the auto-connect effect *)

Lemma render_changed w ps :
  last (scopes w) = Some ps -> auto_changed (Some ps) (render_scope w) = true ->
  exists w3 w4,
    idle (disconnect (set_scopes (scopes w ++ [render_scope w]) w)) w3
    /\ w4 = (if truthy_user (user (props w)) && truthy_string (token (props w))
             then connect (sc_connect (render_scope w)) w3
             else disconnect w3)
    /\ idle w4 (render w).
Proof.
  intros L A. unfold render. cbv zeta. rewrite L.
  unfold run_cleanups, run_effects. cbv zeta. rewrite A. cbn [andb].
  rewrite bool_decide_eq_true_2 by eauto.
  change (sc_props (render_scope w)) with (props w).
  generalize (disconnect (set_scopes (scopes w ++ [render_scope w]) w)). intros wd.
  match goal with |- context [connect (sc_connect (render_scope w)) ?x] =>
    set (w3 := x) end.
  set (w4 := if truthy_user (user (props w)) && truthy_string (token (props w))
             then connect (sc_connect (render_scope w)) w3 else disconnect w3).
  exists w3, w4. split; [|split; [reflexivity|]].
  - subst w3. clear w4. cases; peel.
  - clearbody w4. clear w3. cases; peel.
Qed.

Lemma recreated_auto_changed w ps :
  closures_ok w -> last (scopes w) = Some ps ->
  sc_connect (render_scope w) = length (scopes w) ->
  auto_changed (Some ps) (render_scope w) = true.
Proof.
  intros C L E. apply last_lookup_Some in L as (L & Hpos).
  destruct (C _ _ L) as (_ & H & _).
  unfold auto_changed. rewrite E.
  replace (same (sc_connect ps) (length (scopes w))) with false.
  - now rewrite andb_false_r.
  - symmetry. unfold same. apply bool_decide_eq_false. lia.
Qed.

Lemma render_reconnects w ps :
  closures_ok w -> last (scopes w) = Some ps ->
  sc_connect (render_scope w) = length (scopes w) ->
  truthy_user (user (props w)) = true -> truthy_string (token (props w)) = true ->
  let n := length (sockets w) in
  let w' := render w in
  isConnected (state w') = false
  /\ sets w' = sets w
  /\ if isConnecting (state w)
     then socketRef w' = None
          /\ sock_obs (trace w') = sock_obs (trace w) ++ closes w
          /\ isConnecting (state w') = false
     else socketRef w' = Some n
          /\ sock_obs (trace w') = sock_obs (trace w) ++ closes w ++ [OSockNew n; OSockOpen n]
          /\ isConnecting (state w') = true
          /\ sk_listeners (socket_at w' n) =
             lifecycle_listeners (length (scopes w))
               ++ registry_listeners (eventListeners (state w)) (sets w).
Proof.
  intros C L E U T n w'.
  pose proof (recreated_auto_changed w ps C L E) as A.
  destruct (render_changed w ps L A) as (w3 & w4 & I1 & E4 & I2).
  rewrite U, T in E4. cbn [andb] in E4. rewrite E in E4.
  pose proof (render_closures_ok w C) as C'.
  destruct (render_outer w) as (S' & _).
  (* the cleanup *)
  set (w0 := set_scopes (scopes w ++ [render_scope w]) w) in *.
  pose proof (disconnect_refs w0) as (Rd & _ & _ & Cd & Gd & _).
  pose proof (disconnect_spec w0) as (Fd & Od).
  pose proof (disconnect_kept w0) as ((Sd & _) & Ed & _ & _ & Sed).
  pose proof (closed_after_teardown_length w0) as Ld.
  rewrite <- Fd in Ld. unfold closed_flags in Ld. rewrite length_fmap in Ld.
  change (length (sockets w0)) with n in Ld.
  change (closes w0) with (closes w) in Od.
  change (trace w0) with (trace w) in Od.
  change (scopes w0) with (scopes w ++ [render_scope w]) in Sd.
  change (sets w0) with (sets w) in Sed.
  change (eventListeners (state w0)) with (eventListeners (state w)) in Ed.
  clearbody w0. revert Rd Cd Gd Od Sd Ed Sed Ld I1.
  generalize (disconnect w0). clear Fd w0.
  intros wd Rd Cd Gd Od Sd Ed Sed Ld (S3 & _ & _ & _ & St3 & R3 & K3 & Se3 & T3 & _).
  rewrite Sd in S3. rewrite Rd in R3.
  assert (O3 : sock_obs (trace w3) = sock_obs (trace w) ++ closes w) by (now rewrite T3).
  assert (Sc : scope_at w3 (length (scopes w)) = render_scope w)
    by (apply (scope_at_new w); exact S3).
  assert (Sa : forall i, scope_at w3 i = scope_at (render w) i)
    by (intros i; unfold scope_at; now rewrite S3, S').
  destruct I2 as (_ & _ & _ & _ & St' & R' & K' & Se' & T' & _).
  fold w' in St', R', K', Se', T'.
  assert (K3' : length (sockets w3) = n) by (now rewrite K3).
  unfold socket_at. rewrite St', R', K', Se', T'. fold (socket_at w4 n).
  destruct (isConnecting (state w)) eqn:G.
  - (* the new connect sees a handshake in flight *)
    assert (E5 : w4 = console_log "Already connecting..." w3).
    { rewrite E4. unfold connect. cbv zeta. rewrite Sc.
      change (sc_props (render_scope w)) with (props w).
      change (sc_state (render_scope w)) with (state w).
      rewrite U, T, G. unfold ref_connected. rewrite R3. reflexivity. }
    rewrite E5. proj. rewrite St3, Cd, Gd, Se3, Sed, R3, sock_obs_app, O3.
    cbn [sock_obs List.filter is_sock_obs]. rewrite app_nil_r. auto.
  - destruct (C' (length (scopes w)) (render_scope w)) as (_ & _ & U' & Tk').
    { rewrite S', lookup_app_r by lia. now rewrite Nat.sub_diag. }
    destruct (connect_opens (length (scopes w)) w3) as (A1 & A2 & _ & _ & A5 & A6 & _ & A8 & _).
    + now rewrite Sc.
    + now rewrite Sc.
    + unfold ref_connected. now rewrite R3.
    + now rewrite Sc.
    + rewrite Sc, Sa. now rewrite U'.
    + rewrite Sc, Sa. now rewrite Tk'.
    + rewrite <- E4 in A1, A2, A5, A6, A8. rewrite K3' in A1, A2, A8.
      rewrite A1, A2, A5, A6, A8, Sc. proj. rewrite St3, Cd, Se3, Sed.
      unfold closes at 1. rewrite R3, O3. cbn [app].
      rewrite <- app_assoc. auto 10.
Qed.

Lemma render_trace w : exists more, trace (render w) = trace w ++ more.
Proof.
  unfold render. cbv zeta.
  set (w0 := set_scopes _ w).
  assert (O : outer w0 (run_effects (last (scopes w)) (length (scopes w)) (render_scope w)
                          (run_cleanups (last (scopes w)) (render_scope w) w0))).
  { eapply outer_trans; [apply run_cleanups_outer | apply run_effects_outer]. }
  destruct O as (_ & _ & _ & _ & _ & _ & _ & O). exact O.
Qed.

Lemma sock_obs_added (w w' : World) more obs :
  trace w' = trace w ++ more -> sock_obs (trace w') = sock_obs (trace w) ++ obs ->
  sock_obs (added w w') = obs.
Proof.
  intros T O. unfold added. rewrite T, drop_app_length.
  rewrite T, sock_obs_app in O. now apply app_inv_head in O.
Qed.

Lemma settle_reconnects w ps :
  closures_ok w -> last (scopes w) = Some ps ->
  sc_connect (render_scope w) = length (scopes w) ->
  truthy_user (user (props w)) = true -> truthy_string (token (props w)) = true ->
  let n := length (sockets w) in
  let w' := settle w in
  isConnected (state w') = false
  /\ sets w' = sets w
  /\ eventListeners (state w') = eventListeners (state w)
  /\ (exists more, trace w' = trace w ++ more)
  /\ if isConnecting (state w)
     then socketRef w' = None
          /\ sock_obs (trace w') = sock_obs (trace w) ++ closes w
          /\ isConnecting (state w') = false
     else socketRef w' = Some n
          /\ sock_obs (trace w') = sock_obs (trace w) ++ closes w ++ [OSockNew n; OSockOpen n]
          /\ isConnecting (state w') = true
          /\ sk_listeners (socket_at w' n) =
             lifecycle_listeners (length (scopes w))
               ++ registry_listeners (eventListeners (state w)) (sets w).
Proof.
  intros C L E U T. cbv zeta.
  pose proof (render_reconnects w ps C L E U T) as H. cbv zeta in H.
  destruct (render_outer w) as (S1 & P1 & _ & E1 & _ & R1).
  destruct (render_trace w) as [m1 T1].
  unfold settle. revert H S1 P1 E1 R1 T1. generalize (render w).
  intros w1 H S1 P1 E1 R1 T1.
  assert (L2 : last (scopes w1) = Some (render_scope w)) by (rewrite S1; apply last_snoc).
  destruct (render_scope_stable w1 (render_scope w) L2) as (_ & A2).
  { now rewrite P1. }
  { now rewrite E1. }
  { now rewrite R1. }
  rewrite <- L2 in A2.
  destruct (render_idle w1 A2) as (S2 & R2 & K2 & T2).
  destruct (render_regs w1) as (Se2 & _).
  unfold socket_at. rewrite S2, R2, K2, T2, Se2.
  destruct H as (H1 & H2 & H3).
  split; [exact H1|split; [exact H2|split; [exact E1|split; [eauto|exact H3]]]].
Qed.

Lemma render_scope_connect w ps :
  last (scopes w) = Some ps ->
  sc_connect (render_scope w) =
  if same (user (sc_props ps)) (user (props w)) && same (token (sc_props ps)) (token (props w))
     && same (refreshToken (sc_props ps)) (refreshToken (props w))
     && same (sc_createSocket ps) (sc_createSocket (render_scope w))
     && same (m_id (eventListeners (sc_state ps))) (m_id (eventListeners (state w)))
     && same (reconnectAttempts (sc_state ps)) (reconnectAttempts (state w))
     && same (showNotification (sc_props ps)) (showNotification (props w))
     && same (trackEvent (sc_props ps)) (trackEvent (props w))
  then sc_connect ps else length (scopes w).
Proof. intros L. unfold render_scope. cbv zeta. cbn [sc_connect sc_createSocket]. now rewrite L. Qed.

Lemma same_ne {A} `{EqDecision A} (a b : A) : a <> b -> same a b = false.
Proof. intros H. unfold same. now apply bool_decide_eq_false. Qed.

Lemma recreated_by_registry w ps :
  last (scopes w) = Some ps ->
  m_id (eventListeners (sc_state ps)) <> m_id (eventListeners (state w)) ->
  sc_connect (render_scope w) = length (scopes w).
Proof.
  intros L H. rewrite (render_scope_connect w ps L), (same_ne _ _ H).
  now rewrite andb_false_r.
Qed.

Lemma recreated_by_props w ps :
  last (scopes w) = Some ps -> sc_props ps <> props w ->
  sc_connect (render_scope w) = length (scopes w).
Proof.
  intros L H. rewrite (render_scope_connect w ps L).
  match goal with |- (if ?b then _ else _) = _ => destruct b eqn:D end; [|reflexivity].
  exfalso. apply H.
  repeat match goal with
  | D : _ && _ = true |- _ => apply andb_true_iff in D as [D ?]
  end.
  repeat match goal with
  | D : same _ _ = true |- _ => apply same_eq in D
  end.
  destruct (sc_props ps), (props w). cbn in *. congruence.
Qed.

(** *** removeAllListeners on the handle *)


Lemma transport_flag_listeners ev sk :
  sk_listeners (transport_flag ev sk) = sk_listeners sk.
Proof. unfold transport_flag. repeat destruct (String.eqb _ _); reflexivity. Qed.

Lemma socket_at_update s f w :
  socket_at (update_socket s f w) s = f (socket_at w s)
  \/ (sockets w !! s = None /\ socket_at (update_socket s f w) s = dummy_socket).
Proof.
  unfold socket_at, update_socket. proj. rewrite list_lookup_alter_eq.
  destruct (sockets w !! s); [left|right]; auto.
Qed.

(** *** Subscribing and unsubscribing *)

Lemma fresh_wrapper_differs n ev h g :
  fn_below n g -> fn_same g (FLogged n ev h) = false /\ fn_same (FLogged n ev h) g = false.
Proof.
  destruct g as [u|id e g]; cbn; [auto|].
  intros H. split; apply Nat.eqb_neq; lia.
Qed.

Lemma set_add_fresh f l :
  (forall g, In g l -> fn_same f g = false) -> set_add f l = l ++ [f].
Proof.
  intros H. unfold set_add.
  replace (existsb (fn_same f) l) with false; [reflexivity|].
  symmetry. apply not_true_is_false. intros E.
  apply existsb_exists in E as (g & I & E). rewrite (H g I) in E. discriminate.
Qed.

Lemma set_delete_fresh f l :
  (forall g, In g l -> fn_same g f = false) -> fn_same f f = true ->
  set_delete f (l ++ [f]) = l.
Proof.
  intros H E. unfold set_delete. rewrite filter_app.
  rewrite (filter_cons_False _ f) by (rewrite E; discriminate).
  rewrite filter_nil, app_nil_r.
  induction l as [|g l IH]; [reflexivity|].
  rewrite filter_cons_True by (apply H; now left).
  f_equal. apply IH. intros g' I. apply H. now right.
Qed.

Lemma remove_first_fresh {A} (test : A -> bool) (x : A) (l : list A) :
  (forall y, In y l -> test y = false) -> test x = true ->
  remove_first test (l ++ [x]) = l.
Proof.
  intros H E. induction l as [|y l IH]; cbn [app remove_first].
  - now rewrite E.
  - rewrite (H y) by now left. f_equal. apply IH. intros z I. apply H. now right.
Qed.

Lemma alter_alter_same {A} (f g : A -> A) i (l : list A) :
  (forall x, l !! i = Some x -> g (f x) = x) -> alter g i (alter f i l) = l.
Proof.
  intros H. apply list_eq. intros j. destruct (decide (i = j)) as [<-|Hne].
  - rewrite !list_lookup_alter_eq. destruct (l !! i) as [x|] eqn:E; [|reflexivity].
    cbn. f_equal. now apply H.
  - now rewrite !list_lookup_alter_ne.
Qed.


(** *** Events that change a dependency of connect *)

Lemma registry_event_quiet e w :
  match e with
  | EvOn _ _ | EvOff _ _ | EvRemoveAllListeners _ => True
  | _ => False
  end ->
  let w1 := fst (dispatch e w) in
  scopes w1 = scopes w /\ props w1 = props w /\ socketRef w1 = socketRef w
  /\ trace w1 = trace w /\ isConnecting (state w1) = isConnecting (state w)
  /\ length (sockets w1) = length (sockets w)
  /\ (next_id w <= m_id (eventListeners (state w1)))%nat.
Proof.
  destruct e; try contradiction; intros _; cbv zeta; cbn [dispatch fst].
  - unfold on. cbv zeta. proj. cases; cbn [snd]; unfold sock_on, update_socket; proj;
      rewrite ?length_alter; cbn [m_id]; repeat split; trivial; lia.
  - unfold off. cbv zeta. proj. cases; unfold sock_off, update_socket; proj;
      rewrite ?length_alter; cbn [m_id]; repeat split; trivial; lia.
  - unfold removeAllListeners. cbv zeta. proj.
    cases; unfold sock_removeAllListeners, update_socket; proj;
      rewrite ?length_alter; cbn [m_id]; repeat split; trivial; lia.
Qed.

Lemma on_registers ev h w :
  registry_ok w ->
  In (ev, LFn (FLogged (next_id w) ev h))
     (registry_listeners (eventListeners (state (snd (on ev h w)))) (sets (snd (on ev h w)))).
Proof.
  intros (_ & _ & _ & H3 & H4).
  destruct (on_spec ev h w) as (_ & _ & _ & E & S & _). cbv zeta in *.
  unfold registry_listeners. rewrite E, S. apply in_flat_map.
  destruct (map_get ev (m_entries (eventListeners (state w)))) as [r0|] eqn:G.
  - exists (ev, r0). split; [now apply map_get_Some|]. cbn [fst snd].
    destruct (H3 ev r0 (map_get_Some _ _ _ G)) as (l0 & L0 & _).
    rewrite list_lookup_alter_eq, L0. cbn [fmap option_fmap option_map default].
    apply (in_map (fun f => (ev, LFn f))). rewrite set_add_fresh; [apply in_or_app; right; now left|].
    intros g I. apply fresh_wrapper_differs, H4. left. eauto.
  - exists (ev, length (sets w)). split; [apply in_or_app; right; now left|].
    cbn [fst snd]. rewrite lookup_app_r by lia. rewrite Nat.sub_diag. now left.
Qed.

(** *** A render that runs the effect without an identity *)

Lemma render_idle_refs w :
  auto_changed (last (scopes w)) (render_scope w) = false ->
  pingIntervalRef (render w) = pingIntervalRef w
  /\ reconnectTimeoutRef (render w) = reconnectTimeoutRef w.
Proof.
  intros E. unfold render. cbv zeta.
  set (w0 := set_scopes _ w).
  assert (O : idle w0 (run_effects (last (scopes w)) (length (scopes w)) (render_scope w)
                          (run_cleanups (last (scopes w)) (render_scope w) w0))).
  { eapply idle_trans; [apply run_cleanups_idle | apply run_effects_idle]; exact E. }
  destruct O as (_ & _ & _ & _ & _ & _ & _ & _ & _ & -> & ->). subst w0. proj. auto.
Qed.

Lemma settle_tears_down w ps :
  live_inv w -> closures_ok w -> last (scopes w) = Some ps ->
  sc_connect (render_scope w) = length (scopes w) ->
  truthy_user (user (props w)) && truthy_string (token (props w)) = false ->
  let w' := settle w in
  no_live w'
  /\ (exists more, trace w' = trace w ++ more)
  /\ sock_obs (trace w') = sock_obs (trace w) ++ closes w
  /\ socketRef w' = None /\ pingIntervalRef w' = None /\ reconnectTimeoutRef w' = None
  /\ isConnected (state w') = false /\ isConnecting (state w') = false
  /\ connectionError (state w') = None
  /\ pendingEmits (state w') = pendingEmits (state w)
  /\ eventListeners (state w') = eventListeners (state w).
Proof.
  intros Li C L E I. cbv zeta.
  pose proof (recreated_auto_changed w ps C L E) as A.
  destruct (render_changed w ps L A) as (w3 & w4 & I1 & E4 & I2).
  rewrite I in E4.
  destruct (render_outer w) as (S1 & P1 & _ & E1 & Q1 & R1).
  destruct (render_trace w) as [m1 T1].
  (* the cleanup *)
  set (w0 := set_scopes (scopes w ++ [render_scope w]) w) in *.
  assert (Li0 : live_inv w0) by (eapply handles_live_inv; [apply set_scopes_handles|exact Li]).
  pose proof (disconnect_no_live w0 Li0) as N.
  pose proof (disconnect_refs w0) as (Rd & Pd & Td & Cd & Gd & Xd).
  pose proof (disconnect_spec w0) as (_ & Od).
  change (closes w0) with (closes w) in Od.
  change (trace w0) with (trace w) in Od.
  clearbody w0. revert N Rd Pd Td Cd Gd Xd Od I1.
  generalize (disconnect w0). clear Li0 w0.
  intros wd N Rd Pd Td Cd Gd Xd Od (_ & _ & _ & _ & St3 & R3 & K3 & _ & T3 & P3 & Q3).
  (* the body: a second disconnect, which finds nothing to do *)
  assert (E5 : w4 = console_log "WebSocket disconnected" w3).
  { rewrite E4. apply disconnect_at_rest; congruence. }
  clear E4.
  destruct I2 as (_ & _ & _ & _ & St' & R' & K' & _ & T' & P' & Q').
  rewrite E5 in St', R', K', T', P', Q'. revert St' R' K' T' P' Q'. proj.
  intros St' R' K' T' P' Q'.
  (* the second render *)
  unfold settle. revert S1 P1 E1 Q1 R1 T1 St' R' K' T' P' Q'. generalize (render w).
  intros w1 S1 P1 E1 Q1 R1 T1 St' R' K' T' P' Q'.
  assert (L2 : last (scopes w1) = Some (render_scope w)) by (rewrite S1; apply last_snoc).
  destruct (render_scope_stable w1 (render_scope w) L2) as (_ & A2).
  { now rewrite P1. }
  { now rewrite E1. }
  { now rewrite R1. }
  rewrite <- L2 in A2.
  destruct (render_idle w1 A2) as (S2 & R2 & K2 & T2).
  destruct (render_outer w1) as (_ & _ & _ & E2 & Q2 & _).
  destruct (render_idle_refs w1 A2) as (P2 & Q2').
  rewrite E2, Q2, E1, Q1, S2, R2, T2, P2, Q2', St', R', T', P', Q', St3, R3, T3, P3, Q3.
  repeat split; trivial.
  - intros s Hs. apply (N s). apply live_flags. apply live_flags in Hs.
    unfold closed_flags in *. now rewrite K2, K', K3 in Hs.
  - rewrite <- T3, <- T'. exists m1. now rewrite <- T1.
  - rewrite sock_obs_app, Od. cbn [sock_obs List.filter is_sock_obs]. now rewrite app_nil_r.
Qed.

(** *** Activity and the health interval *)

Lemma render_health_on w :
  auto_changed (last (scopes w)) (render_scope w) = false ->
  health_changed (last (scopes w)) (render_scope w) = true ->
  isConnected (state w) = true -> truthy_number (lastActivity (state w)) = true ->
  healthTimer (render w) = Some (length (timers w))
  /\ timers (render w) =
     clear_ref (healthTimer w) (timers w) ++ [Some (THealth (length (scopes w)))].
Proof.
  intros A H C T. unfold render, run_effects, run_cleanups. rewrite A, H. cbv zeta. cbn [andb].
  set (prev := last (scopes w)). set (sc := render_scope w).
  change (sc_state sc) with (state w). rewrite C, T. cbn [negb orb].
  unfold clear_ref.
  destruct (visibility_changed prev sc); proj;
    destruct (healthTimer w) eqn:E; proj; rewrite ?E; proj; rewrite ?length_insert; auto.
Qed.

Lemma settle_activity w ps tnow :
  last (scopes w) = Some ps -> sc_props ps = props w ->
  eventListeners (sc_state ps) = eventListeners (state w) ->
  reconnectAttempts (sc_state ps) = reconnectAttempts (state w) ->
  lastActivity (sc_state ps) <> Some tnow ->
  isConnected (state w) = true -> lastActivity (state w) = Some tnow -> tnow <> 0 ->
  let w' := settle w in
  state w' = state w /\ socketRef w' = socketRef w /\ sockets w' = sockets w
  /\ trace w' = trace w
  /\ healthTimer w' = Some (length (timers w))
  /\ timers w' = clear_ref (healthTimer w) (timers w) ++ [Some (THealth (length (scopes w)))]
  /\ lastActivity (sc_state (scope_at w' (length (scopes w)))) = Some tnow.
Proof.
  intros L P E R N C A Z. cbv zeta.
  destruct (render_scope_stable w ps L P E R) as (Cn1 & A1). rewrite <- L in A1.
  assert (H1 : health_changed (last (scopes w)) (render_scope w) = true).
  { rewrite L. unfold health_changed.
    change (sc_state (render_scope w)) with (state w). rewrite A.
    rewrite (same_ne (lastActivity (sc_state ps)) (Some tnow) N).
    now rewrite andb_false_r. }
  assert (T1 : truthy_number (lastActivity (state w)) = true).
  { rewrite A. cbn. apply negb_true_iff, Z.eqb_neq, Z. }
  destruct (render_idle w A1) as (S1 & R1 & K1 & Tr1).
  destruct (render_health_on w A1 H1 C T1) as (HT1 & TM1).
  destruct (render_outer w) as (Sc1 & Pr1 & _).
  assert (C1 : sc_state (render_scope w) = state w) by reflexivity.
  assert (C2 : sc_props (render_scope w) = props w) by reflexivity.
  unfold settle. revert S1 R1 K1 Tr1 HT1 TM1 Sc1 Pr1.
  generalize (render w). intros w1 S1 R1 K1 Tr1 HT1 TM1 Sc1 Pr1.
  assert (L2 : last (scopes w1) = Some (render_scope w)) by (rewrite Sc1; apply last_snoc).
  destruct (render_scope_stable w1 (render_scope w) L2) as (Cn2 & A2).
  { now rewrite C2, Pr1. }
  { now rewrite C1, S1. }
  { now rewrite C1, S1. }
  rewrite <- L2 in A2.
  assert (H2 : health_changed (last (scopes w1)) (render_scope w1) = false).
  { rewrite L2. unfold health_changed. rewrite Cn2.
    change (sc_state (render_scope w1)) with (state w1).
    rewrite C1, S1, !same_refl. reflexivity. }
  destruct (render_idle w1 A2) as (S2 & R2 & K2 & Tr2).
  destruct (render_health_same w1 A2 H2) as (HT2 & TM2).
  destruct (render_outer w1) as (Sc2 & _).
  rewrite S2, R2, K2, Tr2, HT2, TM2, S1, R1, K1, Tr1, HT1, TM1.
  repeat split; trivial.
  unfold scope_at. rewrite Sc2, Sc1, lookup_app_l by (rewrite length_app; cbn; lia).
  rewrite lookup_app_r by lia. rewrite Nat.sub_diag. exact A.
Qed.

(** *** The trace and the timers of a connect that passes its guards *)

Lemma teardown_unconnected_trace w :
  ref_connected w = false ->
  trace match socketRef w with
        | Some s => set_socketRef None (sock_disconnect s w)
        | None => w
        end = trace w ++ closes w.
Proof.
  unfold ref_connected, closes. destruct (socketRef w) as [s|]; [|now rewrite app_nil_r].
  intros C. unfold sock_disconnect. cbv zeta. rewrite C. reflexivity.
Qed.

Lemma startPingInterval_timers w :
  timers (startPingInterval w) = clear_ref (pingIntervalRef w) (timers w) ++ [Some TPing]
  /\ pingIntervalRef (startPingInterval w) = Some (length (timers w)).
Proof.
  unfold startPingInterval, clear_ref. cbv zeta.
  destruct (pingIntervalRef w); proj; rewrite ?length_insert; auto.
Qed.

Lemma register_listeners_trace s m w : trace (register_listeners s m w) = trace w.
Proof. now destruct (register_listeners_other s m w) as (_ & ? & _). Qed.

Lemma connect_opens_trace c w :
  truthy_user (user (sc_props (scope_at w c))) = true ->
  truthy_string (token (sc_props (scope_at w c))) = true ->
  ref_connected w = false ->
  isConnecting (sc_state (scope_at w c)) = false ->
  truthy_user (user (sc_props (scope_at w (sc_createSocket (scope_at w c))))) = true ->
  truthy_string (token (sc_props (scope_at w (sc_createSocket (scope_at w c))))) = true ->
  let n := length (sockets w) in
  trace (connect c w) = trace w ++ closes w ++ [OSockNew n; OSockOpen n]
  /\ timers (connect c w) = clear_ref (pingIntervalRef w) (timers w) ++ [Some TPing]
  /\ pingIntervalRef (connect c w) = Some (length (timers w)).
Proof.
  intros U T RC G U' T' n.
  pose proof (teardown_unconnected_trace (setConnectionError None (setIsConnecting true w)) RC)
    as TT.
  pose proof (teardown_unconnected (setConnectionError None (setIsConnecting true w)) RC) as TU.
  pose proof (teardown_ticks (setConnectionError None (setIsConnecting true w))) as TK.
  unfold connect. cbv zeta. rewrite U, T, G, RC. cbn [negb orb].
  revert TT TU TK.
  generalize (match socketRef (setConnectionError None (setIsConnecting true w)) with
              | Some s => set_socketRef None
                            (sock_disconnect s (setConnectionError None (setIsConnecting true w)))
              | None => setConnectionError None (setIsConnecting true w)
              end).
  cbv zeta. intros w2 TT (_ & _ & Sc2 & L2 & _) (K1 & K2 & _).
  change (trace (setConnectionError None (setIsConnecting true w))) with (trace w) in TT.
  change (closes (setConnectionError None (setIsConnecting true w))) with (closes w) in TT.
  change (timers (setConnectionError None (setIsConnecting true w))) with (timers w) in K1.
  change (pingIntervalRef (setConnectionError None (setIsConnecting true w)))
    with (pingIntervalRef w) in K2.
  change (length (sockets (setConnectionError None (setIsConnecting true w)))) with n in L2.
  unfold createSocket. cbv zeta.
  replace (scope_at w2 (sc_createSocket (scope_at w c)))
    with (scope_at w (sc_createSocket (scope_at w c)))
    by (unfold scope_at; now rewrite Sc2).
  rewrite U', T'. cbn [negb orb]. unfold sock_new. cbv zeta. rewrite L2.
  match goal with |- context [register_listeners n ?m ?x] =>
    assert (A : trace x = trace w ++ closes w ++ [OSockNew n]
                /\ timers x = timers w /\ pingIntervalRef x = pingIntervalRef w)
      by (unfold sock_on, update_socket; proj; rewrite TT, <- app_assoc; auto);
    pose proof (register_listeners_trace n m x) as B1;
    pose proof (register_listeners_ticks n m x) as (B2 & B3 & _);
    destruct A as (A1 & A2 & A3); rewrite A1 in B1; rewrite A2 in B2; rewrite A3 in B3;
    clear A1 A2 A3; revert B1 B2 B3; generalize (register_listeners n m x)
  end.
  intros w5 B1 B2 B3.
  destruct (startPingInterval_spec (sock_connect n w5)) as (_ & _ & _ & _ & S5 & _).
  destruct (startPingInterval_timers (sock_connect n w5)) as (S8 & S9).
  rewrite S5, S8, S9. unfold sock_connect. proj.
  rewrite B1, B2, B3, <- !app_assoc. auto.
Qed.

(** *** The first render *)

Lemma render_first w :
  scopes w = [] -> healthTimer w = None -> isConnected (state w) = false ->
  render w =
  set_visListener (Some 0%nat)
    ((if truthy_user (user (props w)) && truthy_string (token (props w))
      then connect 0 else disconnect)
       (set_visListener None (set_scopes [render_scope w] w))).
Proof.
  intros S H C. unfold render. cbv zeta. rewrite S. cbn [last length app].
  unfold run_cleanups, run_effects, auto_changed, visibility_changed, health_changed.
  cbv zeta. rewrite bool_decide_eq_false_2 by (intros [x Hx]; discriminate). cbn [andb].
  change (sc_props (render_scope w)) with (props w).
  change (sc_state (render_scope w)) with (state w).
  change (healthTimer (set_visListener None (set_scopes [render_scope w] w)))
    with (healthTimer w).
  rewrite H, C. cbn [negb orb].
  assert (E : sc_connect (render_scope w) = 0%nat).
  { unfold render_scope. rewrite S. reflexivity. }
  rewrite E. destruct (_ && _); reflexivity.
Qed.

(** A render that finds the props and the state of the previous one runs
    no effect. *)
Lemma render_quiet w ps :
  last (scopes w) = Some ps -> sc_props ps = props w ->
  eventListeners (sc_state ps) = eventListeners (state w) ->
  reconnectAttempts (sc_state ps) = reconnectAttempts (state w) ->
  isConnected (sc_state ps) = isConnected (state w) ->
  lastActivity (sc_state ps) = lastActivity (state w) ->
  state (render w) = state w /\ socketRef (render w) = socketRef w
  /\ sockets (render w) = sockets w /\ trace (render w) = trace w
  /\ pingIntervalRef (render w) = pingIntervalRef w
  /\ reconnectTimeoutRef (render w) = reconnectTimeoutRef w
  /\ timers (render w) = timers w /\ healthTimer (render w) = healthTimer w.
Proof.
  intros L P E R C A.
  destruct (render_scope_stable w ps L P E R) as (Cn & A1). rewrite <- L in A1.
  assert (H1 : health_changed (last (scopes w)) (render_scope w) = false).
  { rewrite L. unfold health_changed. rewrite Cn.
    change (sc_state (render_scope w)) with (state w).
    rewrite C, A, !same_refl. reflexivity. }
  destruct (render_idle w A1) as (S1 & R1 & K1 & T1).
  destruct (render_idle_refs w A1) as (P1 & Q1).
  destruct (render_health_same w A1 H1) as (HT1 & TM1).
  auto 10.
Qed.

Lemma mount_with_identity e p t :
  truthy_user (user p) = true -> truthy_string (token p) = true ->
  let w := mount e p t in
  trace w = [OSockNew 0; OSockOpen 0]
  /\ socketRef w = Some 0%nat
  /\ sk_listeners (socket_at w 0) = lifecycle_listeners 0
  /\ isConnecting (state w) = true /\ isConnected (state w) = false
  /\ timers w = [Some TPing] /\ pingIntervalRef w = Some 0%nat
  /\ healthTimer w = None.
Proof.
  intros U T. cbv zeta. unfold mount, settle.
  destruct (render_outer (initial e p t)) as (S1 & P1 & _ & E1 & _ & R1).
  pose proof (render_first (initial e p t) eq_refl eq_refl eq_refl) as F.
  change (props (initial e p t)) with p in F. rewrite U, T in F. cbn [andb] in F.
  set (w2 := set_visListener None
               (set_scopes [render_scope (initial e p t)] (initial e p t))) in F.
  destruct (connect_opens 0 w2) as (A1 & A2 & _ & _ & A5 & _); trivial.
  destruct (connect_opens_trace 0 w2) as (B1 & B2 & B3); trivial.
  cbv zeta in A1, A2, B1.
  change (length (sockets w2)) with 0%nat in A1, A2, B1.
  change (trace w2) with (@nil Obs) in B1. change (closes w2) with (@nil Obs) in B1.
  change (timers w2) with (@nil (option Timer)) in B2, B3.
  change (clear_ref (pingIntervalRef w2) []) with (@nil (option Timer)) in B2.
  change (registry_listeners (eventListeners (sc_state (scope_at w2 0))) (sets w2))
    with (@nil (string * Listener)) in A2.
  rewrite app_nil_r in A2.
  assert (A6 : isConnecting (state (connect 0 w2)) = true
               /\ isConnected (state (connect 0 w2)) = false
               /\ lastActivity (state (connect 0 w2)) = None
               /\ eventListeners (state (connect 0 w2)) = eventListeners (state (initial e p t))
               /\ reconnectAttempts (state (connect 0 w2)) = 0)
    by (rewrite A5; repeat split).
  destruct A6 as (A6 & A7 & A8 & A9 & A10). clear A5.
  assert (H : healthTimer (connect 0 w2) = None)
    by (rewrite (base_healthTimer _ _ (connect_base 0 w2)); reflexivity).
  clearbody w2. revert A1 A2 B1 B2 B3 A6 A7 A8 A9 A10 H F.
  generalize (connect 0 w2). clear w2. intros wc A1 A2 B1 B2 B3 A6 A7 A8 A9 A10 H F.
  assert (F' : state (render (initial e p t)) = state wc
               /\ socketRef (render (initial e p t)) = socketRef wc
               /\ sockets (render (initial e p t)) = sockets wc
               /\ trace (render (initial e p t)) = trace wc
               /\ pingIntervalRef (render (initial e p t)) = pingIntervalRef wc
               /\ timers (render (initial e p t)) = timers wc
               /\ healthTimer (render (initial e p t)) = healthTimer wc)
    by (rewrite F; repeat split).
  clear F. destruct F' as (F1 & F2 & F3 & F4 & F5 & F6 & F7).
  revert S1 P1 E1 R1 F1 F2 F3 F4 F5 F6 F7. generalize (render (initial e p t)).
  intros w1 S1 P1 E1 R1 F1 F2 F3 F4 F5 F6 F7.
  destruct (render_quiet w1 (render_scope (initial e p t)))
    as (G1 & G2 & G3 & G4 & G5 & _ & G7 & G8).
  - rewrite S1. apply last_snoc.
  - now rewrite P1.
  - now rewrite E1.
  - now rewrite R1.
  - rewrite F1, A7. reflexivity.
  - rewrite F1, A8. reflexivity.
  - unfold socket_at. rewrite G1, G2, G3, G4, G5, G7, G8, F1, F2, F3, F4, F5, F6, F7.
    fold (socket_at wc 0). auto 10.
Qed.

Lemma mount_without_identity e p t :
  truthy_user (user p) && truthy_string (token p) = false ->
  let w := mount e p t in
  trace w = [OLog "WebSocket disconnected"]
  /\ socketRef w = None /\ sockets w = []
  /\ isConnecting (state w) = false /\ isConnected (state w) = false
  /\ timers w = [] /\ pingIntervalRef w = None /\ healthTimer w = None.
Proof.
  intros I. cbv zeta. unfold mount, settle.
  destruct (render_outer (initial e p t)) as (S1 & P1 & _ & E1 & _ & R1).
  pose proof (render_first (initial e p t) eq_refl eq_refl eq_refl) as F.
  change (props (initial e p t)) with p in F. rewrite I in F.
  rewrite disconnect_at_rest in F by reflexivity.
  assert (F' : state (render (initial e p t)) = state (initial e p t)
               /\ socketRef (render (initial e p t)) = None
               /\ sockets (render (initial e p t)) = []
               /\ trace (render (initial e p t)) = [OLog "WebSocket disconnected"]
               /\ pingIntervalRef (render (initial e p t)) = None
               /\ timers (render (initial e p t)) = []
               /\ healthTimer (render (initial e p t)) = None)
    by (rewrite F; repeat split).
  clear F. destruct F' as (F1 & F2 & F3 & F4 & F5 & F6 & F7).
  revert S1 P1 E1 R1 F1 F2 F3 F4 F5 F6 F7. generalize (render (initial e p t)).
  intros w1 S1 P1 E1 R1 F1 F2 F3 F4 F5 F6 F7.
  destruct (render_quiet w1 (render_scope (initial e p t)))
    as (G1 & G2 & G3 & G4 & G5 & _ & G7 & G8).
  - rewrite S1. apply last_snoc.
  - now rewrite P1.
  - now rewrite E1.
  - now rewrite R1.
  - now rewrite F1.
  - now rewrite F1.
  - rewrite G1, G2, G3, G4, G5, G7, G8, F1, F2, F3, F4, F5, F6, F7. auto 10.
Qed.

(** *** The table of timers only grows *)

Lemma longer_refl w : longer w w.
Proof. unfold longer. lia. Qed.

Lemma longer_trans a b c : longer a b -> longer b c -> longer a c.
Proof. unfold longer. lia. Qed.

Lemma ticks_longer a b : ticks a b -> longer a b.
Proof. unfold longer. intros (-> & _). lia. Qed.

Lemma clear_timer_longer t w : longer w (clear_timer t w).
Proof. unfold longer. proj. rewrite length_insert. lia. Qed.

Lemma set_timer_longer x w : longer w (snd (set_timer x w)).
Proof. unfold longer, set_timer. proj. rewrite length_app. lia. Qed.

Lemma set_pingIntervalRef_longer v w : longer w (set_pingIntervalRef v w).
Proof. unfold longer. proj. lia. Qed.

Lemma set_healthTimer_longer v w : longer w (set_healthTimer v w).
Proof. unfold longer. proj. lia. Qed.

Create HintDb lg.

#[local] Hint Resolve clear_timer_longer set_pingIntervalRef_longer set_healthTimer_longer : lg.

#[local] Hint Extern 1 (longer _ _) => (apply ticks_longer; solve [eauto 6 with rel]) : lg.

Ltac lpeel :=
  repeat first [ assumption | apply longer_refl
               | eapply longer_trans; [ | solve [eauto 6 with lg] ] ].

Lemma startPingInterval_longer w : longer w (startPingInterval w).
Proof.
  unfold startPingInterval, longer. cbv zeta. destruct (pingIntervalRef w); proj;
    rewrite length_app, ?length_insert; lia.
Qed.

Lemma on_disconnect_longer c r w : longer w (on_disconnect c r w).
Proof.
  unfold on_disconnect, longer. cbv zeta. destruct (is_reason _ _); proj;
    rewrite ?length_app; lia.
Qed.

#[local] Hint Resolve startPingInterval_longer on_disconnect_longer : lg.

Lemma connect_longer c w : longer w (connect c w).
Proof.
  unfold connect. cbv zeta.
  destruct (_ || _); [lpeel|].
  destruct (ref_connected w); [lpeel|].
  destruct (isConnecting _); [lpeel|].
  set (w1 := setConnectionError None (setIsConnecting true w)).
  assert (K1 : longer w w1) by (subst w1; lpeel).
  pose proof (teardown_ticks w1) as K. apply ticks_longer in K. revert K.
  generalize (match socketRef w1 with
         | Some s => set_socketRef None (sock_disconnect s w1)
         | None => w1
         end). intros w2 K2.
  pose proof (createSocket_ticks (sc_createSocket (scope_at w c)) w2) as K3.
  apply ticks_longer in K3.
  destruct (createSocket _ w2) as [[s|] w3]; cbn [snd] in K3; lpeel.
Qed.

Lemma disconnect_longer w : longer w (disconnect w).
Proof.
  unfold disconnect. cbv zeta.
  pose proof (teardown_ticks w) as K. apply ticks_longer in K. revert K.
  generalize (match socketRef w with
         | Some s => set_socketRef None (sock_disconnect s w)
         | None => w
         end). intros w1 K1.
  set (w2 := setConnectionError None (setIsConnecting false (setIsConnected false w1))).
  assert (K2 : longer w w2) by (subst w2; lpeel).
  clearbody w2.
  assert (K3 : longer w match pingIntervalRef w2 with
                      | Some t => set_pingIntervalRef None (clear_timer t w2)
                      | None => w2
                      end) by (destruct (pingIntervalRef w2); lpeel).
  revert K3. generalize (match pingIntervalRef w2 with
                      | Some t => set_pingIntervalRef None (clear_timer t w2)
                      | None => w2
                      end). intros w3 K3.
  destruct (reconnectTimeoutRef w3); lpeel.
Qed.

#[local] Hint Resolve connect_longer disconnect_longer : lg.

Lemma emit_longer e ev d cb w : longer w (fst (emit e ev d cb w)).
Proof.
  unfold emit. cbv zeta.
  destruct (socketRef w) as [s|]; [destruct (isConnected _)|].
  - match goal with |- context [sock_emit ?a ?b ?c ?d ?x] =>
      pose proof (ticks_longer _ _ (sock_emit_ticks a b c d x)) as K;
      destruct (sock_emit a b c d x) as [w' []]
    end; cbn [fst] in *; lpeel.
  - proj. destruct (isConnecting _); cbn [fst]; lpeel.
  - proj. destruct (isConnecting _); cbn [fst]; lpeel.
Qed.

Lemma emit_each_longer e items w : longer w (fst (emit_each e items w)).
Proof.
  revert w. induction items as [|i items IH]; intros w; cbn [emit_each]; [apply longer_refl|].
  pose proof (emit_longer e (pe_event i) (pe_data i) (pe_callback i) w) as B.
  destruct (emit _ _ _ _ _) as [w' []]; cbn [fst] in *; [|exact B].
  eapply longer_trans; [exact B | apply IH].
Qed.

Lemma processPendingEmits_longer p w : longer w (fst (processPendingEmits p w)).
Proof.
  unfold processPendingEmits. cbv zeta. destruct (_ && _); [|apply longer_refl].
  pose proof (emit_each_longer (sc_emit (scope_at w p))
                (a_items (pendingEmits (sc_state (scope_at w p)))) w) as B.
  destruct (emit_each _ _ _) as [w' []]; cbn [fst] in *; proj; lpeel.
Qed.

#[local] Hint Resolve emit_longer processPendingEmits_longer : lg.

Lemma on_connect_longer c w : longer w (on_connect c w).
Proof. unfold on_connect. cbv zeta. lpeel. Qed.

Lemma run_listener_longer l arg w : longer w (run_listener l arg w).
Proof.
  destruct l; cbn [run_listener]; auto using on_connect_longer with lg;
    unfold on_connect_error, on_reconnect, on_reconnect_attempt, on_reconnect_failed, on_pong;
    cbv zeta; cases; lpeel.
Qed.

Lemma dispatch_longer ev w : longer w (fst (dispatch ev w)).
Proof.
  destruct ev; cbn [dispatch fst]; auto with lg.
  - apply ticks_longer, on_ticks.
  - apply ticks_longer, off_ticks.
  - apply ticks_longer, removeAllListeners_ticks.
  - eapply longer_trans; [apply ticks_longer, update_socket_ticks|].
    apply (fold_left_rel longer); [apply longer_refl | apply longer_trans |].
    intros; apply run_listener_longer.
  - destruct (_ !! _); cbn [fst]; lpeel.
  - unfold fire_timer. destruct (timers w !! id) as [[[c| |k]|]|]; try apply longer_refl.
    + lpeel.
    + apply ticks_longer, ping_tick_ticks.
    + unfold health_check. cbv zeta. destruct (_ <? _)%Z; lpeel.
  - destruct (visListener w); cbn [fst]; [|apply longer_refl].
    unfold handleVisibilityChange. cbv zeta. destruct (_ && _); lpeel.
Qed.

Lemma dispatch_health_owner_ok ev w :
  health_owner_ok w -> health_owner_ok (fst (dispatch ev w)).
Proof.
  intros H t E.
  assert (B : healthTimer (fst (dispatch ev w)) = healthTimer w).
  { destruct ev; cbn [dispatch fst].
    - reflexivity.
    - apply base_healthTimer, connect_base.
    - apply base_healthTimer, disconnect_base.
    - apply base_healthTimer, emit_base.
    - apply base_healthTimer, on_base.
    - apply base_healthTimer, off_base.
    - apply base_healthTimer, removeAllListeners_base.
    - apply base_healthTimer. eapply base_trans; [apply light_base, transport_flag_light|].
      apply (fold_left_rel base); [apply base_refl|apply base_trans|].
      intros; apply run_listener_base.
    - destruct (_ !! _); cbn [fst]; [|reflexivity].
      apply base_healthTimer, kept_base, calm_kept, still_calm, on_ack_still.
    - apply base_healthTimer, fire_timer_base.
    - destruct (visListener w); cbn [fst]; [|reflexivity].
      apply base_healthTimer, handleVisibilityChange_base. }
  rewrite B in E. apply H in E. pose proof (dispatch_longer ev w) as L. unfold longer in L. lia.
Qed.

Lemma render_health_owner_ok w : health_owner_ok w -> health_owner_ok (render w).
Proof.
  intros H. unfold render. cbv zeta.
  set (prev := last (scopes w)). set (sc := render_scope w).
  set (w0 := set_scopes (scopes w ++ [sc]) w).
  assert (H0 : health_owner_ok w0) by exact H. clearbody w0.
  (* cleanups *)
  assert (H1 : health_owner_ok (run_cleanups prev sc w0)).
  { unfold run_cleanups. cbv zeta.
    set (w1 := if auto_changed prev sc && bool_decide (is_Some prev) then disconnect w0 else w0).
    assert (A : health_owner_ok w1).
    { subst w1. destruct (_ && _); [|exact H0]. intros t E.
      rewrite (base_healthTimer _ _ (disconnect_base w0)) in E. apply H0 in E.
      pose proof (disconnect_longer w0) as L. unfold longer in L. lia. }
    clearbody w1.
    set (w2 := if visibility_changed prev sc then set_visListener None w1 else w1).
    assert (B : health_owner_ok w2) by (subst w2; destruct (visibility_changed _ _); exact A).
    clearbody w2.
    destruct (health_changed prev sc); [|exact B].
    destruct (healthTimer w2); [|exact B]. intros t E. discriminate. }
  revert H1. generalize (run_cleanups prev sc w0). intros w1 H1.
  unfold run_effects. cbv zeta.
  set (w2 := if auto_changed prev sc then _ else w1).
  assert (H2 : health_owner_ok w2).
  { subst w2. destruct (auto_changed prev sc); [|exact H1].
    destruct (_ && _); intros t E.
    - rewrite (base_healthTimer _ _ (connect_base _ w1)) in E. apply H1 in E.
      pose proof (connect_longer (sc_connect sc) w1) as L. unfold longer in L. lia.
    - rewrite (base_healthTimer _ _ (disconnect_base w1)) in E. apply H1 in E.
      pose proof (disconnect_longer w1) as L. unfold longer in L. lia. }
  clearbody w2.
  set (w3 := if visibility_changed prev sc then set_visListener (Some (length (scopes w))) w2
             else w2).
  assert (H3 : health_owner_ok w3) by (subst w3; destruct (visibility_changed _ _); exact H2).
  clearbody w3.
  destruct (health_changed prev sc); [|exact H3].
  destruct (_ || _); [exact H3|].
  unfold set_timer, health_owner_ok. proj. intros t [= <-]. rewrite length_app. cbn. lia.
Qed.

Lemma reachable_health_owner_ok w : reachable w -> health_owner_ok w.
Proof.
  apply reachable_ind.
  - intros e p t i E. discriminate.
  - apply render_health_owner_ok.
  - intros w0 t ev H. apply dispatch_health_owner_ok. exact H.
Qed.

(** *** A transport disconnect *)

Lemma render_health_off_timers w :
  auto_changed (last (scopes w)) (render_scope w) = false ->
  health_changed (last (scopes w)) (render_scope w) = true ->
  isConnected (state w) = false ->
  timers (render w) = clear_ref (healthTimer w) (timers w).
Proof.
  intros A H C. unfold render, run_effects, run_cleanups. rewrite A, H. cbv zeta. cbn [andb].
  set (prev := last (scopes w)). set (sc := render_scope w).
  change (sc_state sc) with (state w). rewrite C. cbn [negb orb]. unfold clear_ref.
  destruct (visibility_changed prev sc); proj;
    destruct (healthTimer w) eqn:E; proj; rewrite ?E; reflexivity.
Qed.

Lemma on_disconnect_spec c reason w :
  let w1 := on_disconnect c reason w in
  scopes w1 = scopes w /\ props w1 = props w
  /\ eventListeners (state w1) = eventListeners (state w)
  /\ reconnectAttempts (state w1) = reconnectAttempts (state w)
  /\ isConnected (state w1) = false /\ isConnecting (state w1) = false
  /\ lastActivity (state w1) = None
  /\ socketRef w1 = socketRef w /\ sockets w1 = sockets w
  /\ healthTimer w1 = healthTimer w /\ pingIntervalRef w1 = pingIntervalRef w
  /\ sock_obs (trace w1) = sock_obs (trace w)
  /\ (exists more, trace w1 = trace w ++ more)
  /\ if is_reason "io server disconnect" reason
     then timers w1 = timers w ++ [Some (TReconnect (sc_connect (scope_at w c)))]
          /\ reconnectTimeoutRef w1 = Some (length (timers w))
     else timers w1 = timers w /\ reconnectTimeoutRef w1 = reconnectTimeoutRef w.
Proof.
  cbv zeta. unfold on_disconnect. cbv zeta.
  destruct (is_reason _ reason); unfold set_timer; proj;
    rewrite ?sock_obs_app; cbn [sock_obs List.filter is_sock_obs]; rewrite ?app_nil_r;
    repeat split; try (eexists; rewrite <- ?app_assoc; reflexivity).
Qed.

Lemma settle_quiet w ps :
  last (scopes w) = Some ps -> sc_props ps = props w -> sc_state ps = state w ->
  state (settle w) = state w /\ socketRef (settle w) = socketRef w
  /\ sockets (settle w) = sockets w /\ trace (settle w) = trace w
  /\ pingIntervalRef (settle w) = pingIntervalRef w
  /\ reconnectTimeoutRef (settle w) = reconnectTimeoutRef w
  /\ timers (settle w) = timers w /\ healthTimer (settle w) = healthTimer w.
Proof.
  intros L P S.
  destruct (render_quiet w ps L P) as (A1 & A2 & A3 & A4 & A5 & A6 & A7 & A8);
    try (now rewrite S).
  destruct (render_outer w) as (Sc & Pr & _).
  assert (K1 : sc_state (render_scope w) = state w) by reflexivity.
  assert (K2 : sc_props (render_scope w) = props w) by reflexivity.
  unfold settle. revert A1 A2 A3 A4 A5 A6 A7 A8 Sc Pr. generalize (render w).
  intros w1 A1 A2 A3 A4 A5 A6 A7 A8 Sc Pr.
  destruct (render_quiet w1 (render_scope w)) as (B1 & B2 & B3 & B4 & B5 & B6 & B7 & B8);
    try (now rewrite K1, A1).
  - rewrite Sc. apply last_snoc.
  - now rewrite K2, Pr.
  - rewrite B1, B2, B3, B4, B5, B6, B7, B8. auto 10.
Qed.

(** *** Handshake results *)

Lemma recreated_by_attempts w ps :
  last (scopes w) = Some ps ->
  reconnectAttempts (sc_state ps) <> reconnectAttempts (state w) ->
  sc_connect (render_scope w) = length (scopes w).
Proof.
  intros L H. rewrite (render_scope_connect w ps L), (same_ne _ _ H).
  now rewrite !andb_false_r.
Qed.

Lemma on_connect_error_spec c error w :
  let w1 := on_connect_error c error w in
  scopes w1 = scopes w /\ props w1 = props w /\ socketRef w1 = socketRef w
  /\ sockets w1 = sockets w /\ sets w1 = sets w
  /\ eventListeners (state w1) = eventListeners (state w)
  /\ isConnecting (state w1) = false
  /\ connectionError (state w1) = error_message error
  /\ reconnectAttempts (state w1) = js_add (reconnectAttempts (sc_state (scope_at w c))) 1
  /\ sock_obs (trace w1) = sock_obs (trace w)
  /\ exists more, trace w1 = trace w ++ more.
Proof.
  cbv zeta. unfold on_connect_error. cbv zeta.
  destruct (_ <=? _)%Z; proj; rewrite !sock_obs_app;
    cbn [sock_obs List.filter is_sock_obs]; rewrite ?app_nil_r;
    repeat split; eexists; rewrite <- ?app_assoc; reflexivity.
Qed.

Lemma on_connect_spec c w :
  a_items (pendingEmits (sc_state (scope_at w (sc_processPendingEmits (scope_at w c))))) = [] ->
  let w1 := on_connect c w in
  scopes w1 = scopes w /\ props w1 = props w /\ socketRef w1 = socketRef w
  /\ sockets w1 = sockets w /\ sets w1 = sets w
  /\ eventListeners (state w1) = eventListeners (state w)
  /\ isConnected (state w1) = true /\ isConnecting (state w1) = false
  /\ reconnectAttempts (state w1) = 0
  /\ lastActivity (state w1) = Some (now w)
  /\ sock_obs (trace w1) = sock_obs (trace w)
  /\ exists more, trace w1 = trace w ++ more.
Proof.
  intros Q. cbv zeta. unfold on_connect. cbv zeta.
  unfold processPendingEmits. cbv zeta.
  match goal with |- context [scope_at ?x (sc_processPendingEmits (scope_at ?y c))] =>
    change (scope_at x (sc_processPendingEmits (scope_at y c)))
      with (scope_at w (sc_processPendingEmits (scope_at w c))) end.
  rewrite Q. cbn [length Nat.ltb Nat.leb andb fst]. proj.
  rewrite !sock_obs_app; cbn [sock_obs List.filter is_sock_obs]; rewrite ?app_nil_r.
  repeat split. eexists; rewrite <- ?app_assoc; reflexivity.
Qed.

Lemma listeners_after_flag s ev l w :
  listeners_of ev (socket_at w s) = l -> l <> [] ->
  listeners_of ev (socket_at (update_socket s (transport_flag ev) w) s) = l.
Proof.
  intros H N. destruct (socket_at_update s (transport_flag ev) w) as [Q|[Q1 Q2]]; rewrite ?Q, ?Q2.
  - unfold listeners_of. rewrite transport_flag_listeners. exact H.
  - exfalso. apply N. rewrite <- H. unfold socket_at. now rewrite Q1.
Qed.

(** What is still pending after the id in a ref was cleared was pending
    before and is not the one the ref held. *)
Lemma clear_ref_pending r l t (k : Timer) :
  default None (clear_ref r l !! t) = Some k ->
  default None (l !! t) = Some k /\ r <> Some t.
Proof.
  destruct r as [t0|]; cbn [clear_ref]; [|intros H; split; [exact H|discriminate]].
  destruct (decide (t0 = t)) as [->|Ne].
  - destruct (l !! t) eqn:E.
    + rewrite list_lookup_insert_eq by (now apply lookup_lt_Some with (x := o)). discriminate.
    + rewrite (proj2 (lookup_ge_None _ _)); [discriminate|].
      rewrite length_insert. now apply lookup_ge_None.
  - rewrite list_lookup_insert_ne by exact Ne. intros H. split; [exact H|congruence].
Qed.

Lemma unmount_timers w :
  timers (unmount w) =
  clear_ref (healthTimer w)
    (clear_ref (reconnectTimeoutRef w) (clear_ref (pingIntervalRef w) (timers w))).
Proof.
  unfold unmount. cbv zeta.
  pose proof (disconnect_timers w) as T.
  destruct (disconnect_base w) as (_ & _ & _ & H & _).
  revert T H. generalize (disconnect w). intros wd T H.
  proj. rewrite H. destruct (healthTimer w); proj; rewrite T; reflexivity.
Qed.

(** [n + 1] on numbers is one more up to 2^53, where it stops. *)
Lemma to_double_small z : Z.abs z < 2 ^ 53 -> to_double z = z.
Proof. intros H. unfold to_double. apply Z.ltb_lt in H. now rewrite H. Qed.

Lemma js_add_one n : - 2 ^ 53 < n < 2 ^ 53 -> js_add n 1 = n + 1.
Proof.
  intros H. unfold js_add.
  destruct (Z.eq_dec (n + 1) (2 ^ 53)) as [E|E].
  - rewrite E. vm_compute. reflexivity.
  - apply to_double_small. lia.
Qed.

Lemma js_add_one_stuck : js_add (2 ^ 53) 1 = 2 ^ 53.
Proof. vm_compute. reflexivity. Qed.

(** *** The mount of a development build *)

Lemma disconnect_unconnected w :
  ref_connected w = false ->
  trace (disconnect w) = trace w ++ closes w ++ [OLog "WebSocket disconnected"]
  /\ state (disconnect w)
     = state (setConnectionError None (setIsConnecting false (setIsConnected false w)))
  /\ length (sockets (disconnect w)) = length (sockets w).
Proof.
  intros C. unfold disconnect. cbv zeta.
  pose proof (teardown_unconnected_trace w C) as T.
  destruct (teardown_unconnected w C) as (S & _ & _ & L & _). cbv zeta in S, L.
  revert T S L.
  generalize (match socketRef w with
              | Some s => set_socketRef None (sock_disconnect s w)
              | None => w
              end). intros w1 T S L.
  cases; rewrite ?T, ?S, ?L, <- ?app_assoc; auto.
Qed.

Lemma connect_opens_flags c w :
  truthy_user (user (sc_props (scope_at w c))) = true ->
  truthy_string (token (sc_props (scope_at w c))) = true ->
  ref_connected w = false ->
  isConnecting (sc_state (scope_at w c)) = false ->
  truthy_user (user (sc_props (scope_at w (sc_createSocket (scope_at w c))))) = true ->
  truthy_string (token (sc_props (scope_at w (sc_createSocket (scope_at w c))))) = true ->
  closed_flags (connect c w) = closed_after_teardown w ++ [false].
Proof.
  intros U T RC G U' T'.
  destruct (connect_opens c w U T RC G U' T') as (_ & _ & _ & _ & _ & _ & _ & O & _).
  cbv zeta in O.
  destruct (connect_cases c w) as [(_ & [E|E])|(_ & F & _)]; [| |exact F]; exfalso;
    rewrite E in O.
  - rewrite <- (app_nil_r (sock_obs (trace w))) in O at 1.
    apply app_inv_head in O. destruct (closes w); discriminate.
  - apply app_inv_head in O. rewrite <- (app_nil_r (closes w)) in O at 1.
    apply app_inv_head in O. discriminate.
Qed.

Lemma first_render_with_identity e p t :
  truthy_user (user p) = true -> truthy_string (token p) = true ->
  let w := render (initial e p t) in
  scopes w = [render_scope (initial e p t)]
  /\ trace w = [OSockNew 0; OSockOpen 0]
  /\ socketRef w = Some 0%nat
  /\ sk_listeners (socket_at w 0) = lifecycle_listeners 0
  /\ sk_connected (socket_at w 0) = false
  /\ closed_flags w = [false]
  /\ state w = mkState false true 0 None None (mkMap 0 []) (mkArr 1 [])
  /\ timers w = [Some TPing] /\ pingIntervalRef w = Some 0%nat
  /\ healthTimer w = None.
Proof.
  intros U T. cbv zeta.
  rewrite (render_first (initial e p t) eq_refl eq_refl eq_refl).
  change (props (initial e p t)) with p. rewrite U, T. cbn [andb].
  set (w2 := set_visListener None
               (set_scopes [render_scope (initial e p t)] (initial e p t))).
  destruct (connect_opens 0 w2) as (A1 & A2 & _ & A4 & A5 & _); trivial.
  destruct (connect_opens_trace 0 w2) as (B1 & B2 & B3); trivial.
  pose proof (connect_opens_flags 0 w2 U T eq_refl eq_refl U T) as F.
  destruct (connect_base 0 w2) as (S & _ & _ & H & _).
  cbv zeta in A1, A2, A4, B1.
  change (length (sockets w2)) with 0%nat in A1, A2, A4, B1.
  change (trace w2) with (@nil Obs) in B1. change (closes w2) with (@nil Obs) in B1.
  change (timers w2) with (@nil (option Timer)) in B2, B3.
  change (clear_ref (pingIntervalRef w2) []) with (@nil (option Timer)) in B2.
  change (registry_listeners (eventListeners (sc_state (scope_at w2 0))) (sets w2))
    with (@nil (string * Listener)) in A2.
  change (closed_after_teardown w2) with (@nil bool) in F.
  rewrite app_nil_r in A2.
  change (state (setConnectionError None (setIsConnecting true w2)))
    with (mkState false true 0 None None (mkMap 0 []) (mkArr 1 [])) in A5.
  change (scopes w2) with [render_scope (initial e p t)] in S.
  change (healthTimer w2) with (@None nat) in H.
  clearbody w2. revert A1 A2 A4 A5 B1 B2 B3 F S H.
  generalize (connect 0 w2). intros wc A1 A2 A4 A5 B1 B2 B3 F S H.
  unfold socket_at, closed_flags in *. proj. auto 12.
Qed.

Lemma mount_strict_with_identity e p t :
  truthy_user (user p) = true -> truthy_string (token p) = true ->
  let w := mount_strict e p t in
  trace w = [OSockNew 0; OSockOpen 0; OSockClose 0; OLog "WebSocket disconnected";
             OSockNew 1; OSockOpen 1]
  /\ socketRef w = Some 1%nat
  /\ closed_flags w = [true; false]
  /\ sk_listeners (socket_at w 1) = lifecycle_listeners 0
  /\ isConnecting (state w) = true /\ isConnected (state w) = false
  /\ timers w = [None; Some TPing] /\ pingIntervalRef w = Some 1%nat
  /\ healthTimer w = None.
Proof.
  intros U T. cbv zeta. unfold mount_strict. cbv zeta.
  destruct (first_render_with_identity e p t U T)
    as (S1 & T1 & R1 & _ & C1 & F1 & St1 & Tm1 & P1 & H1).
  destruct (render_outer (initial e p t)) as (_ & Pr1 & _).
  change (props (initial e p t)) with p in Pr1.
  revert S1 T1 R1 C1 F1 St1 Tm1 P1 H1 Pr1.
  generalize (render (initial e p t)). intros w1 S1 T1 R1 C1 F1 St1 Tm1 P1 H1 Pr1.
  (* the cleanups *)
  assert (RC : ref_connected w1 = false) by (unfold ref_connected; now rewrite R1).
  destruct (disconnect_unconnected w1 RC) as (Td & Sd & Ld).
  destruct (disconnect_spec w1) as (Fd & _).
  destruct (disconnect_refs w1) as (Rd & Pd & _).
  destruct (disconnect_base w1) as (Scd & Prd & _).
  pose proof (unmount_timers w1) as Tu.
  destruct (unmount_idle w1) as ((Su & Pu & _ & _ & Stu & Ru & Sku & _ & Tru & Piu & _) & _).
  assert (Hu : healthTimer (unmount w1) = None).
  { unfold unmount. cbv zeta.
    change (healthTimer (set_visListener None (disconnect w1)))
      with (healthTimer (disconnect w1)).
    rewrite (base_healthTimer _ _ (disconnect_base w1)), H1.
    change (healthTimer (disconnect w1) = None).
    now rewrite (base_healthTimer _ _ (disconnect_base w1)). }
  revert Tu Su Pu Stu Ru Sku Tru Piu Hu.
  generalize (unmount w1). intros wu Tu Su Pu Stu Ru Sku Tru Piu Hu.
  revert Td Sd Ld Fd Rd Pd Scd Prd Su Pu Stu Ru Sku Tru Piu.
  generalize (disconnect w1). intros wd Td Sd Ld Fd Rd Pd Scd Prd Su Pu Stu Ru Sku Tru Piu.
  rewrite Scd, S1 in Su. rewrite Prd, Pr1 in Pu. rewrite Rd in Ru. rewrite Pd in Piu.
  rewrite Td, T1 in Tru. unfold closes in Tru. rewrite R1 in Tru. cbn [app] in Tru.
  proj. rewrite St1 in Sd. proj. rewrite Sd in Stu.
  unfold closed_after_teardown in Fd. rewrite R1, F1 in Fd. cbn in Fd.
  assert (Fu : closed_flags wu = [true]) by (unfold closed_flags; now rewrite Sku).
  assert (Lu : length (sockets wu) = 1%nat).
  { apply (f_equal length) in Fu. unfold closed_flags in Fu. now rewrite length_fmap in Fu. }
  rewrite Tm1, P1, H1 in Tu.
  assert (Tu' : timers wu = [None]) by (rewrite Tu; destruct (reconnectTimeoutRef w1) as [[|k]|]; reflexivity).
  clear Tu Td Sd Ld Fd Rd Pd Scd Prd Sku wd S1 T1 R1 C1 F1 St1 Tm1 P1 H1 Pr1 RC w1.
  (* the effects again *)
  assert (Sc : scope_at wu 0 = render_scope (initial e p t)) by (unfold scope_at; now rewrite Su).
  assert (RC : ref_connected wu = false) by (unfold ref_connected; now rewrite Ru).
  assert (E : run_effects None 0 (scope_at wu 0) wu = set_visListener (Some 0%nat) (connect 0 wu)).
  { rewrite Sc. unfold run_effects, auto_changed, visibility_changed, health_changed.
    change (sc_props (render_scope (initial e p t))) with p. rewrite U, T. reflexivity. }
  rewrite E. clear E.
  assert (U0 : truthy_user (user (sc_props (scope_at wu 0))) = true)
    by (rewrite Sc; exact U).
  assert (T0 : truthy_string (token (sc_props (scope_at wu 0))) = true)
    by (rewrite Sc; exact T).
  assert (G0 : isConnecting (sc_state (scope_at wu 0)) = false)
    by (rewrite Sc; reflexivity).
  assert (C0 : sc_createSocket (scope_at wu 0) = 0%nat) by (rewrite Sc; reflexivity).
  assert (U1 : truthy_user (user (sc_props (scope_at wu (sc_createSocket (scope_at wu 0)))))
               = true) by (rewrite C0; exact U0).
  assert (T1 : truthy_string (token (sc_props (scope_at wu (sc_createSocket (scope_at wu 0)))))
               = true) by (rewrite C0; exact T0).
  destruct (connect_opens 0 wu U0 T0 RC G0 U1 T1) as (A1 & A2 & _ & _ & A5 & _).
  destruct (connect_opens_trace 0 wu U0 T0 RC G0 U1 T1) as (B1 & B2 & B3).
  pose proof (connect_opens_flags 0 wu U0 T0 RC G0 U1 T1) as F.
  clear U0 T0 G0 C0 U1 T1.
  destruct (connect_base 0 wu) as (S & Pc & _ & H & _).
  cbv zeta in A1, A2, B1. rewrite Sc in A2.
  rewrite Lu in A1, A2, B1. rewrite Tru in B1. unfold closes in B1. rewrite Ru in B1.
  rewrite Tu', Piu in B2. rewrite Tu' in B3. cbn in B1, B2, B3.
  change (registry_listeners (eventListeners (sc_state (render_scope (initial e p t)))) (sets wu))
    with (@nil (string * Listener)) in A2.
  rewrite app_nil_r in A2.
  unfold closed_after_teardown in F. rewrite Ru, Fu in F. cbn in F.
  assert (A6 : state (connect 0 wu) = mkState false true 0 None None (mkMap 0 []) (mkArr 1 [])).
  { rewrite A5. proj. rewrite Stu. reflexivity. }
  rewrite Su in S. rewrite Pu in Pc. rewrite Hu in H.
  clear A5 Sc RC Tu' Piu Tru Fu Lu Ru Stu Su Pu Hu.
  revert A1 A2 A6 B1 B2 B3 F S Pc H. generalize (connect 0 wu).
  intros wc A1 A2 A6 B1 B2 B3 F S Pc H.
  (* the re-render *)
  destruct (render_quiet (set_visListener (Some 0%nat) wc) (render_scope (initial e p t)))
    as (G1 & G2 & G3 & G4 & G5 & _ & G7 & G8); proj; rewrite ?S, ?Pc, ?A6; try reflexivity.
  unfold socket_at, closed_flags in *.
  rewrite G1, G2, G3, G4, G5, G7, G8. proj. rewrite A6. auto 12.
Qed.

Lemma mount_strict_without_identity e p t :
  truthy_user (user p) && truthy_string (token p) = false ->
  let w := mount_strict e p t in
  trace w = [OLog "WebSocket disconnected"; OLog "WebSocket disconnected";
             OLog "WebSocket disconnected"]
  /\ socketRef w = None /\ sockets w = []
  /\ isConnecting (state w) = false /\ isConnected (state w) = false
  /\ timers w = [] /\ pingIntervalRef w = None /\ healthTimer w = None.
Proof.
  intros I. cbv zeta. unfold mount_strict. cbv zeta.
  set (sc := render_scope (initial e p t)).
  set (w1 := set_visListener (Some 0%nat)
               (console_log "WebSocket disconnected"
                  (set_visListener None (set_scopes [sc] (initial e p t))))).
  assert (E1 : render (initial e p t) = w1).
  { rewrite (render_first (initial e p t) eq_refl eq_refl eq_refl).
    change (props (initial e p t)) with p. rewrite I.
    now rewrite disconnect_at_rest by reflexivity. }
  set (wu := set_visListener None (console_log "WebSocket disconnected" w1)).
  assert (E2 : unmount w1 = wu).
  { unfold unmount. cbv zeta. now rewrite disconnect_at_rest by reflexivity. }
  set (we := set_visListener (Some 0%nat) (console_log "WebSocket disconnected" wu)).
  assert (E3 : run_effects None 0 (scope_at wu 0) wu = we).
  { change (scope_at wu 0) with sc.
    unfold run_effects, auto_changed, visibility_changed, health_changed.
    change (sc_props sc) with p. rewrite I.
    now rewrite disconnect_at_rest by reflexivity. }
  rewrite E1, E2, E3.
  destruct (render_quiet we sc) as (G1 & G2 & G3 & G4 & G5 & _ & G7 & G8);
    try reflexivity.
  rewrite G1, G2, G3, G4, G5, G7, G8. repeat split.
Qed.
(** ** The claims *)

(** C7. In every reachable state at most one transport handle is live, and
    it is the one held in [socketRef].  Whenever [connect] creates a handle,
    the transport actions it adds are, in this order: closing the handle
    that was current (if there was one), creating the new handle, opening
    it; afterwards the new handle is the one in [socketRef] and no handle
    that existed before is live. *)
Theorem at_most_one_live_transport w :
  reachable w ->
  (forall s1 s2, live w s1 -> live w s2 -> s1 = s2)
  /\ (forall s, live w s -> socketRef w = Some s)
  /\ forall c,
       length (sockets (connect c w)) <> length (sockets w) ->
       let s' := length (sockets w) in
       sock_obs (added w (connect c w)) = closes w ++ [OSockNew s'; OSockOpen s']
       /\ socketRef (connect c w) = Some s'
       /\ live (connect c w) s'
       /\ forall s, (s < s')%nat -> ~ live (connect c w) s.
Proof.
  intros R. destruct (reachable_inv w R) as (L & _).
  split; [|split].
  - intros s1 s2 H1 H2. apply L in H1, H2. congruence.
  - exact L.
  - intros c Hlen s'. destruct (connect_cases c w) as [[E _]|(Hr & Hf & Ho)]; [contradiction|].
    pose proof (closed_after_teardown_length w) as Hl.
    repeat split.
    + destruct (connect_kept c w) as ((_ & _ & _ & _ & _ & _ & [more Hm]) & _).
      unfold added. rewrite Hm, drop_app_length.
      rewrite Hm, sock_obs_app in Ho. now apply app_inv_head in Ho.
    + exact Hr.
    + apply live_flags. rewrite Hf, lookup_app_r by lia.
      fold s'. replace (s' - length (closed_after_teardown w))%nat with 0%nat by lia.
      reflexivity.
    + intros s Hs Hlive. apply live_flags in Hlive.
      rewrite Hf, lookup_app_l in Hlive by lia.
      now apply closed_after_teardown_all in Hlive.
Qed.

(** A world we can point at: the component mounted with an identity. *)
Lemma at_most_one_live_transport_witness :
  reachable mounted /\ forall s, live mounted s -> socketRef mounted = Some s.
Proof.
  pose proof reachable_mounted as R.
  split; [exact R|]. apply (at_most_one_live_transport mounted R).
Defined.

(** What [disconnect] does in every world: it clears [socketRef], closes
    the handle that was current, clears both timer refs and cancels the
    timers they held; a second call right after the first changes nothing
    but the console log. *)
Lemma disconnect_idempotent w :
  forget_trace (disconnect (disconnect w)) = forget_trace (disconnect w)
  /\ socketRef (disconnect w) = None
  /\ (forall s, socketRef w = Some s -> ~ live (disconnect w) s)
  /\ sock_obs (added w (disconnect w)) = closes w
  /\ pingIntervalRef (disconnect w) = None
  /\ reconnectTimeoutRef (disconnect w) = None
  /\ (forall t, pingIntervalRef w = Some t -> timer_at (disconnect w) t = None)
  /\ (forall t, reconnectTimeoutRef w = Some t -> timer_at (disconnect w) t = None).
Proof.
  destruct (disconnect_refs w) as (H1 & H2 & H3 & _).
  destruct (disconnect_spec w) as (F & O).
  repeat split; trivial.
  - apply disconnect_twice.
  - intros s Hs Hl. apply live_flags in Hl. rewrite F in Hl.
    unfold closed_after_teardown in Hl. rewrite Hs, list_lookup_alter_eq in Hl.
    destruct (closed_flags w !! s); discriminate.
  - destruct (disconnect_kept w) as ((_ & _ & _ & _ & _ & _ & [more Hm]) & _).
    unfold added. rewrite Hm, drop_app_length.
    rewrite Hm, sock_obs_app in O. now apply app_inv_head in O.
  - intros t Ht. unfold timer_at. rewrite disconnect_timers.
    now apply clear_ref_keeps_cleared, clear_ref_cleared.
  - intros t Ht. unfold timer_at. rewrite disconnect_timers.
    now apply clear_ref_cleared.
Qed.

(** C8, evaluated.  The "disconnect" listener stores its reconnect timeout
    in [reconnectTimeoutRef] without cancelling the one the ref held, and
    [connect] leaves the ref alone.  In [dropped_twice] two timeouts are
    pending, 2 and 5, and the ref holds 5.  [disconnect()] cancels 5 and
    leaves 2 pending, whether called once or twice; when 2 elapses, with no
    handle and no timer ref left, its [connect] creates and opens handle 2
    and starts a ping interval. *)
Theorem disconnect_leaves_a_reconnect_timeout :
  timer_at dropped_twice 2 = Some (TReconnect 0)
  /\ timer_at dropped_twice 5 = Some (TReconnect 0)
  /\ reconnectTimeoutRef dropped_twice = Some 5%nat
  /\ timer_at (disconnect dropped_twice) 5 = None
  /\ timer_at (disconnect dropped_twice) 2 = Some (TReconnect 0)
  /\ timer_at (disconnect (disconnect dropped_twice)) 2 = Some (TReconnect 0)
  /\ timers disconnected_by_consumer = [None; None; Some (TReconnect 0); None; None; None]
  /\ socketRef disconnected_by_consumer = None
  /\ closed_flags disconnected_by_consumer = [true; true]
  /\ sock_obs (added disconnected_by_consumer first_timeout_elapsed) = [OSockNew 2; OSockOpen 2]
  /\ socketRef first_timeout_elapsed = Some 2%nat
  /\ closed_flags first_timeout_elapsed = [true; true; false]
  /\ isConnecting (state first_timeout_elapsed) = true
  /\ timer_at first_timeout_elapsed 6 = Some TPing.
Proof. vm_compute. repeat split; reflexivity. Qed.

(** C10. No exception leaves [emit], [on] or [off]; when the transport's
    send throws inside [emit], nothing is sent, the error is logged and the
    callback, when there is one, receives [{ error: message }]. *)
Theorem emit_absorbs_transport_failure w :
  (forall ev data cb, snd (dispatch (EvEmit ev data cb) w) = Returned)
  /\ (forall ev h, snd (dispatch (EvOn ev h) w) = Returned)
  /\ (forall ev h, snd (dispatch (EvOff ev h) w) = Returned)
  /\ forall e ev data cb s message,
       socketRef w = Some s ->
       isConnected (sc_state (scope_at w e)) = true ->
       send_throws (env w) ev = Some message ->
       snd (emit e ev data cb w) = Returned
       /\ added w (fst (emit e ev data cb w)) =
          OLog "Emit error:" ::
            match cb with
            | Some c => [OCallback c (ArgObj (error_result message))]
            | None => []
            end
       /\ error_result message !! "error" = Some (JStr message)
       /\ sockets (fst (emit e ev data cb w)) = sockets w.
Proof.
  split; [intros; apply emit_returns|].
  split; [reflexivity|]. split; [reflexivity|].
  intros e ev data cb s message Hs Hc Ht.
  split; [apply emit_returns|].
  rewrite (emit_connected e ev data cb w s) by trivial. rewrite Ht. cbn [fst].
  split; [|split].
  - apply added_app. destruct cb; proj; now rewrite <- ?app_assoc.
  - reflexivity.
  - destruct cb; reflexivity.
Qed.

(** The transport of [connected_strict] throws on the reserved name; the
    caller's callback 7 gets the error. *)
Lemma emit_absorbs_transport_failure_witness :
  added connected_strict
        (fst (emit (sc_emit (current connected_strict)) "connect" ∅ (Some 7%nat)
                   connected_strict)) =
  [OLog "Emit error:"; OCallback 7 (ArgObj (error_result "reserved event name"))].
Proof.
  apply (proj2 (proj2 (proj2 (emit_absorbs_transport_failure connected_strict)))
           (sc_emit (current connected_strict)) "connect" ∅ (Some 7%nat) 0%nat);
    vm_compute; reflexivity.
Defined.

(** C9, as the code has it.  While connected, [emit] sends at once, on the
    current handle, the payload extended with [timestamp: Date.now()] and
    [requestId: crypto.randomUUID()] (both override a field of that name in
    the payload; every other field is the caller's), and registers an
    acknowledgment closure; each call consumes one UUID of the generator.
    When the server acknowledges, [lastActivity] is set and the callback,
    when there is one, receives the response. *)
Theorem emit_while_connected w e ev data cb s :
  socketRef w = Some s -> is_Some (sockets w !! s) ->
  isConnected (sc_state (scope_at w e)) = true ->
  send_throws (env w) ev = None ->
  let w' := fst (emit e ev data cb w) in
  let sent := emitData data (now w) (randomUUID (env w) (uuid_calls w)) in
  let ack := length (sk_acks (socket_at w s)) in
  snd (emit e ev data cb w) = Returned
  /\ added w w' = [OSend s ev sent (Some ack)]
  /\ sent !! "timestamp" = Some (JNum (now w))
  /\ sent !! "requestId" = Some (JStr (randomUUID (env w) (uuid_calls w)))
  /\ (forall k, k <> "timestamp" -> k <> "requestId" -> sent !! k = data !! k)
  /\ uuid_calls w' = S (uuid_calls w)
  /\ forall response,
       let w'' := fst (dispatch (EvAck s ack response) w') in
       added w' w'' = match cb with
                      | Some c => [OCallback c (ArgResponse response)]
                      | None => []
                      end
       /\ lastActivity (state w'') = Some (now w').
Proof.
  intros Hs [sk Hk] Hc Ht. cbv zeta.
  split; [apply emit_returns|].
  rewrite (emit_connected e ev data cb w s) by trivial. rewrite Ht. cbn [fst].
  split; [now apply added_app|].
  unfold emitData.
  split; [now rewrite lookup_insert_ne, lookup_insert_eq|].
  split; [now rewrite lookup_insert_eq|].
  split; [intros k H1 H2; now rewrite !lookup_insert_ne|].
  split; [reflexivity|].
  intros response. cbn [dispatch].
  assert (A : sk_acks (socket_at
                (emitObs (OSend s ev
                   (<["requestId":=JStr (randomUUID (env w) (uuid_calls w))]>
                      (<["timestamp":=JNum (now w)]> data))
                   (Some (length (sk_acks (socket_at w s)))))
                   (update_socket s (push_ack cb) (set_uuid_calls (S (uuid_calls w)) w))) s)
              !! length (sk_acks (socket_at w s)) = Some cb).
  { unfold socket_at. proj. rewrite list_lookup_alter_eq, Hk. cbn.
    rewrite lookup_app_r by lia. now rewrite Nat.sub_diag. }
  rewrite A. cbn [fst]. unfold on_ack. split.
  - apply added_app. destruct cb; proj; [reflexivity|now rewrite app_nil_r].
  - destruct cb; reflexivity.
Qed.

(** In [connected] the handshake is done; callback 7 is acknowledged. *)
Lemma emit_while_connected_witness :
  added connected
        (fst (emit (sc_emit (current connected)) "iot_message" ∅ (Some 7%nat) connected)) =
  [OSend 0 "iot_message" (emitData ∅ 1200 "uuid") (Some 0%nat)].
Proof.
  refine (proj1 (proj2 (emit_while_connected connected (sc_emit (current connected))
                          "iot_message" ∅ (Some 7%nat) 0%nat _ _ _ _)));
    vm_compute; eauto.
Defined.

(** C9 as stated fails: the identifiers are whatever the generator
    returns, in no order. *)
Lemma request_ids_not_monotonic :
  request_ids (trace two_emits) =
    ["f47ac10b-58cc-4372-a567-0e02b2c3d479"; "0a8f3c2e-1b7d-4e6a-9c05-3d2f1e0b4a67"]
  /\ ascending (request_ids (trace two_emits)) = false.
Proof. vm_compute. split; reflexivity. Qed.

(** C6. In a reachable world whose [isConnected] is false, the [emit]
    consumers hold appends the triple to [pendingEmits], invokes the
    callback (when there is one) at once with a result whose [queued] is
    true, then calls [connect] unless [isConnecting] is true, and returns
    normally. *)
Theorem emit_while_not_connected w ev data cb :
  reachable w -> isConnected (state w) = false ->
  let r := dispatch (EvEmit ev data cb) w in
  snd r = Returned
  /\ a_items (pendingEmits (state (fst r))) =
     a_items (pendingEmits (state w)) ++ [mkPending ev data cb]
  /\ (exists rest,
        added w (fst r) =
        match cb with
        | Some c => [OCallback c (ArgObj queued_result)]
        | None => []
        end ++ rest)
  /\ queued_result !! "queued" = Some (JBool true)
  /\ (isConnecting (state w) = true -> fst r = enqueue ev data cb w)
  /\ (isConnecting (state w) = false ->
      fst r = connect (sc_connect (current w)) (enqueue ev data cb w)).
Proof.
  intros R Hc. destruct (reachable_inv w R) as (_ & (sc & L & St & _) & M & _).
  destruct (M sc L) as (_ & Mc & Mg & Mn).
  cbv zeta. cbn [dispatch]. unfold current. rewrite L.
  change (default dummy_scope (Some sc)) with sc.
  split; [apply emit_returns|].
  rewrite emit_queued by (right; rewrite Mc, St; exact Hc).
  rewrite Mg, Mn, St. cbn [fst].
  destruct (enqueue_facts ev data cb w) as (Q & T & _).
  split; [|split; [|split; [reflexivity|split]]].
  - destruct (isConnecting (state w)); [exact Q|].
    destruct (connect_kept (sc_connect sc) (enqueue ev data cb w)) as (_ & _ & -> & _).
    exact Q.
  - destruct (isConnecting (state w)).
    + exists []. rewrite app_nil_r. now apply added_app.
    + destruct (connect_base (sc_connect sc) (enqueue ev data cb w))
        as (_ & _ & _ & _ & _ & _ & [more Hm]).
      exists more. apply added_app. now rewrite Hm, T, <- app_assoc.
  - now intros ->.
  - now intros ->.
Qed.

(** In [mounted] the handshake is in flight: the message is queued and the
    callback told so; nothing else happens. *)
Lemma emit_while_not_connected_witness :
  a_items (pendingEmits (state (fst (dispatch (EvEmit "iot_message" ∅ (Some 7%nat)) mounted)))) =
  a_items (pendingEmits (state mounted)) ++ [mkPending "iot_message" ∅ (Some 7%nat)].
Proof.
  refine (proj1 (proj2 (emit_while_not_connected mounted "iot_message" ∅ (Some 7%nat)
                          reachable_mounted _))).
  vm_compute. reflexivity.
Defined.

(** C1, evaluated.  The "connect" listener flushes the array its own
    render captured: when that array is empty it sends nothing and leaves
    the queue as it is, whatever was queued since.  So a message emitted
    while the handshake is in flight is queued; when the handshake completes, the "connect" listener runs the
    [processPendingEmits] of the render in which [connect] was created,
    whose [pendingEmits] is still empty: nothing is sent and the message
    stays queued.  When a later [connect] closure (created after the
    message was queued) sees its handshake complete, the captured [emit]
    still has [isConnected] false: the message is queued again, its
    callback told "queued" a second time, and the queue is then emptied.
    The message is never sent. *)
Theorem pending_emits_are_not_flushed :
  (forall c w,
     a_items (pendingEmits
                (sc_state (scope_at w (sc_processPendingEmits (scope_at w c))))) = [] ->
     pendingEmits (state (on_connect c w)) = pendingEmits (state w)
     /\ sent_events (added w (on_connect c w)) = [])
  /\ isConnected (state queued_then_connected) = true
  /\ sent_events (trace queued_then_connected) = []
  /\ map pe_event (a_items (pendingEmits (state queued_then_connected))) = ["iot_message"]
  /\ isConnected (state queued_then_reconnected) = true
  /\ sent_events (trace queued_then_reconnected) = []
  /\ a_items (pendingEmits (state queued_then_reconnected)) = []
  /\ callback_calls 5 (trace queued_then_reconnected) = 2%nat.
Proof.
  split; [exact on_connect_empty_capture|].
  vm_compute. repeat split; reflexivity.
Qed.

(** C2, evaluated.  [on] registers a wrapper around the handler; [off] with
    the handler itself finds nothing to remove, in the registry or on the
    handle: in every world with a current handle the wrapper is still
    attached after [on] then [off], and the handler still receives the next
    message.  [off] with
    the wrapper (what the function returned by [on] does) removes it. *)
Theorem off_with_the_handler_removes_nothing :
  (forall ev h w s sk,
     socketRef w = Some s -> sockets w !! s = Some sk ->
     In (ev, LFn (FLogged (next_id w) ev (FUser h)))
        (sk_listeners (socket_at (off ev (FUser h) (snd (on ev (FUser h) w))) s)))
  /\ handler_calls 7 (added unsubscribed delivered_after_off) = [JStr "hello"]
  /\ handler_calls 7 (added unsubscribed_by_wrapper delivered_after_unsubscribe) = [].
Proof.
  split; [exact on_off_keeps_wrapper|].
  vm_compute. split; reflexivity.
Qed.

Lemma connect_guards c w :
  let sc := scope_at w c in
  (truthy_user (user (sc_props sc)) = false \/ truthy_string (token (sc_props sc)) = false ->
   connect c w = console_log "No user or token, skipping WebSocket connection" w)
  /\ (truthy_user (user (sc_props sc)) = true -> truthy_string (token (sc_props sc)) = true ->
      ref_connected w = true ->
      connect c w = console_log "Socket already connected" w)
  /\ (truthy_user (user (sc_props sc)) = true -> truthy_string (token (sc_props sc)) = true ->
      ref_connected w = false -> isConnecting (sc_state sc) = true ->
      connect c w = console_log "Already connecting..." w).
Proof.
  cbv zeta. unfold connect. cbv zeta. repeat split.
  - intros [->| ->]; cbn [negb orb]; [reflexivity|]. now rewrite orb_true_r.
  - intros -> -> ->. reflexivity.
  - intros -> -> -> ->. reflexivity.
Qed.

(** C5, evaluated.  The three guards of [connect] do what the claim says
    for the constants the closure sees: without identity or token, with a
    connected handle, or with [isConnecting] true in its own render, the
    call only logs.  But [isConnecting] is not a dependency of the
    [connect] callback: after mounting, [isConnecting] is true while the
    [connect] consumers hold still sees false, and calling it closes the
    handle whose handshake is in flight and opens another. *)
Theorem connect_while_connecting_is_not_a_noop :
  (forall c w,
     truthy_user (user (sc_props (scope_at w c))) = false
     \/ truthy_string (token (sc_props (scope_at w c))) = false
     \/ ref_connected w = true
     \/ isConnecting (sc_state (scope_at w c)) = true ->
     forget_trace (connect c w) = forget_trace w)
  /\ isConnecting (state mounted) = true
  /\ isConnecting (sc_state (scope_at mounted (sc_connect (current mounted)))) = false
  /\ socketRef mounted = Some 0%nat
  /\ sock_obs (added mounted connect_while_connecting)
     = [OSockClose 0; OSockNew 1; OSockOpen 1]
  /\ socketRef connect_while_connecting = Some 1%nat.
Proof.
  split.
  - intros c w H. destruct (connect_guards c w) as (G1 & G2 & G3).
    destruct (truthy_user _) eqn:U; [|now rewrite G1 by auto].
    destruct (truthy_string _) eqn:T; [|now rewrite G1 by auto].
    destruct (ref_connected w) eqn:R; [now rewrite G2|].
    destruct H as [H|[H|[H|H]]]; try discriminate. now rewrite G3.
  - vm_compute. repeat split; reflexivity.
Qed.

(** C3 as stated fails.  The tenth failed handshake in a row brings
    [reconnectAttempts] to the maximum, and the manager at once closes the
    handle and opens another; "reconnect_failed" leaves it connecting, and
    an eleventh failure is retried like the others.  And when a dropped
    connection is given up by the transport, the page coming back to the
    foreground makes the manager connect again. *)
Lemma retries_continue_after_the_maximum :
  reconnectAttempts (state ten_failures) = config.reconnectionAttempts
  /\ sock_obs (added nine_failures ten_failures) = [OSockClose 9; OSockNew 10; OSockOpen 10]
  /\ isConnecting (state given_up) = true
  /\ sock_obs (added given_up eleven_failures) = [OSockClose 10; OSockNew 11; OSockOpen 11]
  /\ isConnected (state dropped_and_given_up) = false
  /\ isConnecting (state dropped_and_given_up) = false
  /\ sock_obs (added dropped_and_given_up back_in_foreground)
     = [OSockClose 0; OSockNew 1; OSockOpen 1].
Proof. vm_compute. repeat split; reflexivity. Qed.

(** The health check on a breach, in general.  Connected, between two
    events, with the health-check interval of render [k] pending: when the
    interval fires more than 60000 ms after the [lastActivity] it saw, its
    callback calls [disconnect] once and then [connect] once.  The handle
    that was current is closed, at most one handle is created,
    [isConnected] is false after the re-render and the interval is
    cancelled, so the same breach cannot fire again.  When the [connect]
    closure of that render passes its guards (identity present,
    [isConnecting] false in its own render), the transport sees exactly:
    close the old handle, create a new one, open it. *)
Lemma breach_disconnects_then_calls_connect w t k la tnow :
  settled w ->
  isConnected (state w) = true ->
  healthTimer w = Some t ->
  timers w !! t = Some (Some (THealth k)) ->
  lastActivity (sc_state (scope_at w k)) = Some la ->
  60000 < tnow - la ->
  let c := sc_connect (scope_at w k) in
  let w0 := set_now tnow w in
  let w' := step w (tnow, EvTimer t) in
  let s' := length (sockets w) in
  fst (dispatch (EvTimer t) w0) =
    connect c (disconnect (console_log "No activity for 60 seconds, reconnecting..." w0))
  /\ (sock_obs (added w w') = closes w
      \/ sock_obs (added w w') = closes w ++ [OSockNew s'; OSockOpen s'])
  /\ isConnected (state w') = false
  /\ healthTimer w' = None
  /\ timer_at w' t = None
  /\ (truthy_user (user (sc_props (scope_at w c))) = true ->
      truthy_string (token (sc_props (scope_at w c))) = true ->
      truthy_user (user (sc_props (scope_at w (sc_createSocket (scope_at w c))))) = true ->
      truthy_string (token (sc_props (scope_at w (sc_createSocket (scope_at w c))))) = true ->
      isConnecting (sc_state (scope_at w c)) = false ->
      sock_obs (added w w') = closes w ++ [OSockNew s'; OSockOpen s']
      /\ socketRef w' = Some s'
      /\ isConnecting (state w') = true).
Proof.
  intros (sc0 & L0 & St0 & P0) Hc Ht Htm Hla Hb c w0 w' s'.
  (* the interval callback *)
  set (wl := console_log "No activity for 60 seconds, reconnecting..." w0).
  set (wd := disconnect wl).
  set (wc := connect c wd).
  assert (D : fst (dispatch (EvTimer t) w0) = wc).
  { cbn [fst dispatch]. unfold fire_timer.
    replace (timers w0 !! t) with (Some (Some (THealth k))).
    now rewrite (health_check_breach k w0 la). }
  assert (W : w' = render (render wc)).
  { subst w'. unfold step, settle. cbn [fst snd]. fold w0. now rewrite D. }
  assert (Tl : trace wl = trace w ++ [OLog "No activity for 60 seconds, reconnecting..."])
    by reflexivity.
  assert (Cl : closes wl = closes w) by reflexivity.
  assert (Sl : scopes wl = scopes w) by reflexivity.
  assert (Pl : props wl = props w) by reflexivity.
  assert (Hl : healthTimer wl = healthTimer w) by reflexivity.
  assert (Stl : state wl = state w) by reflexivity.
  assert (Kl : length (sockets wl) = s') by reflexivity.
  (* disconnect *)
  pose proof (disconnect_kept wl) as (Bd & Ed & Pd & Rd & _).
  pose proof (disconnect_refs wl) as (Rfd & _ & _ & Cd & _).
  pose proof (disconnect_spec wl) as (Fd & Od).
  pose proof (closed_after_teardown_length wl) as Ld.
  (* connect *)
  pose proof (connect_fresh c wd) as Fc.
  pose proof (connect_cases c wd) as Cs.
  pose proof (connect_isConnected c wd) as Ic.
  pose proof (connect_kept c wd) as (Bc & Ec & Pc & Rtc & _).
  fold wd in Bd, Ed, Pd, Rd, Rfd, Cd, Fd, Od. fold wc in Fc, Cs, Ic, Bc, Ec, Pc, Rtc.
  split; [exact D|].
  clearbody wc. clearbody wd. clearbody wl. clear D. clearbody w'. clear w0.
  destruct Bd as (Sd & Prd & _ & Hd & _ & _ & [md Td]).
  rewrite <- Fd in Ld. unfold closed_flags in Ld. rewrite length_fmap, Kl in Ld.
  assert (Sc : forall i, scope_at wd i = scope_at w i)
    by (intros i; unfold scope_at; now rewrite Sd, Sl).
  specialize (Ic Rfd). rewrite Cd in Ic.
  destruct Bc as (Scc & Prc & _ & Hcc & _ & _ & [mc Tc]).
  (* first render *)
  assert (L1 : last (scopes wc) = Some sc0) by (now rewrite Scc, Sd, Sl).
  destruct (render_scope_stable wc sc0 L1) as (Cn1 & A1).
  { now rewrite Prc, Prd, Pl. }
  { rewrite St0, Ec, Ed, Stl. reflexivity. }
  { rewrite St0, Rtc, Rd, Stl. reflexivity. }
  rewrite <- L1 in A1.
  assert (H1 : health_changed (last (scopes wc)) (render_scope wc) = true).
  { rewrite L1. unfold health_changed. change (sc_state (render_scope wc)) with (state wc).
    rewrite St0, Hc, Ic. reflexivity. }
  destruct (render_idle wc A1) as (S1 & R1 & K1 & T1).
  destruct (render_health_off wc A1 H1 Ic) as (HT1 & TA1).
  destruct (render_outer wc) as (Sc1 & P1 & _).
  assert (C1 : sc_state (render_scope wc) = state wc) by reflexivity.
  assert (C2 : sc_props (render_scope wc) = props wc) by reflexivity.
  revert S1 R1 K1 T1 HT1 TA1 Sc1 P1 W.
  generalize (render wc). intros w1 S1 R1 K1 T1 HT1 TA1 Sc1 P1 W.
  (* second render *)
  assert (L2 : last (scopes w1) = Some (render_scope wc)) by (rewrite Sc1; apply last_snoc).
  destruct (render_scope_stable w1 (render_scope wc) L2) as (Cn2 & A2).
  { now rewrite C2, P1. }
  { now rewrite C1, S1. }
  { now rewrite C1, S1. }
  rewrite <- L2 in A2.
  assert (H2 : health_changed (last (scopes w1)) (render_scope w1) = false).
  { rewrite L2. unfold health_changed. rewrite Cn2.
    change (sc_state (render_scope w1)) with (state w1).
    rewrite C1, S1, !same_refl. reflexivity. }
  destruct (render_idle w1 A2) as (S2 & R2 & K2 & T2).
  destruct (render_health_same w1 A2 H2) as (HT2 & TM2).
  (* the trace of the whole step *)
  rewrite Td, sock_obs_app in Od. apply app_inv_head in Od.
  assert (Ad : forall more, sock_obs mc = more -> sock_obs (added w w') = closes w ++ more).
  { intros more <-. unfold added.
    rewrite W, T2, T1, Tc, Td, Tl, <- !app_assoc, drop_app_length.
    now rewrite !sock_obs_app, Od, Cl. }
  rewrite W in *. clear W w'.
  rewrite S2, S1, R2, R1, HT2, HT1. unfold timer_at in *. rewrite TM2.
  split; [|split; [exact Ic|split; [reflexivity|split]]].
  - destruct Cs as [[_ [O|O]]|(_ & _ & O)].
    + left. rewrite <- (app_nil_r (closes w)). apply Ad.
      apply (app_inv_head (sock_obs (trace wd))).
      now rewrite app_nil_r, <- sock_obs_app, <- Tc.
    + left. rewrite <- (app_nil_r (closes w)). apply Ad.
      unfold closes in O. rewrite Rfd, app_nil_r in O.
      apply (app_inv_head (sock_obs (trace wd))).
      now rewrite app_nil_r, <- sock_obs_app, <- Tc.
    + right. apply Ad. unfold closes in O. rewrite Rfd, Ld in O. cbn [app] in O.
      rewrite Tc, sock_obs_app in O. now apply app_inv_head in O.
  - apply TA1. now rewrite Hcc, Hd, Hl.
  - intros U T U' T' G.
    destruct Fc as (Rc & Oc & Gc & _); rewrite ?Sc; trivial.
    rewrite Ld in Rc, Oc. rewrite Tc, sock_obs_app in Oc. apply app_inv_head in Oc.
    auto.
Qed.

(** In [connected], last activity at 1200; the health interval (timer 1,
    of render 2) fires at 91200. *)
Lemma breach_in_connected :
  sock_obs (added connected (step connected (91200, EvTimer 1%nat)))
  = [OSockClose 0; OSockNew 1; OSockOpen 1].
Proof.
  refine (proj1 (proj2 (proj2 (proj2 (proj2 (proj2
            (breach_disconnects_then_calls_connect connected 1 2 1200 91200
               _ _ _ _ _ _))))) _ _ _ _ _)).
  - exists (current connected). vm_compute. repeat split; reflexivity.
  - vm_compute. reflexivity.
  - vm_compute. reflexivity.
  - vm_compute. reflexivity.
  - vm_compute. reflexivity.
  - vm_compute. reflexivity.
  - vm_compute. reflexivity.
  - vm_compute. reflexivity.
  - vm_compute. reflexivity.
  - vm_compute. reflexivity.
  - vm_compute. reflexivity.
Qed.

(** C4, evaluated.  [connect] tests the [isConnecting] of the render that
    created it, and [isConnecting] is not among its dependencies.  In
    [connected_by_timeout] the manager is connected on handle 3, which the
    [connect] of the first render opened from a reconnect timeout, while
    the [connect] of the current render was created during a handshake and
    has [isConnecting] true in scope.  Three pings are sent on handle 3 and
    nothing arrives.  The health interval sees no breach at 30 and at 60
    seconds; at 90 seconds its callback closes handle 3 and its [connect]
    logs "Already connecting..." and returns.  No handle is created, no
    timer is left, and a visibility change or a consumer's [connect()]
    afterwards is refused in the same way. *)
Theorem stale_connection_is_not_reconnected :
  isConnected (state connected_by_timeout) = true
  /\ socketRef connected_by_timeout = Some 3%nat
  /\ sk_connected (socket_at connected_by_timeout 3) = true
  /\ lastActivity (state connected_by_timeout) = Some 7200
  /\ sent_events (added connected_by_timeout silent) = [(3%nat, "ping"); (3%nat, "ping"); (3%nat, "ping")]
  /\ sock_obs (added connected_by_timeout silent) = []
  /\ isConnected (state silent) = true
  /\ isConnecting (state silent) = false
  /\ socketRef silent = Some 3%nat
  /\ lastActivity (state silent) = Some 7200
  /\ timer_at silent 8 = Some (THealth 18)
  /\ sc_connect (current silent) = 14%nat
  /\ isConnecting (sc_state (scope_at silent 14)) = true
  /\ added silent breached
     = [OLog "No activity for 60 seconds, reconnecting..."; OSockClose 3;
        OLog "WebSocket disconnected:"; OLog "WebSocket disconnected";
        OLog "Already connecting..."]
  /\ socketRef breached = None
  /\ closed_flags breached = [true; true; true; true]
  /\ isConnected (state breached) = false
  /\ isConnecting (state breached) = false
  /\ timers breached = [None; None; None; None; None; None; None; None; None]
  /\ added breached after_breach
     = [OLog "Reconnecting due to visibility change"; OLog "Already connecting...";
        OLog "Already connecting..."].
Proof. vm_compute. repeat split; reflexivity. Qed.

(** C3, as the code has it.  The manager keeps no failed state and never
    compares [reconnectAttempts] with the maximum.  In a reachable world the
    "reconnect_failed" listener only logs, raises the error notification
    and records telemetry: flags, counter, handles and timers are as they
    were.  A visibility change calls [connect] exactly when the page is
    visible, a user is present and the manager is neither connected nor
    connecting, whatever the counter says. *)
Theorem reconnect_failed_is_not_terminal w :
  reachable w ->
  (forall c,
     forget_trace (on_reconnect_failed c w) = forget_trace w
     /\ added w (on_reconnect_failed c w) =
        [OLog "Reconnection failed";
         ONotify "error" "Failed to reconnect. Please refresh the page.";
         OTrack "websocket_reconnect_failed"])
  /\ (truthy_user (user (props w)) = true ->
      isConnected (state w) = false -> isConnecting (state w) = false ->
      fst (dispatch (EvVisibility true) w) =
      connect (sc_connect (current w))
              (console_log "Reconnecting due to visibility change" w))
  /\ (truthy_user (user (props w)) = false
      \/ isConnected (state w) = true \/ isConnecting (state w) = true ->
      fst (dispatch (EvVisibility true) w) = w)
  /\ fst (dispatch (EvVisibility false) w) = w.
Proof.
  intros R. destruct (reachable_inv w R) as (_ & (sc & L & St & P) & _ & V).
  destruct (V sc L) as (k & Hk & _ & H1 & H2 & H3 & H4).
  rewrite St in H2, H3. rewrite P in H1.
  split; [|split; [|split]].
  - intros c. split; [reflexivity|].
    apply added_app. unfold on_reconnect_failed. cbv zeta. proj.
    now rewrite <- !app_assoc.
  - intros U C G. cbn [dispatch]. rewrite Hk. cbn [fst].
    unfold handleVisibilityChange. cbv zeta. rewrite H1, H2, H3, H4, U, C, G.
    unfold current. rewrite L. reflexivity.
  - intros H. cbn [dispatch]. rewrite Hk. cbn [fst].
    unfold handleVisibilityChange. cbv zeta. rewrite H1, H2, H3.
    destruct H as [-> | [-> | ->]]; cbn [andb negb]; rewrite ?andb_false_r; reflexivity.
  - cbn [dispatch]. rewrite Hk. reflexivity.
Qed.

(** After the drop and the transport giving up, the manager is neither
    connected nor connecting; the page becoming visible calls [connect]. *)
Lemma reconnect_failed_is_not_terminal_witness :
  fst (dispatch (EvVisibility true) dropped_and_given_up) =
  connect (sc_connect (current dropped_and_given_up))
          (console_log "Reconnecting due to visibility change" dropped_and_given_up).
Proof.
  refine (proj1 (proj2 (reconnect_failed_is_not_terminal dropped_and_given_up _)) _ _ _).
  - unfold dropped_and_given_up, connected. do 2 apply reachable_more.
    exact reachable_mounted.
  - vm_compute. reflexivity.
  - vm_compute. reflexivity.
  - vm_compute. reflexivity.
Defined.

(** ** Further properties of the hook *)

(** X1. Mounting, in a production build.  When the component mounts with
    a user and a non-empty token, the auto-connect effect opens exactly one
    handle, with the lifecycle listeners of the first [connect] attached,
    marks the manager as connecting and starts the ping interval.  Without
    a user or without a token no handle is created and no timer is started:
    the effect only calls [disconnect], which logs.  (A development build
    mounts differently under [React.StrictMode]: that is [mount_strict].) *)
Theorem mount_opens_one_handle e p t :
  let w := mount e p t in
  if truthy_user (user p) && truthy_string (token p)
  then trace w = [OSockNew 0; OSockOpen 0]
       /\ socketRef w = Some 0%nat
       /\ sk_listeners (socket_at w 0) = lifecycle_listeners 0
       /\ isConnecting (state w) = true /\ isConnected (state w) = false
       /\ timers w = [Some TPing] /\ pingIntervalRef w = Some 0%nat
       /\ healthTimer w = None
  else trace w = [OLog "WebSocket disconnected"]
       /\ socketRef w = None /\ sockets w = []
       /\ isConnecting (state w) = false /\ isConnected (state w) = false
       /\ timers w = [] /\ pingIntervalRef w = None /\ healthTimer w = None.
Proof.
  cbv zeta. destruct (truthy_user (user p) && truthy_string (token p)) eqn:I.
  - apply andb_true_iff in I as [U T]. now apply mount_with_identity.
  - now apply mount_without_identity.
Qed.

(** X2. [connect] never takes its failure branch.  In any world met while
    an event is handled (the renders are those of a reachable world), a
    call of any [connect] closure either returns at one of its three
    guards, having only logged, or ends with a new live handle in
    [socketRef], [isConnecting] set and [connectionError] cleared:
    [createSocket] tests the same identity as the first guard, so it never
    returns null there and "Failed to create socket" is never thrown. *)
Theorem connect_never_fails_to_create w0 w c :
  reachable w0 -> scopes w = scopes w0 ->
  connect c w = console_log "No user or token, skipping WebSocket connection" w
  \/ connect c w = console_log "Socket already connected" w
  \/ connect c w = console_log "Already connecting..." w
  \/ (socketRef (connect c w) = Some (length (sockets w))
      /\ live (connect c w) (length (sockets w))
      /\ isConnecting (state (connect c w)) = true
      /\ connectionError (state (connect c w)) = None).
Proof.
  intros R S.
  pose proof (scopes_closures_ok w0 w S (reachable_closures_ok w0 R)) as C.
  destruct (truthy_user (user (sc_props (scope_at w c)))) eqn:U;
    [|left; unfold connect; cbv zeta; now rewrite U].
  destruct (truthy_string (token (sc_props (scope_at w c)))) eqn:T;
    [|left; unfold connect; cbv zeta; now rewrite U, T].
  right.
  destruct (ref_connected w) eqn:RC;
    [left; unfold connect; cbv zeta; now rewrite U, T, RC|].
  right.
  destruct (isConnecting (sc_state (scope_at w c))) eqn:G;
    [left; unfold connect; cbv zeta; now rewrite U, T, RC, G|].
  right.
  assert (L : exists sc, scopes w !! c = Some sc).
  { unfold scope_at in U. destruct (scopes w !! c); [eauto|discriminate]. }
  destruct L as (sc & L). destruct (C c sc L) as (_ & _ & U' & T').
  assert (E : scope_at w c = sc) by (unfold scope_at; now rewrite L).
  rewrite E in *.
  destruct (connect_opens c w) as (A1 & _ & A3 & _ & A5 & _); rewrite ?E, ?U', ?T'; trivial.
  rewrite A5. repeat split; trivial.
  unfold socket_at in A3. unfold live.
  destruct (sockets (connect c w) !! length (sockets w)) as [sk|]; [eauto|discriminate].
Qed.

(** A consumer calls [connect()] right after the mount: the fourth case. *)
Lemma connect_never_fails_to_create_witness :
  connect 0 mounted = console_log "No user or token, skipping WebSocket connection" mounted
  \/ connect 0 mounted = console_log "Socket already connected" mounted
  \/ connect 0 mounted = console_log "Already connecting..." mounted
  \/ (socketRef (connect 0 mounted) = Some (length (sockets mounted))
      /\ live (connect 0 mounted) (length (sockets mounted))
      /\ isConnecting (state (connect 0 mounted)) = true
      /\ connectionError (state (connect 0 mounted)) = None).
Proof. exact (connect_never_fails_to_create mounted mounted 0 reachable_mounted eq_refl). Defined.

(** X3. The handle [connect] creates.  When a [connect] closure passes its
    guards, the handle it creates carries exactly the seven lifecycle
    listeners of that closure, in the order of the source, followed by
    every handler of the registry the closure has in scope, entry by entry,
    the sets read as they are at the call; the handle is open for a
    handshake (neither closed nor connected), it is the one in [socketRef],
    and a ping interval is running and owned by [pingIntervalRef]. *)
Theorem connect_attaches_listeners w0 w c :
  reachable w0 -> scopes w = scopes w0 ->
  truthy_user (user (sc_props (scope_at w c))) = true ->
  truthy_string (token (sc_props (scope_at w c))) = true ->
  ref_connected w = false ->
  isConnecting (sc_state (scope_at w c)) = false ->
  let n := length (sockets w) in
  socketRef (connect c w) = Some n
  /\ sk_listeners (socket_at (connect c w) n) =
     lifecycle_listeners c
       ++ registry_listeners (eventListeners (sc_state (scope_at w c))) (sets w)
  /\ sk_closed (socket_at (connect c w) n) = false
  /\ sk_connected (socket_at (connect c w) n) = false
  /\ exists t, pingIntervalRef (connect c w) = Some t /\ timer_at (connect c w) t = Some TPing.
Proof.
  intros R S U T RC G n.
  pose proof (scopes_closures_ok w0 w S (reachable_closures_ok w0 R)) as C.
  assert (L : exists sc, scopes w !! c = Some sc).
  { unfold scope_at in U. destruct (scopes w !! c); [eauto|discriminate]. }
  destruct L as (sc & L). destruct (C c sc L) as (_ & _ & U' & T').
  assert (E : scope_at w c = sc) by (unfold scope_at; now rewrite L).
  rewrite E in *.
  destruct (connect_opens c w) as (A1 & A2 & A3 & A4 & _ & _ & _ & _ & A9);
    rewrite ?E, ?U', ?T'; trivial.
  rewrite E in A2. auto.
Qed.

(** In [subscribed] one handler is registered under "notification" and
    handle 1 is in its handshake; a consumer calls [connect()] (the closure
    of render 4). *)
Lemma connect_attaches_listeners_witness :
  sk_listeners (socket_at (connect 4 subscribed) 2) =
  lifecycle_listeners 4 ++ [("notification", LFn (FLogged 2 "notification" (FUser 7)))].
Proof.
  refine (proj1 (proj2 (connect_attaches_listeners subscribed subscribed 4 _ eq_refl _ _ _ _))).
  - unfold subscribed, connected. do 2 apply reachable_more. exact reachable_mounted.
  - vm_compute. reflexivity.
  - vm_compute. reflexivity.
  - vm_compute. reflexivity.
  - vm_compute. reflexivity.
Defined.

(** X4. Every change of the subscriptions replaces the transport.  [on],
    [off] and [removeAllListeners] each put a new [Map] in the state;
    [connect] depends on it, and the auto-connect effect depends on
    [connect].  So from any reachable world with an identity, one such call
    makes the next render run the effect's cleanup and body: the current
    handle is closed, and a new one is created and opened, carrying every
    handler of the registry as it is now (so after [on] the new wrapper),
    unless a handshake was in flight, in which case the new [connect]
    returns at its [isConnecting] guard and no handle is left. *)
Theorem subscription_change_replaces_the_transport w t e :
  reachable w ->
  truthy_user (user (props w)) = true -> truthy_string (token (props w)) = true ->
  match e with
  | EvOn _ _ | EvOff _ _ | EvRemoveAllListeners _ => True
  | _ => False
  end ->
  let n := length (sockets w) in
  let w' := step w (t, e) in
  isConnected (state w') = false
  /\ if isConnecting (state w)
     then sock_obs (added w w') = closes w
          /\ socketRef w' = None
          /\ isConnecting (state w') = false
     else sock_obs (added w w') = closes w ++ [OSockNew n; OSockOpen n]
          /\ socketRef w' = Some n
          /\ isConnecting (state w') = true
          /\ sk_listeners (socket_at w' n) =
             lifecycle_listeners (length (scopes w))
               ++ registry_listeners (eventListeners (state w')) (sets w')
          /\ forall ev h, e = EvOn ev h ->
               In (ev, LFn (FLogged (next_id w) ev h)) (sk_listeners (socket_at w' n)).
Proof.
  intros R U T He. cbv zeta.
  destruct (reachable_inv w R) as (_ & (ps & L & St & Pr) & _).
  pose proof (reachable_closures_ok w R) as C.
  pose proof (reachable_registry_ok w R) as G.
  apply (regs_registry_ok _ _ (set_now_regs t w)) in G.
  destruct G as (M & G').
  pose proof (registry_event_quiet e (set_now t w) He) as Q. cbv zeta in Q.
  assert (Hon : forall ev h, e = EvOn ev h ->
            In (ev, LFn (FLogged (next_id w) ev h))
               (registry_listeners (eventListeners (state (fst (dispatch e (set_now t w)))))
                                   (sets (fst (dispatch e (set_now t w)))))).
  { intros ev h ->. cbn [dispatch fst].
    apply (on_registers ev h (set_now t w)). split; assumption. }
  unfold step. cbn [fst snd]. revert Q Hon.
  generalize (fst (dispatch e (set_now t w))). intros w1 (S1 & P1 & R1 & T1 & I1 & K1 & N1) Hon.
  change (scopes (set_now t w)) with (scopes w) in S1.
  change (props (set_now t w)) with (props w) in P1.
  change (socketRef (set_now t w)) with (socketRef w) in R1.
  change (trace (set_now t w)) with (trace w) in T1.
  change (state (set_now t w)) with (state w) in I1, M.
  change (sockets (set_now t w)) with (sockets w) in K1.
  change (next_id (set_now t w)) with (next_id w) in N1, M.
  assert (L1 : last (scopes w1) = Some ps) by (now rewrite S1).
  destruct (settle_reconnects w1 ps) as (A1 & A2 & A3 & [more A4] & A5).
  - eapply scopes_closures_ok; [|exact C]. exact S1.
  - exact L1.
  - rewrite S1, <- (f_equal (@length Scope) S1). apply (recreated_by_registry w1 ps L1).
    rewrite St. lia.
  - now rewrite P1.
  - now rewrite P1.
  - revert A1 A2 A3 A4 A5. generalize (settle w1). intros w' A1 A2 A3 A4 A5.
    rewrite T1 in A4. rewrite T1 in A5.
    unfold closes in A5 |- *. rewrite R1, I1, K1, S1 in A5.
    split; [exact A1|].
    destruct (isConnecting (state w)).
    + destruct A5 as (B1 & B2 & B3).
      repeat split; trivial. eapply sock_obs_added; eauto.
    + destruct A5 as (B1 & B2 & B3 & B4).
      rewrite A3, A2.
      repeat split; trivial; [eapply sock_obs_added; eauto|].
      intros ev h E. rewrite B4. apply in_or_app. right. auto.
Qed.

(** A consumer subscribes while connected: handle 0 is closed and handle
    1 is created and opened. *)
Lemma subscription_change_replaces_the_transport_witness :
  sock_obs (added connected (step connected (1300, EvOn "notification" (FUser 7))))
  = [OSockClose 0; OSockNew 1; OSockOpen 1].
Proof.
  assert (R : reachable connected).
  { unfold connected. apply reachable_more. exact reachable_mounted. }
  pose proof (subscription_change_replaces_the_transport connected 1300
                (EvOn "notification" (FUser 7)) R
                ltac:(vm_compute; reflexivity) ltac:(vm_compute; reflexivity) I) as H.
  cbv zeta in H. destruct H as (_ & H).
  replace (isConnecting (state connected)) with false in H by (vm_compute; reflexivity).
  destruct H as (H & _). exact H.
Defined.

(** X5. A change of what the surrounding hooks return, with an identity
    present afterwards (a refreshed token, another user, a new
    [showNotification] or [trackEvent]), replaces the transport: every field
    of those values is a dependency of [connect].  The current handle is
    closed, and a new one is created and opened with the registry's
    handlers attached, unless a handshake was in flight: then the current
    handle is closed and none is opened. *)
Theorem identity_change_replaces_the_transport w t p :
  reachable w -> p <> props w ->
  truthy_user (user p) = true -> truthy_string (token p) = true ->
  let n := length (sockets w) in
  let w' := step w (t, EvAuth p) in
  isConnected (state w') = false
  /\ if isConnecting (state w)
     then sock_obs (added w w') = closes w
          /\ socketRef w' = None
          /\ isConnecting (state w') = false
     else sock_obs (added w w') = closes w ++ [OSockNew n; OSockOpen n]
          /\ socketRef w' = Some n
          /\ isConnecting (state w') = true
          /\ sk_listeners (socket_at w' n) =
             lifecycle_listeners (length (scopes w))
               ++ registry_listeners (eventListeners (state w)) (sets w).
Proof.
  intros R Hp U T. cbv zeta.
  destruct (reachable_inv w R) as (_ & (ps & L & St & Pr) & _).
  pose proof (reachable_closures_ok w R) as C.
  unfold step. cbn [fst snd dispatch].
  destruct (settle_reconnects (set_props p (set_now t w)) ps) as (A1 & A2 & A3 & [more A4] & A5).
  - eapply scopes_closures_ok; [|exact C]. reflexivity.
  - exact L.
  - apply (recreated_by_props (set_props p (set_now t w)) ps L). rewrite Pr.
    intros E. apply Hp. symmetry. exact E.
  - exact U.
  - exact T.
  - revert A1 A2 A3 A4 A5. generalize (settle (set_props p (set_now t w))).
    intros w' A1 A2 A3 A4 A5.
    change (trace (set_props p (set_now t w))) with (trace w) in A4, A5.
    change (closes (set_props p (set_now t w))) with (closes w) in A5.
    change (state (set_props p (set_now t w))) with (state w) in A5.
    change (sockets (set_props p (set_now t w))) with (sockets w) in A5.
    change (scopes (set_props p (set_now t w))) with (scopes w) in A5.
    change (sets (set_props p (set_now t w))) with (sets w) in A5.
    split; [exact A1|].
    destruct (isConnecting (state w)).
    + destruct A5 as (B1 & B2 & B3).
      repeat split; trivial. eapply sock_obs_added; eauto.
    + destruct A5 as (B1 & B2 & B3 & B4).
      repeat split; trivial. eapply sock_obs_added; eauto.
Qed.

(** The token is refreshed while connected: handle 0 is closed and handle
    1 is created and opened. *)
Lemma identity_change_replaces_the_transport_witness :
  sock_obs (added connected (step connected (1300, EvAuth alice_refreshed)))
  = [OSockClose 0; OSockNew 1; OSockOpen 1].
Proof.
  assert (R : reachable connected).
  { unfold connected. apply reachable_more. exact reachable_mounted. }
  pose proof (identity_change_replaces_the_transport connected 1300 alice_refreshed R
                ltac:(vm_compute; discriminate)
                ltac:(vm_compute; reflexivity) ltac:(vm_compute; reflexivity)) as H.
  cbv zeta in H. destruct H as (_ & H).
  replace (isConnecting (state connected)) with false in H by (vm_compute; reflexivity).
  destruct H as (H & _). exact H.
Defined.

(** X6. Losing the identity tears everything down and keeps the queue.
    When the surrounding hooks return new values without a user or without
    a token, the next render closes the current handle, opens none, leaves
    no live handle and no ping interval, clears the three refs and the
    connection flags; the pending emits and the registry stay as they
    were. *)
Theorem logout_tears_down w t p :
  reachable w -> p <> props w ->
  truthy_user (user p) && truthy_string (token p) = false ->
  let w' := step w (t, EvAuth p) in
  no_live w'
  /\ sock_obs (added w w') = closes w
  /\ socketRef w' = None /\ pingIntervalRef w' = None /\ reconnectTimeoutRef w' = None
  /\ isConnected (state w') = false /\ isConnecting (state w') = false
  /\ connectionError (state w') = None
  /\ (forall i, timer_at w' i <> Some TPing)
  /\ pendingEmits (state w') = pendingEmits (state w)
  /\ eventListeners (state w') = eventListeners (state w).
Proof.
  intros R Hp I. cbv zeta.
  destruct (reachable_inv w R) as (Li & (ps & L & St & Pr) & _).
  pose proof (reachable_closures_ok w R) as C.
  pose proof (reachable_intervals_ok _ (reachable_step w (t, EvAuth p) R)) as Iv.
  revert Iv. unfold step. cbn [fst snd dispatch]. intros Iv.
  destruct (settle_tears_down (set_props p (set_now t w)) ps)
    as (A1 & [more A2] & A3 & A4 & A5 & A6 & A7 & A8 & A9 & A10 & A11).
  - eapply handles_live_inv; [|exact Li]. peel.
  - eapply scopes_closures_ok; [|exact C]. reflexivity.
  - exact L.
  - apply (recreated_by_props (set_props p (set_now t w)) ps L). rewrite Pr.
    intros E. apply Hp. symmetry. exact E.
  - exact I.
  - revert Iv A1 A2 A3 A4 A5 A6 A7 A8 A9 A10 A11.
    generalize (settle (set_props p (set_now t w))).
    intros w' Iv A1 A2 A3 A4 A5 A6 A7 A8 A9 A10 A11.
    repeat split; trivial.
    + eapply sock_obs_added; eauto.
    + intros i E. unfold timer_at in E.
      destruct (timers w' !! i) as [[x|]|] eqn:Q; cbn in E; try discriminate.
      injection E as ->. apply Iv in Q. congruence.
Qed.

(** The user logs out while connected: handle 0 is closed, nothing is
    opened. *)
Lemma logout_tears_down_witness :
  sock_obs (added connected (step connected (1300, EvAuth nobody))) = [OSockClose 0]
  /\ socketRef (step connected (1300, EvAuth nobody)) = None.
Proof.
  assert (R : reachable connected).
  { unfold connected. apply reachable_more. exact reachable_mounted. }
  pose proof (logout_tears_down connected 1300 nobody R
                ltac:(vm_compute; discriminate) ltac:(vm_compute; reflexivity)) as H.
  cbv zeta in H. destruct H as (_ & H1 & H2 & _). split; [exact H1|exact H2].
Defined.

(** X7. A failed handshake is retried at once on a new handle.  The
    "connect_error" listener sets [reconnectAttempts] to the sum, as JS
    computes it, of 1 and the value its [connect] had in scope, and clears
    [isConnecting]; [reconnectAttempts] is a dependency of [connect], so
    when the counter changes the re-render runs the auto-connect effect:
    the handle that failed is closed (ending the transport's own retries on
    it) and a new one is created and opened, without any delay.  (The sum
    is one more for every counter from 0 to 2^53 - 1; at 2^53 it is the
    counter itself: see [js_add_one] and [js_add_one_stuck].) *)
Theorem handshake_failure_retries_at_once w s c error tnow :
  reachable w ->
  truthy_user (user (props w)) = true -> truthy_string (token (props w)) = true ->
  listeners_of SOCKET_EVENTS.CONNECT_ERROR (socket_at w s) = [LConnectError c] ->
  js_add (reconnectAttempts (sc_state (scope_at w c))) 1 <> reconnectAttempts (state w) ->
  let n := length (sockets w) in
  let w' := step w (tnow, EvSocket s SOCKET_EVENTS.CONNECT_ERROR error) in
  sock_obs (added w w') = closes w ++ [OSockNew n; OSockOpen n]
  /\ socketRef w' = Some n
  /\ isConnecting (state w') = true /\ isConnected (state w') = false
  /\ reconnectAttempts (state w') = js_add (reconnectAttempts (sc_state (scope_at w c))) 1.
Proof.
  intros R U T Hl Hn. cbv zeta.
  destruct (reachable_inv w R) as (_ & (ps & L & St & Pr) & _).
  pose proof (reachable_closures_ok w R) as C.
  unfold step. cbn [fst snd dispatch].
  rewrite (listeners_after_flag s SOCKET_EVENTS.CONNECT_ERROR [LConnectError c]
             (set_now tnow w) Hl) by discriminate.
  cbn [fold_left run_listener].
  pose proof (on_connect_error_spec c error
                (update_socket s (transport_flag SOCKET_EVENTS.CONNECT_ERROR) (set_now tnow w)))
    as D. cbv zeta in D. revert D.
  generalize (on_connect_error c error
                (update_socket s (transport_flag SOCKET_EVENTS.CONNECT_ERROR) (set_now tnow w))).
  intros w1 (S1 & P1 & F1 & K1 & _ & _ & G1 & _ & A1 & O1 & [m1 T1]).
  revert S1 P1 F1 K1 A1 O1 T1. unfold update_socket. proj.
  change (scope_at (set_sockets (alter (transport_flag SOCKET_EVENTS.CONNECT_ERROR) s (sockets w))
                      (set_now tnow w)) c) with (scope_at w c).
  intros S1 P1 F1 K1 A1 O1 T1.
  assert (L1 : last (scopes w1) = Some ps) by (now rewrite S1).
  destruct (settle_reconnects w1 ps) as (B1 & _ & _ & [more B4] & B5).
  - eapply scopes_closures_ok; [|exact C]. exact S1.
  - exact L1.
  - apply (recreated_by_attempts w1 ps L1). rewrite St, A1. congruence.
  - now rewrite P1.
  - now rewrite P1.
  - rewrite G1 in B5. destruct B5 as (B5 & B6 & B7 & _).
    destruct (render_outer w1) as (_ & _ & _ & _ & _ & Ra).
    destruct (render_outer (render w1)) as (_ & _ & _ & _ & _ & Rb).
    fold (settle w1) in Rb.
    revert B1 B4 B5 B6 B7 Rb. generalize (settle w1). intros w' B1 B4 B5 B6 B7 Rb.
    assert (Kl : length (sockets w1) = length (sockets w)) by (now rewrite K1, length_alter).
    rewrite Kl in B5, B6. unfold closes in B6 |- *. rewrite F1, O1 in B6.
    repeat split; trivial; [|congruence].
    apply (sock_obs_added w w' (m1 ++ more)); [|exact B6].
    rewrite B4, T1. now rewrite app_assoc.
Qed.

(** The first handshake of [mounted] fails: handle 0 is closed and handle
    1 is opened in the same step. *)
Lemma handshake_failure_retries_at_once_witness :
  sock_obs (added mounted (step mounted (1001, EvSocket 0 "connect_error" (JStr "timeout"))))
  = [OSockClose 0; OSockNew 1; OSockOpen 1].
Proof.
  pose proof (handshake_failure_retries_at_once mounted 0 0 (JStr "timeout") 1001
                reachable_mounted
                ltac:(vm_compute; reflexivity) ltac:(vm_compute; reflexivity)
                ltac:(vm_compute; reflexivity) ltac:(vm_compute; discriminate)) as H.
  cbv zeta in H. destruct H as (H & _). exact H.
Defined.

(** X8. The first success after a failure is thrown away.  The "connect"
    listener resets [reconnectAttempts] to 0.  When the counter was not 0
    (a handshake had failed before), that changes a dependency of
    [connect]: the re-render closes the handle that has just connected and
    opens a new one, and the manager is connecting again, not connected.
    (The queue the listener's closure has in scope is empty here.) *)
Theorem success_after_failure_is_cycled w s c arg tnow :
  reachable w ->
  truthy_user (user (props w)) = true -> truthy_string (token (props w)) = true ->
  listeners_of SOCKET_EVENTS.CONNECT (socket_at w s) = [LConnect c] ->
  a_items (pendingEmits (sc_state (scope_at w (sc_processPendingEmits (scope_at w c))))) = [] ->
  reconnectAttempts (state w) <> 0 ->
  let n := length (sockets w) in
  let w' := step w (tnow, EvSocket s SOCKET_EVENTS.CONNECT arg) in
  sock_obs (added w w') = closes w ++ [OSockNew n; OSockOpen n]
  /\ socketRef w' = Some n
  /\ isConnecting (state w') = true /\ isConnected (state w') = false
  /\ reconnectAttempts (state w') = 0.
Proof.
  intros R U T Hl Hq Hn. cbv zeta.
  destruct (reachable_inv w R) as (_ & (ps & L & St & Pr) & _).
  pose proof (reachable_closures_ok w R) as C.
  unfold step. cbn [fst snd dispatch].
  rewrite (listeners_after_flag s SOCKET_EVENTS.CONNECT [LConnect c]
             (set_now tnow w) Hl) by discriminate.
  cbn [fold_left run_listener].
  pose proof (on_connect_spec c
                (update_socket s (transport_flag SOCKET_EVENTS.CONNECT) (set_now tnow w)) Hq)
    as D. cbv zeta in D. revert D.
  generalize (on_connect c
                (update_socket s (transport_flag SOCKET_EVENTS.CONNECT) (set_now tnow w))).
  intros w1 (S1 & P1 & F1 & K1 & _ & _ & _ & G1 & A1 & _ & O1 & [m1 T1]).
  revert S1 P1 F1 K1 O1 T1. unfold update_socket. proj.
  intros S1 P1 F1 K1 O1 T1.
  assert (L1 : last (scopes w1) = Some ps) by (now rewrite S1).
  destruct (settle_reconnects w1 ps) as (B1 & _ & _ & [more B4] & B5).
  - eapply scopes_closures_ok; [|exact C]. exact S1.
  - exact L1.
  - apply (recreated_by_attempts w1 ps L1). rewrite St, A1. exact Hn.
  - now rewrite P1.
  - now rewrite P1.
  - rewrite G1 in B5. destruct B5 as (B5 & B6 & B7 & _).
    destruct (render_outer w1) as (_ & _ & _ & _ & _ & Ra).
    destruct (render_outer (render w1)) as (_ & _ & _ & _ & _ & Rb).
    fold (settle w1) in Rb.
    revert B1 B4 B5 B6 B7 Rb. generalize (settle w1). intros w' B1 B4 B5 B6 B7 Rb.
    assert (Kl : length (sockets w1) = length (sockets w)) by (now rewrite K1, length_alter).
    rewrite Kl in B5, B6. unfold closes in B6 |- *. rewrite F1, O1 in B6.
    repeat split; trivial; [|congruence].
    apply (sock_obs_added w w' (m1 ++ more)); [|exact B6].
    rewrite B4, T1. now rewrite app_assoc.
Qed.

(** After one failed handshake, the handshake of handle 1 succeeds:
    handle 1 is closed at once and handle 2 is opened. *)
Lemma success_after_failure_is_cycled_witness :
  sock_obs (added failed_once (step failed_once (1200, EvSocket 1 "connect" JNull)))
  = [OSockClose 1; OSockNew 2; OSockOpen 2].
Proof.
  assert (R : reachable failed_once).
  { unfold failed_once. apply reachable_more. exact reachable_mounted. }
  pose proof (success_after_failure_is_cycled failed_once 1 2 JNull 1200 R
                ltac:(vm_compute; reflexivity) ltac:(vm_compute; reflexivity)
                ltac:(vm_compute; reflexivity) ltac:(vm_compute; reflexivity)
                ltac:(vm_compute; discriminate)) as H.
  cbv zeta in H. destruct H as (H & _). exact H.
Defined.

(** X9. A transport disconnect.  When the transport reports a
    disconnect on a handle that carries the manager's listener, while
    [isConnected] is set, the manager clears the connection flags and
    [lastActivity] and keeps the handle: nothing is closed or created (the
    retries are the transport's).  The re-render stops the health interval
    and leaves the ping interval running.  Only the reason "io server
    disconnect" makes the manager schedule its own [connect], in one
    timeout held by [reconnectTimeoutRef]; any other reason schedules
    nothing. *)
Theorem transport_disconnect_keeps_the_handle w s c reason tnow :
  reachable w ->
  listeners_of SOCKET_EVENTS.DISCONNECT (socket_at w s) = [LDisconnect c] ->
  isConnected (state w) = true ->
  let w' := step w (tnow, EvSocket s SOCKET_EVENTS.DISCONNECT reason) in
  isConnected (state w') = false /\ isConnecting (state w') = false
  /\ lastActivity (state w') = None
  /\ socketRef w' = socketRef w
  /\ sock_obs (added w w') = []
  /\ healthTimer w' = None
  /\ (forall t k, timer_at w' t <> Some (THealth k))
  /\ pingIntervalRef w' = pingIntervalRef w
  /\ if is_reason "io server disconnect" reason
     then reconnectTimeoutRef w' = Some (length (timers w))
          /\ timer_at w' (length (timers w)) = Some (TReconnect (sc_connect (scope_at w c)))
          /\ length (timers w') = S (length (timers w))
     else reconnectTimeoutRef w' = reconnectTimeoutRef w
          /\ length (timers w') = length (timers w).
Proof.
  intros R Hl C. cbv zeta.
  destruct (reachable_inv w R) as (_ & (ps & L & St & Pr) & _).
  pose proof (reachable_health_owner_ok w R) as Ho.
  pose proof (reachable_intervals_ok _
                (reachable_step w (tnow, EvSocket s SOCKET_EVENTS.DISCONNECT reason) R)) as Iv.
  revert Iv. unfold step. cbn [fst snd dispatch].
  assert (E : listeners_of SOCKET_EVENTS.DISCONNECT
                (socket_at (update_socket s (transport_flag SOCKET_EVENTS.DISCONNECT)
                              (set_now tnow w)) s) = [LDisconnect c]).
  { destruct (socket_at_update s (transport_flag SOCKET_EVENTS.DISCONNECT) (set_now tnow w))
      as [Q|[Q1 Q2]]; rewrite ?Q, ?Q2.
    - unfold listeners_of. rewrite transport_flag_listeners. exact Hl.
    - exfalso. unfold socket_at in Hl.
      change (sockets (set_now tnow w)) with (sockets w) in Q1. rewrite Q1 in Hl.
      discriminate. }
  rewrite E. cbn [fold_left run_listener].
  pose proof (on_disconnect_spec c reason
                (update_socket s (transport_flag SOCKET_EVENTS.DISCONNECT) (set_now tnow w)))
    as D. cbv zeta in D. revert D.
  generalize (on_disconnect c reason
                (update_socket s (transport_flag SOCKET_EVENTS.DISCONNECT) (set_now tnow w))).
  intros w1 (S1 & P1 & E1 & R1 & Cs & G1 & A1 & F1 & _ & H1 & Q1 & O1 & [m1 T1] & Y1) Iv.
  revert S1 P1 E1 R1 F1 H1 Q1 O1 T1 Y1. unfold update_socket. proj.
  change (scope_at (set_sockets (alter (transport_flag SOCKET_EVENTS.DISCONNECT) s (sockets w))
                      (set_now tnow w)) c) with (scope_at w c).
  intros S1 P1 E1 R1 F1 H1 Q1 O1 T1 Y1.
  (* the first render *)
  assert (L1 : last (scopes w1) = Some ps) by (now rewrite S1).
  destruct (render_scope_stable w1 ps L1) as (Cn1 & Au1);
    [now rewrite P1|now rewrite E1, St|now rewrite R1, St|].
  rewrite <- L1 in Au1.
  assert (Hc : health_changed (last (scopes w1)) (render_scope w1) = true).
  { rewrite L1. unfold health_changed. change (sc_state (render_scope w1)) with (state w1).
    rewrite St, C, Cs. reflexivity. }
  destruct (render_idle w1 Au1) as (Sa & Ra & Ka & Ta).
  destruct (render_idle_refs w1 Au1) as (Pa & Qa).
  destruct (render_health_off w1 Au1 Hc Cs) as (Ha & _).
  pose proof (render_health_off_timers w1 Au1 Hc Cs) as Tm.
  destruct (render_outer w1) as (Sca & Pra & _).
  assert (K1 : sc_state (render_scope w1) = state w1) by reflexivity.
  assert (K2 : sc_props (render_scope w1) = props w1) by reflexivity.
  unfold settle in *. revert Iv Sa Ra Ka Ta Pa Qa Ha Tm Sca Pra.
  generalize (render w1). intros w2 Iv Sa Ra Ka Ta Pa Qa Ha Tm Sca Pra.
  (* the second render *)
  destruct (render_quiet w2 (render_scope w1)) as (B1 & B2 & _ & B4 & B5 & B6 & B7 & B8).
  { rewrite Sca. apply last_snoc. }
  { now rewrite K2, Pra. }
  { now rewrite K1, Sa. }
  { now rewrite K1, Sa. }
  { now rewrite K1, Sa. }
  { now rewrite K1, Sa. }
  revert Iv B1 B2 B4 B5 B6 B7 B8. generalize (render w2).
  intros w' Iv B1 B2 B4 B5 B6 B7 B8.
  assert (Tw : timers w' = clear_ref (healthTimer w) (timers w1)) by congruence.
  assert (Hw : healthTimer w' = None) by congruence.
  split; [congruence|]. split; [congruence|]. split; [congruence|]. split; [congruence|].
  split.
  { apply (sock_obs_added w w' m1); [congruence|]. rewrite app_nil_r. congruence. }
  split; [exact Hw|]. split.
  { intros t k Et. unfold timer_at in Et.
    destruct (timers w' !! t) as [[x|]|] eqn:Q; cbn in Et; try discriminate.
    injection Et as ->. eapply Iv in Q. congruence. }
  split; [congruence|].
  destruct (is_reason "io server disconnect" reason); destruct Y1 as (Y1 & Y2).
  - split; [congruence|]. unfold timer_at. rewrite Tw, Y1. unfold clear_ref.
    destruct (healthTimer w) as [t|] eqn:Eh.
    + apply Ho in Eh. rewrite list_lookup_insert_ne by lia.
      rewrite lookup_app_r by lia. rewrite Nat.sub_diag, length_insert, length_app.
      cbn. split; [reflexivity|lia].
    + rewrite lookup_app_r by lia. rewrite Nat.sub_diag, length_app. cbn.
      split; [reflexivity|lia].
  - split; [congruence|]. rewrite Tw, Y1. unfold clear_ref.
    destruct (healthTimer w); now rewrite ?length_insert.
Qed.

(** The server drops the connection of [connected] at 2000: timer 2 is
    the manager's retry. *)
Lemma transport_disconnect_keeps_the_handle_witness :
  socketRef (step connected (2000, EvSocket 0 "disconnect" (JStr "io server disconnect")))
  = socketRef connected
  /\ reconnectTimeoutRef
       (step connected (2000, EvSocket 0 "disconnect" (JStr "io server disconnect")))
     = Some 2%nat.
Proof.
  assert (R : reachable connected).
  { unfold connected. apply reachable_more. exact reachable_mounted. }
  pose proof (transport_disconnect_keeps_the_handle connected 0 0
                (JStr "io server disconnect") 2000 R
                ltac:(vm_compute; reflexivity) ltac:(vm_compute; reflexivity)) as H.
  cbv zeta in H. destruct H as (_ & _ & _ & H4 & _ & _ & _ & _ & H9).
  split; [exact H4|]. apply H9.
Defined.

(** X10. Activity restarts the health interval.  In a reachable world
    with [isConnected] set, a "pong" from the transport reaching the
    manager's listener, or the acknowledgment of an emit, sets
    [lastActivity] to the time of the event (when that is a new value); the
    health effect depends on [lastActivity], so the re-render cancels the
    running health interval and starts a new one whose callback compares
    against the new value.  Afterwards that interval is the only health
    interval running. *)
Theorem activity_restarts_the_health_interval w tnow e :
  reachable w ->
  match e with
  | EvSocket s ev _ =>
      ev = SOCKET_EVENTS.PONG
      /\ exists c, listeners_of SOCKET_EVENTS.PONG (socket_at w s) = [LPong c]
  | EvAck s ack _ => is_Some (sk_acks (socket_at w s) !! ack)
  | _ => False
  end ->
  isConnected (state w) = true -> lastActivity (state w) <> Some tnow -> tnow <> 0 ->
  let w' := step w (tnow, e) in
  let id := length (timers w) in
  let k := length (scopes w) in
  lastActivity (state w') = Some tnow
  /\ isConnected (state w') = true
  /\ healthTimer w' = Some id
  /\ timer_at w' id = Some (THealth k)
  /\ lastActivity (sc_state (scope_at w' k)) = Some tnow
  /\ (forall t k', timer_at w' t = Some (THealth k') -> t = id /\ k' = k)
  /\ socketRef w' = socketRef w.
Proof.
  intros R He C N Z. cbv zeta.
  destruct (reachable_inv w R) as (_ & (ps & L & St & Pr) & _).
  pose proof (reachable_intervals_ok _ (reachable_step w (tnow, e) R)) as Iv.
  assert (D : exists w1, fst (dispatch e (set_now tnow w)) = w1
              /\ scopes w1 = scopes w /\ props w1 = props w
              /\ eventListeners (state w1) = eventListeners (state w)
              /\ reconnectAttempts (state w1) = reconnectAttempts (state w)
              /\ isConnected (state w1) = isConnected (state w)
              /\ lastActivity (state w1) = Some tnow
              /\ timers w1 = timers w /\ socketRef w1 = socketRef w).
  { eexists. split; [reflexivity|]. destruct e; try contradiction.
    - destruct He as (-> & c & Hc). cbn [dispatch fst].
      assert (E : listeners_of SOCKET_EVENTS.PONG
                    (socket_at (update_socket s (transport_flag SOCKET_EVENTS.PONG)
                                  (set_now tnow w)) s) = [LPong c]).
      { destruct (socket_at_update s (transport_flag SOCKET_EVENTS.PONG) (set_now tnow w))
          as [Q|[Q1 Q2]]; rewrite ?Q, ?Q2.
        - unfold listeners_of. rewrite transport_flag_listeners. exact Hc.
        - exfalso. unfold socket_at in Hc.
          change (sockets (set_now tnow w)) with (sockets w) in Q1. rewrite Q1 in Hc.
          discriminate. }
      rewrite E. cbn [fold_left run_listener]. unfold on_pong, update_socket. proj.
      repeat split.
    - destruct He as [cb Hcb]. cbn [dispatch fst].
      change (socket_at (set_now tnow w) s) with (socket_at w s). rewrite Hcb.
      unfold on_ack, call_callback. cbv zeta. destruct cb; proj; repeat split. }
  destruct D as (w1 & D & S1 & P1 & E1 & R1 & Cs & A1 & T1 & F1).
  revert Iv. unfold step. cbn [fst snd]. rewrite D. clear D. intros Iv.
  destruct (settle_activity w1 ps tnow) as (B1 & B2 & B3 & B4 & B5 & B6 & B7);
    rewrite ?S1, ?P1, ?E1, ?R1, ?Cs, ?St; trivial.
  revert Iv B1 B2 B3 B4 B5 B6 B7. generalize (settle w1).
  intros w' Iv B1 B2 B3 B4 B5 B6 B7.
  rewrite S1 in B6, B7. rewrite T1 in B5, B6.
  assert (TA : timer_at w' (length (timers w)) = Some (THealth (length (scopes w)))).
  { unfold timer_at. rewrite B6, lookup_app_r.
    - replace (length (clear_ref (healthTimer w1) (timers w))) with (length (timers w)).
      + now rewrite Nat.sub_diag.
      + unfold clear_ref. destruct (healthTimer w1); now rewrite ?length_insert.
    - unfold clear_ref. destruct (healthTimer w1); rewrite ?length_insert; lia. }
  assert (Only : forall i k', timer_at w' i = Some (THealth k') ->
                   i = length (timers w) /\ k' = length (scopes w)).
  { intros i k' Hk.
    assert (E : i = length (timers w)).
    { unfold timer_at in Hk.
      destruct (timers w' !! i) as [[x|]|] eqn:Q; cbn in Hk; try discriminate.
      injection Hk as ->. apply Iv in Q. congruence. }
    subst i. split; [reflexivity|congruence]. }
  rewrite B1, B2, A1, Cs, F1.
  split; [reflexivity|]. split; [exact C|]. split; [exact B5|]. split; [exact TA|].
  split; [exact B7|]. split; [exact Only|reflexivity].
Qed.

(** In [connected] (last activity at 1200) a pong arrives at 5000. *)
Lemma activity_restarts_the_health_interval_witness :
  lastActivity (state (step connected (5000, EvSocket 0 "pong" JNull))) = Some 5000
  /\ healthTimer (step connected (5000, EvSocket 0 "pong" JNull)) = Some 2%nat.
Proof.
  assert (R : reachable connected).
  { unfold connected. apply reachable_more. exact reachable_mounted. }
  pose proof (activity_restarts_the_health_interval connected 5000
                (EvSocket 0 "pong" JNull) R) as H.
  cbv zeta in H. destruct H as (H1 & _ & H3 & _).
  - split; [reflexivity|]. exists 0%nat. vm_compute. reflexivity.
  - vm_compute. reflexivity.
  - vm_compute. discriminate.
  - discriminate.
  - split; [exact H1|exact H3].
Defined.

(** X11. A health tick within the bound changes nothing.  When the
    interval of the health effect fires and no more than 60000 ms have
    passed since the [lastActivity] its render had in scope, the callback
    does nothing and the re-render that follows runs no effect: state,
    handles, timers, refs and observable actions are as before (60000 ms
    exactly is not yet a breach). *)
Theorem health_tick_within_bound_is_a_noop w t k la tnow :
  reachable w ->
  timers w !! t = Some (Some (THealth k)) ->
  lastActivity (sc_state (scope_at w k)) = Some la ->
  tnow - la <= 60000 ->
  let w' := step w (tnow, EvTimer t) in
  state w' = state w /\ socketRef w' = socketRef w /\ sockets w' = sockets w
  /\ timers w' = timers w /\ trace w' = trace w
  /\ pingIntervalRef w' = pingIntervalRef w /\ healthTimer w' = healthTimer w.
Proof.
  intros R Ht Hla Hb. cbv zeta.
  destruct (reachable_inv w R) as (_ & (ps & L & St & Pr) & _).
  assert (D : fst (dispatch (EvTimer t) (set_now tnow w)) = set_now tnow w).
  { cbn [dispatch fst]. unfold fire_timer.
    change (timers (set_now tnow w)) with (timers w). rewrite Ht.
    unfold health_check. cbv zeta.
    change (scope_at (set_now tnow w) k) with (scope_at w k). rewrite Hla.
    change (now (set_now tnow w)) with tnow. change (default 0 (Some la)) with la.
    replace (60000 <? tnow - la)%Z with false; [reflexivity|].
    symmetry. apply Z.ltb_ge. exact Hb. }
  unfold step, settle. cbn [fst snd]. rewrite D.
  set (w0 := set_now tnow w).
  assert (L0 : last (scopes w0) = Some ps) by exact L.
  destruct (render_scope_stable w0 ps L0) as (Cn1 & A1); [exact Pr|now rewrite St|now rewrite St|].
  rewrite <- L0 in A1.
  assert (H1 : health_changed (last (scopes w0)) (render_scope w0) = false).
  { rewrite L0. unfold health_changed. rewrite Cn1.
    change (sc_state (render_scope w0)) with (state w). rewrite St, !same_refl. reflexivity. }
  destruct (render_idle w0 A1) as (S1 & R1 & K1 & T1).
  destruct (render_idle_refs w0 A1) as (P1 & _).
  destruct (render_health_same w0 A1 H1) as (HT1 & TM1).
  destruct (render_outer w0) as (Sc1 & Pr1 & _).
  change (state w0) with (state w) in S1. change (socketRef w0) with (socketRef w) in R1.
  change (sockets w0) with (sockets w) in K1. change (trace w0) with (trace w) in T1.
  change (pingIntervalRef w0) with (pingIntervalRef w) in P1.
  change (healthTimer w0) with (healthTimer w) in HT1.
  change (timers w0) with (timers w) in TM1.
  change (props w0) with (props w) in Pr1.
  assert (Cs : sc_state (render_scope w0) = state w) by reflexivity.
  assert (Cp : sc_props (render_scope w0) = props w) by reflexivity.
  clearbody w0. revert S1 R1 K1 T1 P1 HT1 TM1 Sc1 Pr1.
  generalize (render w0). intros w1 S1 R1 K1 T1 P1 HT1 TM1 Sc1 Pr1.
  assert (L2 : last (scopes w1) = Some (render_scope w0)) by (rewrite Sc1; apply last_snoc).
  destruct (render_scope_stable w1 (render_scope w0) L2) as (Cn2 & A2).
  { now rewrite Cp, Pr1. }
  { now rewrite Cs, S1. }
  { now rewrite Cs, S1. }
  rewrite <- L2 in A2.
  assert (H2 : health_changed (last (scopes w1)) (render_scope w1) = false).
  { rewrite L2. unfold health_changed. rewrite Cn2.
    change (sc_state (render_scope w1)) with (state w1).
    rewrite Cs, S1, !same_refl. reflexivity. }
  destruct (render_idle w1 A2) as (S2 & R2 & K2 & T2).
  destruct (render_idle_refs w1 A2) as (P2 & _).
  destruct (render_health_same w1 A2 H2) as (HT2 & TM2).
  rewrite S2, R2, K2, T2, P2, HT2, TM2. auto 10.
Qed.

(** In [connected] the last activity is at 1200 and timer 1 is the health
    interval of render 2; it fires at 61200. *)
Lemma health_tick_within_bound_is_a_noop_witness :
  trace (step connected (61200, EvTimer 1%nat)) = trace connected.
Proof.
  assert (R : reachable connected).
  { unfold connected. apply reachable_more. exact reachable_mounted. }
  pose proof (health_tick_within_bound_is_a_noop connected 1 2 1200 61200 R
                ltac:(vm_compute; reflexivity) ltac:(vm_compute; reflexivity)
                ltac:(vm_compute; discriminate)) as H.
  cbv zeta in H. destruct H as (_ & _ & _ & _ & H & _). exact H.
Defined.

(** X12. The ping.  When the ping interval fires in a reachable world,
    a "ping" carrying only the current time is sent on the handle held in
    [socketRef] if that handle is connected, and nothing is sent otherwise;
    either way the state, the handles and the timers are as before and the
    re-render runs no effect. *)
Theorem ping_goes_out_on_the_current_handle w t tnow :
  reachable w -> timers w !! t = Some (Some TPing) ->
  let w' := step w (tnow, EvTimer t) in
  state w' = state w /\ socketRef w' = socketRef w /\ sockets w' = sockets w
  /\ timers w' = timers w
  /\ (forall s, socketRef w = Some s -> sk_connected (socket_at w s) = true ->
      send_throws (env w) SOCKET_EVENTS.PING = None ->
      added w w' = [OSend s SOCKET_EVENTS.PING (<["timestamp" := JNum tnow]> ∅) None])
  /\ (ref_connected w = false -> added w w' = []).
Proof.
  intros R Ht. cbv zeta.
  destruct (reachable_inv w R) as (_ & (ps & L & St & Pr) & _).
  unfold step. cbn [fst snd dispatch]. unfold fire_timer.
  change (timers (set_now tnow w)) with (timers w). rewrite Ht.
  assert (D : exists obs,
            trace (ping_tick (set_now tnow w)) = trace w ++ obs
            /\ state (ping_tick (set_now tnow w)) = state w
            /\ props (ping_tick (set_now tnow w)) = props w
            /\ scopes (ping_tick (set_now tnow w)) = scopes w
            /\ socketRef (ping_tick (set_now tnow w)) = socketRef w
            /\ sockets (ping_tick (set_now tnow w)) = sockets w
            /\ timers (ping_tick (set_now tnow w)) = timers w
            /\ (forall s, socketRef w = Some s -> sk_connected (socket_at w s) = true ->
                send_throws (env w) SOCKET_EVENTS.PING = None ->
                obs = [OSend s SOCKET_EVENTS.PING (<["timestamp" := JNum tnow]> ∅) None])
            /\ (ref_connected w = false -> obs = [])).
  { unfold ping_tick, ref_connected, sock_emit.
    change (socketRef (set_now tnow w)) with (socketRef w).
    destruct (socketRef w) as [s|] eqn:Es.
    - change (socket_at (set_now tnow w) s) with (socket_at w s).
      change (env (set_now tnow w)) with (env w).
      change (now (set_now tnow w)) with tnow.
      destruct (sk_connected (socket_at w s)) eqn:Ec.
      + destruct (send_throws (env w) SOCKET_EVENTS.PING) eqn:Et; cbn [fst]; proj.
        * exists []. rewrite app_nil_r. repeat split; trivial; intros; congruence.
        * eexists. repeat split; trivial; [|intros; congruence].
          intros s' [= <-] _ _. reflexivity.
      + exists []. rewrite app_nil_r. repeat split; trivial. intros; congruence.
    - exists []. rewrite app_nil_r. repeat split; trivial. intros; congruence. }
  destruct D as (obs & T & S & P & Sc & F & K & Tm & O1 & O2).
  revert T S P Sc F K Tm. generalize (ping_tick (set_now tnow w)).
  intros w1 T S P Sc F K Tm.
  destruct (settle_quiet w1 ps) as (A1 & A2 & A3 & A4 & _ & _ & A7 & _);
    [now rewrite Sc|now rewrite P|now rewrite S|].
  rewrite A1, A2, A3, A7. repeat split; trivial.
  - intros s H1 H2 H3. unfold added. rewrite A4, T, drop_app_length. now apply (O1 s).
  - intros H. unfold added. rewrite A4, T, drop_app_length. now apply O2.
Qed.

(** In [connected] the ping interval (timer 0) fires at 31000. *)
Lemma ping_goes_out_on_the_current_handle_witness :
  added connected (step connected (31000, EvTimer 0%nat))
  = [OSend 0 "ping" (<["timestamp" := JNum 31000]> ∅) None].
Proof.
  assert (R : reachable connected).
  { unfold connected. apply reachable_more. exact reachable_mounted. }
  pose proof (ping_goes_out_on_the_current_handle connected 0 31000 R
                ltac:(vm_compute; reflexivity)) as H.
  cbv zeta in H. destruct H as (_ & _ & _ & _ & H & _).
  apply (H 0%nat); vm_compute; reflexivity.
Defined.

(** X13. No interval leaks.  In every reachable world a running ping
    interval is the one held in [pingIntervalRef] and a running health
    interval is the one the pending cleanup of the health effect will
    clear; so at most one of each kind is running. *)
Theorem intervals_are_owned w :
  reachable w ->
  (forall t, timer_at w t = Some TPing -> pingIntervalRef w = Some t)
  /\ (forall t k, timer_at w t = Some (THealth k) -> healthTimer w = Some t)
  /\ (forall t t', timer_at w t = Some TPing -> timer_at w t' = Some TPing -> t = t')
  /\ (forall t t' k k',
        timer_at w t = Some (THealth k) -> timer_at w t' = Some (THealth k') -> t = t').
Proof.
  intros R. pose proof (reachable_intervals_ok w R) as H.
  assert (A : forall t x, timer_at w t = Some x -> timers w !! t = Some (Some x)).
  { unfold timer_at. intros t x. destruct (timers w !! t) as [[y|]|]; cbn; congruence. }
  assert (P : forall t, timer_at w t = Some TPing -> pingIntervalRef w = Some t)
    by (intros t E; now apply H, A).
  assert (Q : forall t k, timer_at w t = Some (THealth k) -> healthTimer w = Some t)
    by (intros t k E; eapply H, A, E).
  repeat split; trivial.
  - intros t t' E E'. apply P in E, E'. congruence.
  - intros t t' k k' E E'. apply Q in E, E'. congruence.
Qed.

(** In [connected] timer 0 is the ping interval and timer 1 the health
    interval. *)
Lemma intervals_are_owned_witness :
  pingIntervalRef connected = Some 0%nat /\ healthTimer connected = Some 1%nat.
Proof.
  assert (R : reachable connected).
  { unfold connected. apply reachable_more. exact reachable_mounted. }
  destruct (intervals_are_owned connected R) as (P & Q & _).
  split; [apply P|apply (Q _ 2%nat)]; vm_compute; reflexivity.
Defined.

(** X14. Unmounting stops what the hook owns through a ref or a cleanup,
    and only that.  From any reachable world, the cleanups of the three
    effects close the current handle (the only live one), leave no live
    handle, no ping interval and no health interval, clear the three refs
    and take the visibility listener off the document.  A timer still
    pending afterwards is a reconnect timeout of the "disconnect" listener
    that was pending before and that [reconnectTimeoutRef] no longer
    held. *)
Theorem unmount_stops_all_but_orphaned_timeouts w :
  reachable w ->
  let w' := unmount w in
  no_live w'
  /\ sock_obs (added w w') = closes w
  /\ socketRef w' = None /\ pingIntervalRef w' = None /\ reconnectTimeoutRef w' = None
  /\ visListener w' = None /\ healthTimer w' = None
  /\ (forall t, timer_at w' t <> Some TPing)
  /\ (forall t k, timer_at w' t <> Some (THealth k))
  /\ (forall t x, timer_at w' t = Some x ->
        exists c, x = TReconnect c /\ timer_at w t = Some (TReconnect c)
                  /\ reconnectTimeoutRef w <> Some t).
Proof.
  intros R. cbv zeta.
  destruct (reachable_inv w R) as (L & _).
  destruct (unmount_intervals_ok w (reachable_intervals_ok w R)) as (I & H & P).
  pose proof (disconnect_no_live w L) as N.
  pose proof (disconnect_refs w) as (R1 & _ & R3 & _).
  pose proof (disconnect_spec w) as (_ & O).
  pose proof (disconnect_base w) as (_ & _ & _ & _ & _ & _ & [more T]).
  pose proof (unmount_timers w) as U.
  destruct (unmount_idle w) as (J & V).
  revert I H P J V U. generalize (unmount w). intros w' I H P J V U.
  revert N R1 R3 O T J. generalize (disconnect w). intros wd N R1 R3 O T J.
  destruct J as (_ & _ & _ & _ & _ & J1 & J2 & _ & J3 & _ & J4).
  assert (F : closed_flags w' = closed_flags wd)
    by (unfold closed_flags; now rewrite J2).
  assert (NP : forall t, timer_at w' t <> Some TPing).
  { intros t E. unfold timer_at in E.
    destruct (timers w' !! t) as [[x|]|] eqn:Q; cbn in E; try discriminate.
    injection E as ->. apply I in Q. congruence. }
  assert (NH : forall t k, timer_at w' t <> Some (THealth k)).
  { intros t k E. unfold timer_at in E.
    destruct (timers w' !! t) as [[x|]|] eqn:Q; cbn in E; try discriminate.
    injection E as ->. eapply I in Q. congruence. }
  repeat split; trivial; try congruence.
  - intros s Hs. apply (N s). apply live_flags. apply live_flags in Hs. now rewrite <- F.
  - unfold added. rewrite J3, T, drop_app_length.
    rewrite T, sock_obs_app in O. now apply app_inv_head in O.
  - intros t x E. destruct x as [c| |k].
    + exists c. split; [reflexivity|].
      unfold timer_at in E |- *. rewrite U in E.
      apply clear_ref_pending in E as (E & _).
      apply clear_ref_pending in E as (E & Q).
      apply clear_ref_pending in E as (E & _). split; [exact E|exact Q].
    + destruct (NP t E).
    + destruct (NH t k E).
Qed.

(** Unmounting [dropped_twice]: nothing is live afterwards, the timeout in
    the ref (5) is cancelled, and the timeout the ref had lost (2) is still
    pending; when it elapses its [connect] creates and opens handle 2. *)
Lemma unmount_stops_all_but_orphaned_timeouts_witness :
  no_live (unmount dropped_twice)
  /\ reconnectTimeoutRef dropped_twice = Some 5%nat
  /\ timer_at (unmount dropped_twice) 5 = None
  /\ timer_at (unmount dropped_twice) 2 = Some (TReconnect 0)
  /\ sock_obs (added (unmount dropped_twice) (fire_timer 2 (unmount dropped_twice)))
     = [OSockNew 2; OSockOpen 2].
Proof.
  assert (R : reachable dropped_twice).
  { unfold dropped_twice, dropped_once, connected. do 3 apply reachable_more.
    exact reachable_mounted. }
  destruct (unmount_stops_all_but_orphaned_timeouts dropped_twice R) as (N & _).
  split; [exact N|]. vm_compute. repeat split; reflexivity.
Defined.

(** X15. Subscribing and then calling the function [on] returned is a round
    trip on the registry and on the handle.  In every reachable world,
    [on(event, handler)] followed by [off(event, wrapper)] with the wrapper
    [on] registered (what the returned function does) leaves the registry
    with the entries it had, every [Set] that existed with the members it
    had, and the handles with the listeners they had. *)
Theorem subscribe_then_unsubscribe_restores w ev h :
  reachable w ->
  let wrapper := fst (on ev h w) in
  let w2 := off ev wrapper (snd (on ev h w)) in
  wrapper = FLogged (next_id w) ev h
  /\ m_entries (eventListeners (state w2)) = m_entries (eventListeners (state w))
  /\ (forall r, (r < length (sets w))%nat -> sets w2 !! r = sets w !! r)
  /\ sockets w2 = sockets w
  /\ socketRef w2 = socketRef w.
Proof.
  intros R. destruct (reachable_registry_ok w R) as (_ & _ & H2 & H3 & H4).
  cbv zeta.
  destruct (on_spec ev h w) as (F & _ & _ & E1 & S1 & K1 & R1). cbv zeta in *.
  rewrite F.
  destruct (off_spec ev (FLogged (next_id w) ev h) (snd (on ev h w)))
    as (_ & _ & S2 & E2 & K2 & R2). cbv zeta in *.
  revert E1 S1 K1 R1 S2 E2 K2 R2. generalize (snd (on ev h w)). intros w1.
  generalize (off ev (FLogged (next_id w) ev h) w1). intros w2 E1 S1 K1 R1 S2 E2 K2 R2.
  set (f := FLogged (next_id w) ev h) in *.
  assert (Fr : forall g, known w g -> fn_same g f = false /\ fn_same f g = false).
  { intros g Hg. apply fresh_wrapper_differs. auto. }
  assert (Ff : fn_same f f = true) by (cbn; apply Nat.eqb_refl).
  split; [reflexivity|].
  rewrite E2, S2, K2, R2, E1, S1, K1, R1. clear E2 S2 K2 R2 E1 S1 K1 R1 w1 w2.
  repeat split.
  - (* the entries *)
    destruct (map_get ev (m_entries (eventListeners (state w)))) as [r0|] eqn:G.
    + rewrite G.
      destruct (H3 ev r0 (map_get_Some _ _ _ G)) as (l0 & L0 & Hn).
      rewrite alter_alter_same.
      * rewrite L0. cbn [default]. destruct l0; [contradiction|reflexivity].
      * intros x Hx. rewrite set_add_fresh by (intros g I; apply Fr; left; eauto).
        apply set_delete_fresh; [|exact Ff]. intros g I. apply Fr. left. eauto.
    + rewrite (map_get_app_new _ _ _ G).
      rewrite alter_app_r_alt by lia. rewrite Nat.sub_diag.
      rewrite lookup_app_r by lia. rewrite Nat.sub_diag. cbn [alter list_alter lookup list_lookup default].
      unfold set_delete. rewrite filter_cons_False by (rewrite Ff; discriminate).
      rewrite filter_nil. cbn [length Nat.eqb].
      apply map_delete_app_new, G.
  - (* the sets *)
    intros r Hr.
    destruct (map_get ev (m_entries (eventListeners (state w)))) as [r0|] eqn:G.
    + rewrite G. rewrite alter_alter_same; [reflexivity|].
      intros x Hx. rewrite set_add_fresh by (intros g I; apply Fr; left; eauto).
      apply set_delete_fresh; [|exact Ff]. intros g I. apply Fr. left. eauto.
    + rewrite (map_get_app_new _ _ _ G).
      rewrite alter_app_r_alt by lia. now rewrite lookup_app_l.
  - (* the handle *)
    destruct (socketRef w) as [s|]; [|reflexivity].
    apply alter_alter_same. intros sk Hsk. cbn [sk_listeners sk_connected sk_closed sk_acks].
    rewrite remove_first_fresh.
    + now destruct sk.
    + intros [e l] I. unfold is_fn. cbn [fst snd].
      destruct (String.eqb e ev) eqn:Ee; [|reflexivity]. cbn [andb].
      destruct l; trivial. apply Fr. right. exists s, sk, e. auto.
    + unfold is_fn. cbn [fst snd]. now rewrite String.eqb_refl, Ff.
Qed.

(** In [subscribed] a second handler comes and goes. *)
Lemma subscribe_then_unsubscribe_restores_witness :
  sockets (off "notification" (fst (on "notification" (FUser 8) subscribed))
             (snd (on "notification" (FUser 8) subscribed)))
  = sockets subscribed.
Proof.
  assert (R : reachable subscribed).
  { unfold subscribed, connected. do 2 apply reachable_more. exact reachable_mounted. }
  exact (proj1 (proj2 (proj2 (proj2
           (subscribe_then_unsubscribe_restores subscribed "notification" (FUser 8) R))))).
Defined.

(** X16. The registry is a well-formed map of non-empty sets.  In every
    reachable world the [Map] in the state has one entry per event, each
    entry has a [Set] of its own, and that [Set] has at least one handler:
    an event whose last handler was removed has no entry. *)
Theorem registry_has_no_empty_set w :
  reachable w ->
  NoDup (fst <$> m_entries (eventListeners (state w)))
  /\ NoDup (snd <$> m_entries (eventListeners (state w)))
  /\ forall ev r, map_get ev (m_entries (eventListeners (state w))) = Some r ->
       exists l, sets w !! r = Some l /\ l <> [].
Proof.
  intros R. destruct (reachable_registry_ok w R) as (_ & H0 & H2 & H3 & _).
  repeat split; trivial. intros ev r G. apply (H3 ev r), map_get_Some, G.
Qed.

(** After the only handler of "notification" unsubscribed, the event has
    no entry. *)
Lemma registry_has_no_empty_set_witness :
  NoDup (fst <$> m_entries (eventListeners (state unsubscribed_by_wrapper)))
  /\ map_get "notification" (m_entries (eventListeners (state unsubscribed_by_wrapper))) = None.
Proof.
  assert (R : reachable unsubscribed_by_wrapper).
  { unfold unsubscribed_by_wrapper, subscribed, connected. do 3 apply reachable_more.
    exact reachable_mounted. }
  split; [apply (registry_has_no_empty_set _ R)|vm_compute; reflexivity].
Defined.



(** X18. Mounting, in a development build.  The application renders under
    [React.StrictMode], so at mount every effect runs, is cleaned up and
    runs again.  With a user and a non-empty token the auto-connect effect
    creates and opens handle 0, its cleanup closes it while the handshake
    is in flight, and the second run creates and opens handle 1 with the
    lifecycle listeners of the first [connect]: two handles are opened, one
    stays, and the ping interval of the first is cancelled.  Without a user
    or without a token [disconnect] runs three times and nothing is
    created. *)
Theorem strict_mount_opens_two_handles e p t :
  let w := mount_strict e p t in
  if truthy_user (user p) && truthy_string (token p)
  then trace w = [OSockNew 0; OSockOpen 0; OSockClose 0; OLog "WebSocket disconnected";
                  OSockNew 1; OSockOpen 1]
       /\ socketRef w = Some 1%nat
       /\ closed_flags w = [true; false]
       /\ sk_listeners (socket_at w 1) = lifecycle_listeners 0
       /\ isConnecting (state w) = true /\ isConnected (state w) = false
       /\ timers w = [None; Some TPing] /\ pingIntervalRef w = Some 1%nat
       /\ healthTimer w = None
  else trace w = [OLog "WebSocket disconnected"; OLog "WebSocket disconnected";
                  OLog "WebSocket disconnected"]
       /\ socketRef w = None /\ sockets w = []
       /\ isConnecting (state w) = false /\ isConnected (state w) = false
       /\ timers w = [] /\ pingIntervalRef w = None /\ healthTimer w = None.
Proof.
  cbv zeta. destruct (truthy_user (user p) && truthy_string (token p)) eqn:I.
  - apply andb_true_iff in I as [U T]. now apply mount_strict_with_identity.
  - now apply mount_strict_without_identity.
Qed.
